(** * NoCap: the verification-and-consensus pipeline

    A shallow embedding of the TypeScript services of the repository
    (verification-service.ts, semantic-service.ts, voice-service.ts and the
    [processStatement] callback of the index route), with the properties of
    the specification stated and settled against it.

    Conventions of the embedding.
    - A JavaScript [string] is a [string] of ASCII characters: lengths
      and indices count characters, which on ASCII text are the UTF-16
      code units that JavaScript counts.
    - A value read from parsed JSON is taken at the type the service
      declares for it, with one exception: the [verdict] of an agent or
      of the gateway, which the service passes on unvalidated and later
      calls a method on, is any string or a value that is no string.
    - A JavaScript [number] is [number]: [NaN], [+Infinity] or an exact
      rational.  The divisions of the consensus rule are quotients of two
      array lengths; for lengths below 2^50 the rounding of the IEEE
      quotient to the nearest double is monotone and keeps every comparison
      with the literal [0.6] (the double nearest to 3/5) that the exact
      rational gives.
    - An [async] function is a computation in the error monad [M]: a
      rejected promise is [inl] of the thrown value.  [try]/[catch] is
      [try_catch]. *)

From Stdlib Require Import QArith Ascii.
From stdpp Require Import base tactics option list strings gmap.

Local Open Scope string_scope.
Local Open Scope list_scope.

(** ** JavaScript values *)

Module JS.

(** A JavaScript number that can arise from the arithmetic of the
    services. *)
Inductive number : Type :=
| NaN
| PosInf
| Fin (q : Q).

(** [a / b] on two array lengths. *)
Definition div (a b : nat) : number :=
  match b with
  | O => match a with O => NaN | S _ => PosInf end
  | S _ => Fin (Z.of_nat a # Pos.of_nat b)
  end.

(** [x >= y]; every comparison with [NaN] is false. *)
Definition ge (x y : number) : bool :=
  match x, y with
  | NaN, _ | _, NaN => false
  | PosInf, _ => true
  | Fin _, PosInf => false
  | Fin p, Fin q => Qle_bool q p
  end.

(** [Math.max(x, y)]: [NaN] is contagious. *)
Definition max (x y : number) : number :=
  match x, y with
  | NaN, _ | _, NaN => NaN
  | PosInf, _ | _, PosInf => PosInf
  | Fin p, Fin q => if Qle_bool p q then Fin q else Fin p
  end.

(** Truthiness of a number: [0] and [NaN] are falsy. *)
Definition truthy_number (x : number) : bool :=
  match x with
  | NaN => false
  | PosInf => true
  | Fin q => negb (Qeq_bool q 0)
  end.

(** Truthiness of a string: only the empty string is falsy. *)
Definition truthy (s : string) : bool :=
  match s with
  | EmptyString => false
  | String _ _ => true
  end.

(** [o || d] on an optional string field ([undefined] and [""] are falsy). *)
Definition or_string (o : option string) (d : string) : string :=
  match o with
  | Some s => if truthy s then s else d
  | None => d
  end.

(** [o || d] on an optional number field. *)
Definition or_number (o : option number) (d : number) : number :=
  match o with
  | Some x => if truthy_number x then x else d
  | None => d
  end.

(** A thrown value: an [Error] object with its message, or anything else. *)
Inductive thrown : Type :=
| ErrorObj (message : string)
| NonError.

(** [error instanceof Error ? error.message : "Unknown error"] *)
Definition message_of (error : thrown) : string :=
  match error with
  | ErrorObj m => m
  | NonError => "Unknown error"
  end.

End JS.

Import JS.

(** ** Promises that may reject *)

Definition M (A : Type) : Type := (thrown + A)%type.

Definition throw {A} (e : thrown) : M A := inl e.

#[export] Instance M_ret : MRet M := fun A x => inr x.
#[export] Instance M_bind : MBind M := fun A B f m =>
  match m with
  | inl e => inl e
  | inr x => f x
  end.

(** [try { body } catch (error) { handler }] *)
Definition try_catch {A} (body : M A) (handler : thrown -> M A) : M A :=
  match body with
  | inl e => handler e
  | inr x => inr x
  end.

(** [Promise.all]: resolves with every value when all promises resolve,
    rejects as soon as one rejects. *)
Fixpoint Promise_all {A} (ps : list (M A)) : M (list A) :=
  match ps with
  | [] => mret []
  | p :: ps' => x ← p; xs ← Promise_all ps'; mret (x :: xs)
  end.

(** ** HTTP, as the services see it *)

(** What [await fetch(...)] resolves to: [response.ok],
    [response.statusText], and the outcome of reading the body the way the
    caller does ([response.json()], the indexing into it and, where the
    caller does so, [JSON.parse]), which may throw.  [B] is the declared
    type of what the caller obtains. *)
Record response (B : Type) : Type := Response {
  ok : bool;
  statusText : string;
  json : M B;
}.
Arguments Response {B} _ _ _.
Arguments ok {B} _.
Arguments statusText {B} _.
Arguments json {B} _.

(** ** verification-service.ts *)

Module Verification.

(** The [verdict] of an agent entry or of a gateway reply.  The
    interfaces declare ["true" | "false" | "inconclusive"], but the
    services copy the field from parsed JSON ([result.verdict],
    [data.verdict]) without validating it: at run time it is any string,
    or a value that is not a string (a missing field, [null], a number,
    an object). *)
Inductive verdict : Type :=
| Str (text : string)
| NotStr.

#[export] Instance verdict_eq_dec : EqDecision verdict.
Proof. solve_decision. Defined.

Definition VTrue : verdict := Str "true".
Definition VFalse : verdict := Str "false".
Definition VInconclusive : verdict := Str "inconclusive".

(** [interface VerificationAgent] *)
Record VerificationAgent : Type := {
  name : string;
  verdict_of : verdict;
  confidence : number;
  reasoning : option string;
  citations : option (list string);
}.

Inductive consensus : Type := verified_true | verified_false | inconclusive.

Record LavaConsensus : Type := {
  lc_verdict : verdict;
  consensusScore : number;
}.

(** [interface VerificationResult] *)
Record VerificationResult : Type := {
  statementId : string;
  isFalse : bool;
  consensus_of : consensus;
  correctInformation : option string;
  result_citations : option (list string);
  agents : list VerificationAgent;
  lavaGatewayConsensus : LavaConsensus;
}.

(** The JSON verdict object the language-model agents are asked for, as
    [JSON.parse] returns it: [r_verdict] is whatever the reply holds under
    [verdict]. *)
Record LlmVerdict : Type := {
  r_verdict : verdict;
  r_confidence : number;
  r_reasoning : option string;
  r_citations : option (list string);
}.

(** The body of the Fetch.ai reply: every field may be missing.
    [d_verdict] is [None] when [data.verdict] is missing or is a falsy
    value other than the empty string; [Some NotStr] is a truthy value
    that is not a string. *)
Record FetchAIData : Type := {
  d_verdict : option verdict;
  d_confidence : option number;
  d_reasoning : option string;
}.

(** The body of the Bright Data reply: [data.results]. *)
Record BrightData : Type := {
  results : option (list string);
}.

(** The keys of [apiConfig] the services test. *)
Record ApiConfig : Type := {
  anthropic_apiKey : string;
  fetchAI_apiKey : string;
  gemini_apiKey : string;
  brightData_apiKey : string;
  lavaGateway_apiKey : string;
  chromaAI_apiKey : string;
  groq_apiKey : string;
}.

(** The outside world of one verification: the configuration, the value
    of [crypto.randomUUID()], and what each endpoint answers to each
    request. *)
Record World : Type := {
  apiConfig : ApiConfig;
  randomUUID : string;
  anthropic_verify : string -> M (response LlmVerdict);
  fetchAI_verify : string -> M (response FetchAIData);
  gemini_verify : string -> M (response LlmVerdict);
  brightData_search : string -> M (response BrightData);
  llama_verify : string -> M (response LlmVerdict);
  lava_consensus :
    list (string * verdict * number) -> M (response (verdict * number));
  anthropic_correct : string -> list string -> M (response string);
}.

(** [data.verdict || "inconclusive"] *)
Definition or_verdict (o : option verdict) : verdict :=
  match o with
  | Some (Str text) => if truthy text then Str text else VInconclusive
  | Some NotStr => NotStr
  | None => VInconclusive
  end.

Definition failed (agent : string) (why : string) : VerificationAgent :=
  {| name := agent; verdict_of := VInconclusive; confidence := Fin 0;
     reasoning := Some why; citations := None |}.

(** The body of the [try] block of [verifyWithClaude]. *)
Definition claudeAttempt (w : World) (statement : string) : M VerificationAgent :=
  response ← anthropic_verify w statement;
  if negb (ok response)
  then throw (ErrorObj ("Claude API error: " ++ statusText response))
  else
    result ← json response;
    mret {| name := "Claude (Anthropic)";
            verdict_of := r_verdict result;
            confidence := r_confidence result;
            reasoning := r_reasoning result;
            citations := None |}.

Definition verifyWithClaude (w : World) (statement : string) : M VerificationAgent :=
  if negb (truthy (anthropic_apiKey (apiConfig w)))
  then mret (failed "Claude (Anthropic)" "API key not configured")
  else
    try_catch (claudeAttempt w statement)
      (fun error =>
         mret (failed "Claude (Anthropic)" ("Error: " ++ message_of error))).

Definition fetchAIAttempt (w : World) (statement : string) : M VerificationAgent :=
  response ← fetchAI_verify w statement;
  if negb (ok response)
  then throw (ErrorObj ("Fetch.ai API error: " ++ statusText response))
  else
    data ← json response;
    mret {| name := "Fetch.ai";
            verdict_of := or_verdict (d_verdict data);
            confidence := or_number (d_confidence data) (Fin (8 # 10));
            reasoning :=
              Some (or_string (d_reasoning data) "Fetch.ai agent verification");
            citations := None |}.

Definition verifyWithFetchAI (w : World) (statement : string) : M VerificationAgent :=
  if negb (truthy (fetchAI_apiKey (apiConfig w)))
  then mret (failed "Fetch.ai" "API key not configured")
  else
    try_catch (fetchAIAttempt w statement)
      (fun error => mret (failed "Fetch.ai" ("Error: " ++ message_of error))).

Definition geminiAttempt (w : World) (statement : string) : M VerificationAgent :=
  response ← gemini_verify w statement;
  if negb (ok response)
  then throw (ErrorObj ("Gemini API error: " ++ statusText response))
  else
    result ← json response;
    mret {| name := "Gemini (Google)";
            verdict_of := r_verdict result;
            confidence := r_confidence result;
            reasoning := r_reasoning result;
            citations := None |}.

Definition verifyWithGemini (w : World) (statement : string) : M VerificationAgent :=
  if negb (truthy (gemini_apiKey (apiConfig w)))
  then mret (failed "Gemini (Google)" "API key not configured")
  else
    try_catch (geminiAttempt w statement)
      (fun error =>
         mret (failed "Gemini (Google)" ("Error: " ++ message_of error))).

Definition llamaAttempt (w : World) (statement : string) : M VerificationAgent :=
  response ← llama_verify w statement;
  if negb (ok response)
  then throw (ErrorObj ("Lava Gateway Llama API error: " ++ statusText response))
  else
    result ← json response;
    mret {| name := "Llama (Lava Portal)";
            verdict_of := r_verdict result;
            confidence := r_confidence result;
            reasoning := r_reasoning result;
            citations := Some (default [] (r_citations result)) |}.

Definition verifyWithLlama (w : World) (statement : string) : M VerificationAgent :=
  if negb (truthy (lavaGateway_apiKey (apiConfig w)))
  then mret (failed "Llama (Lava Portal)" "Lava Gateway API key not configured")
  else
    try_catch (llamaAttempt w statement)
      (fun error =>
         mret (failed "Llama (Lava Portal)" ("Error: " ++ message_of error))).

(** [data.results && data.results.length > 0] *)
Definition hasResults (data : BrightData) : bool :=
  match results data with
  | Some rs => bool_decide (0 < length rs)
  | None => false
  end.

Definition brightDataAttempt (w : World) (statement : string) : M VerificationAgent :=
  response ← brightData_search w statement;
  if negb (ok response)
  then throw (ErrorObj ("Bright Data API error: " ++ statusText response))
  else
    data ← json response;
    mret {| name := "Bright Data";
            verdict_of := if hasResults data then VTrue else VInconclusive;
            confidence := if hasResults data then Fin (75 # 100) else Fin (3 # 10);
            reasoning :=
              Some (if hasResults data
                    then "Found supporting web sources"
                    else "No conclusive web sources found");
            citations := None |}.

Definition verifyWithBrightData (w : World) (statement : string) : M VerificationAgent :=
  if negb (truthy (brightData_apiKey (apiConfig w)))
  then mret (failed "Bright Data" "API key not configured")
  else
    try_catch (brightDataAttempt w statement)
      (fun error => mret (failed "Bright Data" ("Error: " ++ message_of error))).

(** [agents.filter((a) => a.verdict === v).length] *)
Definition count (v : verdict) (agents : list VerificationAgent) : nat :=
  length (filter (fun a => verdict_of a = v) agents).

(** [Math.max(a, b, c)] on three array lengths. *)
Definition max3 (a b c : nat) : nat := Nat.max (Nat.max a b) c.

Definition consensusThreshold : number := Fin (6 # 10).

(** Calculate consensus locally (fallback when Lava Gateway unavailable) *)
Definition calculateLocalConsensus (agents : list VerificationAgent) : LavaConsensus :=
  let falseCount := count VFalse agents in
  let trueCount := count VTrue agents in
  let inconclusiveCount := count VInconclusive agents in
  let totalVotes := length agents in
  if ge (div falseCount totalVotes) consensusThreshold then
    {| lc_verdict := VFalse; consensusScore := div falseCount totalVotes |}
  else if ge (div trueCount totalVotes) consensusThreshold then
    {| lc_verdict := VTrue; consensusScore := div trueCount totalVotes |}
  else
    {| lc_verdict := VInconclusive;
       consensusScore := div (max3 falseCount trueCount inconclusiveCount) totalVotes |}.

(** Get consensus verdict from Lava Gateway *)
Definition getLavaGatewayConsensus (w : World) (agents : list VerificationAgent)
  : M LavaConsensus :=
  if negb (truthy (lavaGateway_apiKey (apiConfig w)))
  then mret (calculateLocalConsensus agents)
  else
    try_catch
      (response ← lava_consensus w
           (map (fun a => (name a, verdict_of a, confidence a)) agents);
       if negb (ok response)
       then throw (ErrorObj ("Lava Gateway error: " ++ statusText response))
       else
         data ← json response;
         mret {| lc_verdict := fst data; consensusScore := snd data |})
      (fun _ => mret (calculateLocalConsensus agents)).

Record Correction : Type := {
  c_correctInformation : string;
  c_citations : list string;
}.

(** [agents.filter(false).map(reasoning).filter((r) => !!r)] *)
Definition falseReasonings (agents : list VerificationAgent) : list string :=
  omap (fun a => match reasoning a with
                 | Some r => if truthy r then Some r else None
                 | None => None
                 end)
       (filter (fun a => verdict_of a = VFalse) agents).

(** [agents.filter(false).flatMap((a) => a.citations || [])] *)
Definition allCitations (agents : list VerificationAgent) : list string :=
  mbind (M := list) (fun a => default [] (citations a))
    (filter (fun a => verdict_of a = VFalse) agents).

Definition unavailable : string :=
  "The statement has been determined to be false, but specific corrections are unavailable.".

(** The remote synthesis of the correction: [Some text] when the call
    answers with [response.ok], [None] when control reaches the fallback
    (key not configured, response not ok, or an exception, which the
    [catch] only logs). *)
Definition synthesize (w : World) (falseStatement : string)
    (reasonings : list string) : option string :=
  if truthy (anthropic_apiKey (apiConfig w)) then
    match anthropic_correct w falseStatement reasonings with
    | inl _ => None
    | inr response =>
        if ok response then
          match json response with
          | inl _ => None
          | inr text => Some text
          end
        else None
    end
  else None.

(** Generate correct information for false statements *)
Definition generateCorrectInformation (w : World) (falseStatement : string)
    (agents : list VerificationAgent) : M Correction :=
  let falseReasonings := falseReasonings agents in
  let allCitations := allCitations agents in
  match falseReasonings with
  | [] => mret {| c_correctInformation := unavailable; c_citations := [] |}
  | first :: _ =>
      match synthesize w falseStatement falseReasonings with
      | Some text =>
          mret {| c_correctInformation := text; c_citations := allCitations |}
      | None =>
          mret {| c_correctInformation := "Correction: " ++ first;
                  c_citations := allCitations |}
      end
  end.

(** The [TypeError] of a method call on a value that has no such method.
    Its message depends on the value and on the engine and is not
    modelled; no caller reads it. *)
Definition typeError : thrown := ErrorObj "TypeError".

(** [console.log(`... ${v.toUpperCase()} ...`)]: the output is not
    modelled, the evaluation of the template is.  [toUpperCase] exists on
    strings only. *)
Definition logVerdict (v : verdict) : M unit :=
  match v with
  | Str _ => mret ()
  | NotStr => throw typeError
  end.

(** [for (const x of xs) { body }] *)
Fixpoint for_of {A} (xs : list A) (body : A -> M unit) : M unit :=
  match xs with
  | [] => mret ()
  | x :: xs' => _ ← body x; for_of xs' body
  end.

(** Verify a declarative statement across all agents.  The two places
    where the function logs a verdict in upper case are kept: they stand
    outside every [try], so a verdict that is not a string makes the
    function reject. *)
Definition verifyStatement (w : World) (statement : string) : M VerificationResult :=
  let statementId := randomUUID w in
  agents ← Promise_all [
    verifyWithClaude w statement;
    verifyWithFetchAI w statement;
    verifyWithGemini w statement;
    verifyWithBrightData w statement;
    verifyWithLlama w statement ];
  _ ← for_of agents (fun agent => logVerdict (verdict_of agent));
  lavaGatewayConsensus ← getLavaGatewayConsensus w agents;
  _ ← logVerdict (lc_verdict lavaGatewayConsensus);
  let isFalse := bool_decide (lc_verdict lavaGatewayConsensus = VFalse) in
  let consensus :=
    if decide (lc_verdict lavaGatewayConsensus = VTrue) then verified_true
    else if decide (lc_verdict lavaGatewayConsensus = VFalse) then verified_false
    else inconclusive in
  correctionData ←
    (if isFalse
     then c ← generateCorrectInformation w statement agents;
          mret (Some (c_correctInformation c), Some (c_citations c))
     else mret (None, None));
  mret {| statementId := statementId;
          isFalse := isFalse;
          consensus_of := consensus;
          correctInformation := fst correctionData;
          result_citations := snd correctionData;
          agents := agents;
          lavaGatewayConsensus := lavaGatewayConsensus |}.

End Verification.

(** ** The string methods and regular expressions the services use *)

Module JSString.

Definition code (c : ascii) : N := N_of_ascii c.

Definition between (lo hi : N) (c : ascii) : bool :=
  ((lo <=? code c) && (code c <=? hi))%N.

(** White space removed by [trim] (the ASCII part of it). *)
Definition isSpace (c : ascii) : bool :=
  between 9 13 c || (code c =? 32)%N.

(** [\d] *)
Definition isDigit (c : ascii) : bool := between 48 57 c.

(** [\w] *)
Definition isWord (c : ascii) : bool :=
  between 97 122 c || between 65 90 c || isDigit c || (code c =? 95)%N.

Definition lower (c : ascii) : ascii :=
  if between 65 90 c then ascii_of_N (code c + 32) else c.

Fixpoint toLowerCase (s : string) : string :=
  match s with
  | EmptyString => EmptyString
  | String c s' => String (lower c) (toLowerCase s')
  end.

Fixpoint trimStart (s : string) : string :=
  match s with
  | EmptyString => EmptyString
  | String c s' => if isSpace c then trimStart s' else s
  end.

Fixpoint trimEnd (s : string) : string :=
  match s with
  | EmptyString => EmptyString
  | String c s' =>
      match trimEnd s' with
      | EmptyString => if isSpace c then EmptyString else String c EmptyString
      | t => String c t
      end
  end.

Definition trim (s : string) : string := trimEnd (trimStart s).

Definition startsWith (p s : string) : bool := String.prefix p s.

Fixpoint endsWith (p s : string) : bool :=
  String.eqb s p ||
  match s with
  | EmptyString => false
  | String _ s' => endsWith p s'
  end.

Fixpoint includes (p s : string) : bool :=
  String.prefix p s ||
  match s with
  | EmptyString => false
  | String _ s' => includes p s'
  end.

(** Does the literal [p] match at the start of [s]?  With [ci] the match
    ignores case (flag [i]); the literals of the services are lower
    case. *)
Definition matchesAt (ci : bool) (p s : string) : bool :=
  String.prefix p (if ci then toLowerCase s else s).

(** The character after the first [n] characters of [s], if any. *)
Fixpoint charAt (n : nat) (s : string) : option ascii :=
  match s, n with
  | EmptyString, _ => None
  | String c _, O => Some c
  | String _ s', S n' => charAt n' s'
  end.

(** [\b] between [prev] and [next], where [None] is an end of the
    string. *)
Definition boundary (prev next : option ascii) : bool :=
  xorb (from_option isWord false prev) (from_option isWord false next).

(** [/\b(w1|w2|...)\b/.test(s)], scanning [s] with [prev] the character
    before it. *)
Fixpoint testWords (ci : bool) (words : list string) (prev : option ascii)
    (s : string) : bool :=
  match s with
  | EmptyString => false
  | String c s' =>
      (boundary prev (Some c) &&
       existsb (fun w => matchesAt ci w s &&
                         boundary (charAt (String.length w - 1) s)
                                  (charAt (String.length w) s))
               words)
      || testWords ci words (Some c) s'
  end.

(** [/\d/.test(s)] *)
Fixpoint testDigit (s : string) : bool :=
  match s with
  | EmptyString => false
  | String c s' => isDigit c || testDigit s'
  end.

(** [s.split(/[.;]+/)] for the class [p]: the text before the first run
    of separators, and the list of the pieces after each run. *)
Fixpoint splitRuns (p : ascii -> bool) (s : string) : string * list string :=
  match s with
  | EmptyString => (EmptyString, [])
  | String c s' =>
      let '(h, t) := splitRuns p s' in
      if p c then
        match s' with
        | String c' _ => if p c' then (h, t) else (EmptyString, h :: t)
        | EmptyString => (EmptyString, h :: t)
        end
      else (String c h, t)
  end.

Definition splitClass (p : ascii -> bool) (s : string) : list string :=
  let '(h, t) := splitRuns p s in h :: t.

(** [s.split(new RegExp(sep, "gi"))] for a non-empty literal [sep]
    without special characters; [skip] counts the characters of a
    matched separator still to pass over. *)
Fixpoint splitLit (sep : string) (skip : nat) (s : string) : string * list string :=
  match s with
  | EmptyString => (EmptyString, [])
  | String c s' =>
      match skip with
      | S k => splitLit sep k s'
      | O =>
          if matchesAt true sep s then
            let '(h, t) := splitLit sep (String.length sep - 1) s' in
            (EmptyString, h :: t)
          else
            let '(h, t) := splitLit sep 0 s' in
            (String c h, t)
      end
  end.

Definition splitRegExp (sep : string) (s : string) : list string :=
  let '(h, t) := splitLit sep 0 s in h :: t.

End JSString.

Import JSString.

(** ** semantic-service.ts *)

Module Semantic.

Import Verification.

(** [interface SemanticAnalysisResult]; the [segments] array, which no
    caller reads, is left out. *)
Record SemanticAnalysisResult : Type := {
  originalText : string;
  improvedText : string;
  sa_confidence : number;
}.

(** The fields read from the Chroma AI reply and from the JSON object in
    the Groq reply. *)
Record AnalysisData : Type := {
  improved_text : option string;
  a_confidence : option number;
}.

(** The JSON object in the reply of the remote classifier.  Of [type]
    the service reads only whether it is the string ["declarative"]; a
    value that is no string compares unequal, as any other string
    does. *)
Record ClassifyData : Type := {
  type : string;
  k_confidence : option number;
  k_reasoning : option string;
}.

Record Classification : Type := {
  isDeclarative : bool;
  cl_confidence : number;
  cl_reasoning : string;
}.

(** The remote collaborators of the semantic service: each maps the
    request (text and context) to what the call answers. *)
Record Remote : Type := {
  config : ApiConfig;
  chroma_semantic_analysis :
    string -> option (list string) -> M (response AnalysisData);
  groq_chat_completions :
    string -> option (list string) -> M (response AnalysisData);
  anthropic_classify :
    string -> option (list string) -> M (response ClassifyData);
}.

Definition analyzeWithChromaAI (w : Remote) (transcription : string)
    (context : option (list string)) : M SemanticAnalysisResult :=
  response ← chroma_semantic_analysis w transcription context;
  if negb (ok response)
  then throw (ErrorObj ("Chroma AI API error: " ++ statusText response))
  else
    data ← json response;
    mret {| originalText := transcription;
            improvedText := or_string (improved_text data) transcription;
            sa_confidence := or_number (a_confidence data) (Fin (8 # 10)) |}.

Definition analyzeWithGroq (w : Remote) (transcription : string)
    (context : option (list string)) : M SemanticAnalysisResult :=
  response ← groq_chat_completions w transcription context;
  if negb (ok response)
  then throw (ErrorObj ("Groq API error: " ++ statusText response))
  else
    result ← json response;
    mret {| originalText := transcription;
            improvedText := or_string (improved_text result) transcription;
            sa_confidence := or_number (a_confidence result) (Fin (8 # 10)) |}.

(** Fallback semantic analysis without AI *)
Definition fallbackAnalysis (transcription : string) : SemanticAnalysisResult :=
  {| originalText := transcription;
     improvedText := transcription;
     sa_confidence := Fin (5 # 10) |}.

(** Analyze transcription with semantic understanding: Chroma AI, then
    Groq, then the basic parsing; an exception of a remote analysis is
    logged and the next one is tried. *)
Definition analyzeTranscription (w : Remote) (transcription : string)
    (context : option (list string)) : M SemanticAnalysisResult :=
  let basic := mret (fallbackAnalysis transcription) in
  let groq :=
    if truthy (groq_apiKey (config w))
    then try_catch (analyzeWithGroq w transcription context) (fun _ => basic)
    else basic in
  if truthy (chromaAI_apiKey (config w))
  then try_catch (analyzeWithChromaAI w transcription context) (fun _ => groq)
  else groq.

(** Use Claude (Anthropic) for advanced statement classification *)
Definition classifyStatementWithClaude (w : Remote) (text : string)
    (context : option (list string)) : M Classification :=
  if negb (truthy (anthropic_apiKey (config w)))
  then mret {| isDeclarative := true;
               cl_confidence := Fin (5 # 10);
               cl_reasoning := "API key not configured, using fallback" |}
  else
    try_catch
      (response ← anthropic_classify w text context;
       if negb (ok response)
       then throw (ErrorObj ("Claude API error: " ++ statusText response))
       else
         result ← json response;
         mret {| isDeclarative := String.eqb (type result) "declarative";
                 cl_confidence := or_number (k_confidence result) (Fin (8 # 10));
                 cl_reasoning := or_string (k_reasoning result) "" |})
      (fun _ =>
         mret {| isDeclarative := true;
                 cl_confidence := Fin (5 # 10);
                 cl_reasoning := "Classification failed, defaulting to declarative" |}).

Definition conjunctions : list string :=
  [ " and "; " but "; " or "; " so "; " because "; " however ";
    " therefore "; " moreover "; " furthermore "; " additionally ";
    " also "; ", and "; ", but "; ", so "; "; " ].

Definition verbs : list string :=
  [ "is"; "are"; "was"; "were"; "has"; "have"; "had"; "will"; "would";
    "can"; "could"; "does"; "did" ].

(** [/\b(is|are|...|did)\b/i.test(part)] *)
Definition hasVerb (part : string) : bool := testWords true verbs None part.

(** The filter of [validParts].  [String.length] is the [length] of the
    JavaScript string when its characters are ASCII. *)
Definition validPart (part : string) : bool :=
  hasVerb part && bool_decide (5 < String.length (trim part)).

(** The loop over the conjunctions for one trimmed sentence: the
    statements pushed by the first conjunction that splits it into more
    than one valid part, if there is one. *)
Fixpoint findSplit (conjs : list string) (remainingText : string)
  : option (list string) :=
  match conjs with
  | [] => None
  | cj :: conjs' =>
      if includes cj (toLowerCase remainingText) then
        let parts := splitRegExp cj remainingText in
        let validParts := List.filter validPart parts in
        if bool_decide (1 < length validParts)
        then Some (map trim validParts)
        else findSplit conjs' remainingText
      else findSplit conjs' remainingText
  end.

(** The body of the loop over the sentences. *)
Definition splitSentence (sentence : string) : list string :=
  let remainingText := trim sentence in
  match findSplit conjunctions remainingText with
  | Some pushed => pushed
  | None => if bool_decide (0 < String.length remainingText)
            then [remainingText] else []
  end.

Definition isBoundary (c : ascii) : bool :=
  (code c =? 46)%N || (code c =? 59)%N.

(** [currentText.split(/[.;]+/).filter((s) => s.trim())] *)
Definition sentences (currentText : string) : list string :=
  List.filter (fun s => truthy (trim s)) (splitClass isBoundary currentText).

(** The statements of an (improved) text. *)
Definition segment (currentText : string) : list string :=
  let statements := flat_map splitSentence (sentences currentText) in
  if bool_decide (0 < length statements) then statements else [currentText].

(** Split compound statements into individual statements *)
Definition splitStatements (w : Remote) (text : string)
    (context : option (list string)) : M (list string) :=
  analysis ← analyzeTranscription w text context;
  mret (segment (improvedText analysis)).

End Semantic.

(** ** voice-service.ts *)

Module Voice.

Import Verification Semantic.

Inductive StatementType : Type := declarative | opinion | question | other.

(** [interface TranscriptionResult], without the time stamp. *)
Record TranscriptionResult : Type := {
  text : string;
  speaker_id : string;
  statementType : StatementType;
  tr_confidence : number;
}.

(** Classify statement type with the local pattern rules. *)
Definition classifyStatementType (text : string) : StatementType :=
  let normalized := toLowerCase (trim text) in
  if endsWith "?" normalized
     || startsWith "how " normalized
     || startsWith "what " normalized
     || startsWith "when " normalized
     || startsWith "where " normalized
     || startsWith "who " normalized
     || startsWith "why " normalized
     || startsWith "could you " normalized
     || startsWith "would you " normalized
     || startsWith "can you " normalized
  then question
  else if includes "i think" normalized
     || includes "i believe" normalized
     || includes "in my opinion" normalized
     || includes "i feel" normalized
     || includes "i prefer" normalized
     || startsWith "i like" normalized
     || startsWith "i dislike" normalized
     || startsWith "i love" normalized
     || startsWith "i hate" normalized
  then opinion
  else
    let hasFactualStructure :=
      includes " is " normalized
      || includes " are " normalized
      || includes " was " normalized
      || includes " were " normalized
      || includes " has " normalized
      || includes " have " normalized
      || includes " will " normalized
      || includes " can " normalized
      || includes " does " normalized
      || includes " did " normalized
      || testWords false ["the"; "it"; "this"; "that"; "they"; "there"] None normalized
      || testDigit normalized in
    if hasFactualStructure then declarative else other.

(** [history.slice(-n)] *)
Definition lastN {A} (n : nat) (l : list A) : list A :=
  drop (length l - n) l.

(** [transcriptionHistory.push(statement)], keeping only the last 10. *)
Definition remember (history : list string) (statement : string) : list string :=
  let history' := history ++ [statement] in
  if bool_decide (10 < length history') then tail history' else history'.

(** The body of the loop of [handleTranscription] for one statement: the
    result handed to the transcription callback. *)
Definition classifyOne (w : Remote) (history : list string)
    (semanticResult : SemanticAnalysisResult) (speakerId statement : string)
  : M TranscriptionResult :=
  classification ← classifyStatementWithClaude w statement (Some (lastN 5 history));
  let statementType :=
    if isDeclarative classification
    then declarative
    else classifyStatementType statement in
  mret {| text := statement;
          speaker_id := speakerId;
          statementType := statementType;
          tr_confidence :=
            JS.max (sa_confidence semanticResult) (cl_confidence classification) |}.

Fixpoint classifyAll (w : Remote) (history : list string)
    (semanticResult : SemanticAnalysisResult) (speakerId : string)
    (statements : list string) : M (list TranscriptionResult * list string) :=
  match statements with
  | [] => mret ([], history)
  | statement :: statements' =>
      result ← classifyOne w history semanticResult speakerId statement;
      rest ← classifyAll w (remember history statement) semanticResult
               speakerId statements';
      mret (result :: fst rest, snd rest)
  end.

(** Process transcription and classify statement type: the results sent
    to the callback, in order, and the new transcription history (the
    storing of each statement in the context of the semantic service,
    which no result depends on, is left out). *)
Definition handleTranscription (w : Remote) (history : list string)
    (text speakerId : string) : M (list TranscriptionResult * list string) :=
  semanticResult ← analyzeTranscription w text (Some (lastN 5 history));
  statements ← splitStatements w (improvedText semanticResult)
                 (Some (lastN 5 history));
  classifyAll w history semanticResult speakerId statements.

End Voice.

(** ** The index route: the statement queue and the interjection *)

Module App.

Import Verification.

(** [enum SpeakerQueueProcessingStatus] *)
Inductive SpeakerQueueProcessingStatus : Type :=
| Pending
| Processing
| Processed
| Failed.

#[export] Instance status_eq_dec : EqDecision SpeakerQueueProcessingStatus.
Proof. solve_decision. Defined.

Record SpeakerQueueModel : Type := {
  id : string;
  user_session_id : string;
  speaker_id : string;
  statement_text : string;
  statement_timestamp : string;
  processing_status : SpeakerQueueProcessingStatus;
}.

(** [{ ...item, processing_status: status }] *)
Definition with_status (item : SpeakerQueueModel)
    (status : SpeakerQueueProcessingStatus) : SpeakerQueueModel :=
  {| id := id item;
     user_session_id := user_session_id item;
     speaker_id := speaker_id item;
     statement_text := statement_text item;
     statement_timestamp := statement_timestamp item;
     processing_status := status |}.

(** The values of the React state [isCurrentlySpeaking] and
    [lastAudioTime] of the render that created the [processStatement]
    callback: constants of its closure. *)
Record Captured : Type := {
  isCurrentlySpeaking : bool;
  lastAudioTime : Z;
}.

(** The condition tested by the interval callback at time [now]. *)
Definition checkBreak (cap : Captured) (now : Z) : bool :=
  negb (isCurrentlySpeaking cap) && (1000 <? now - lastAudioTime cap)%Z.

(** The interval callback runs every 100 ms after [t0]; [k] is the
    number of the next run and [runs] how many are left before the
    10000 ms time-out resolves the promise. *)
Fixpoint poll (cap : Captured) (t0 : Z) (k : Z) (runs : nat) : Z :=
  match runs with
  | O => (t0 + 10000)%Z
  | S runs' =>
      let now := (t0 + 100 * k)%Z in
      if checkBreak cap now then now else poll cap t0 (k + 1)%Z runs'
  end.

(** The time at which the promise of [waitForBreak], created at [t0],
    resolves (timers taken as exact). *)
Definition waitForBreak (cap : Captured) (t0 : Z) : Z := poll cap t0 1 99.

Definition correctionMessage (correctInformation : string) : string :=
  "Actually, that's not quite right. " ++ correctInformation.

(** A started background task: [VoiceService.speak(message)] will be
    called at [speakAt]. *)
Record Interjection : Type := {
  startedAt : Z;
  speakAt : Z;
  message : string;
}.

(** The state the callback reads and writes: the React state of the
    component, the record store behind [SpeakerQueueORM], and the
    background tasks started so far. *)
Record AppState : Type := {
  speakerQueue : list SpeakerQueueModel;
  processingStatement : option SpeakerQueueModel;
  verificationResults : list VerificationResult;
  store : gmap string SpeakerQueueModel;
  interjections : list Interjection;
}.

Definition setSpeakerQueue (f : list SpeakerQueueModel -> list SpeakerQueueModel)
    (s : AppState) : AppState :=
  {| speakerQueue := f (speakerQueue s);
     processingStatement := processingStatement s;
     verificationResults := verificationResults s;
     store := store s;
     interjections := interjections s |}.

Definition setProcessingStatement (p : option SpeakerQueueModel)
    (s : AppState) : AppState :=
  {| speakerQueue := speakerQueue s;
     processingStatement := p;
     verificationResults := verificationResults s;
     store := store s;
     interjections := interjections s |}.

Definition setVerificationResults
    (f : list VerificationResult -> list VerificationResult)
    (s : AppState) : AppState :=
  {| speakerQueue := speakerQueue s;
     processingStatement := processingStatement s;
     verificationResults := f (verificationResults s);
     store := store s;
     interjections := interjections s |}.

Definition putStore (key : string) (item : SpeakerQueueModel)
    (s : AppState) : AppState :=
  {| speakerQueue := speakerQueue s;
     processingStatement := processingStatement s;
     verificationResults := verificationResults s;
     store := <[key := item]> (store s);
     interjections := interjections s |}.

Definition spawn (task : Interjection) (s : AppState) : AppState :=
  {| speakerQueue := speakerQueue s;
     processingStatement := processingStatement s;
     verificationResults := verificationResults s;
     store := store s;
     interjections := interjections s ++ [task] |}.

(** [prev.map((item) => (item.id === key ? newItem : item))] *)
Definition replaceById (key : string) (newItem : SpeakerQueueModel)
    (prev : list SpeakerQueueModel) : list SpeakerQueueModel :=
  map (fun item => if String.eqb (id item) key then newItem else item) prev.

(** A run of the callback: the current state and the states it went
    through before, latest first. *)
Record Run : Type := {
  current : AppState;
  earlier : list AppState;
}.

(** An asynchronous computation over the application state; a throw
    keeps the state reached so far. *)
Definition Prog (A : Type) : Type := Run -> M A * Run.

#[export] Instance Prog_ret : MRet Prog := fun A x r => (inr x, r).
#[export] Instance Prog_bind : MBind Prog := fun A B f m r =>
  match m r with
  | (inl e, r') => (inl e, r')
  | (inr x, r') => f x r'
  end.

(** One state update. *)
Definition update (f : AppState -> AppState) : Prog unit :=
  fun r => (inr tt, {| current := f (current r);
                       earlier := current r :: earlier r |}).

(** [await] of a promise that does not touch the application state. *)
Definition await {A} (m : M A) : Prog A := fun r => (m, r).

Definition try_catch_prog {A} (body : Prog A) (handler : thrown -> Prog A)
  : Prog A :=
  fun r =>
    match body r with
    | (inl e, r') => handler e r'
    | (inr x, r') => (inr x, r')
    end.

(** What the callback is given by its surroundings: the record store's
    answer to an upsert of [item] (an exception, or success), the
    verification service, the closure's constants, and the clock reading
    when the background task starts. *)
Record Surroundings : Type := {
  upsertThrows : SpeakerQueueModel -> option thrown;
  verify : string -> M VerificationResult;
  captured : Captured;
  now : Z;
}.

(** [await speakerQueueORM.setSpeakerQueueById(key, item)] *)
Definition setSpeakerQueueById (env : Surroundings) (key : string)
    (item : SpeakerQueueModel) : Prog unit :=
  match upsertThrows env item with
  | Some e => await (throw e)
  | None => update (putStore key item)
  end.

(** The fire-and-forget task of the interjection. *)
Definition interjection (env : Surroundings) (correctInformation : string)
  : Interjection :=
  {| startedAt := now env;
     speakAt := waitForBreak (captured env) (now env);
     message := correctionMessage correctInformation |}.

Definition processStatement (env : Surroundings)
    (queueItem : SpeakerQueueModel) (statementText : string) : Prog unit :=
  let updatedItem := with_status queueItem Processing in
  try_catch_prog
    (setSpeakerQueueById env (id queueItem) updatedItem ;;
     update (setSpeakerQueue (replaceById (id queueItem) updatedItem)) ;;
     update (setProcessingStatement (Some updatedItem)) ;;
     verificationResult ← await (verify env statementText);
     update (setVerificationResults (fun prev => prev ++ [verificationResult])) ;;
     let processedItem := with_status updatedItem Processed in
     setSpeakerQueueById env (id queueItem) processedItem ;;
     update (setSpeakerQueue (replaceById (id queueItem) processedItem)) ;;
     update (setProcessingStatement None) ;;
     match correctInformation verificationResult with
     | Some info =>
         if isFalse verificationResult && truthy info
         then update (spawn (interjection env info))
         else mret tt
     | None => mret tt
     end)
    (fun error =>
       let failedItem := with_status queueItem Failed in
       setSpeakerQueueById env (id queueItem) failedItem ;;
       update (setSpeakerQueue (replaceById (id queueItem) failedItem)) ;;
       update (setProcessingStatement None)).

(** The states of a run in the order they were reached, and its
    outcome, from the start state [s]. *)
Definition execute {A} (p : Prog A) (s : AppState) : M A * list AppState :=
  let '(outcome, r) := p {| current := s; earlier := [] |} in
  (outcome, reverse (current r :: earlier r)).

(** The status the in-memory view shows for the entry [key]. *)
Definition viewStatus (key : string) (s : AppState)
  : option SpeakerQueueProcessingStatus :=
  processing_status <$>
    List.find (fun item => String.eqb (id item) key) (speakerQueue s).

(** The status the record store holds for the entry [key]. *)
Definition storedStatus (key : string) (s : AppState)
  : option SpeakerQueueProcessingStatus :=
  processing_status <$> (store s !! key).

End App.

(** ** The specification's wording, and the inputs of the examples *)

Module Spec.

Import Verification Semantic Voice App.

(** *** Consensus *)

(** [count(v)/N] over the [N] agents. *)
Definition fraction (v : verdict) (agents : list VerificationAgent) : number :=
  div (count v agents) (length agents).

(** The local rule in the words of the specification. *)
Definition localRule (agents : list VerificationAgent) : LavaConsensus :=
  let f := fraction VFalse agents in
  let t := fraction VTrue agents in
  if ge f (Fin (6 # 10)) then {| lc_verdict := VFalse; consensusScore := f |}
  else if ge t (Fin (6 # 10)) then {| lc_verdict := VTrue; consensusScore := t |}
  else {| lc_verdict := VInconclusive;
          consensusScore :=
            JS.max (JS.max f t) (fraction VInconclusive agents) |}.

(** An agent entry with the verdict [v]. *)
Definition vote (v : verdict) : VerificationAgent :=
  {| name := "agent"; verdict_of := v; confidence := Fin 1;
     reasoning := None; citations := None |}.

(** *** The roster *)


(** One dispatched call: the key whose absence skips the call, the
    reasoning of the entry of a skipped call, and the guarded body of the
    call. *)
Record Call : Type := {
  neededKey : string;
  skipReason : string;
  body : M VerificationAgent;
}.


(** The entry of an agent call that gave no verdict: Inconclusive with
    confidence 0, the reason as its reasoning, no citations. *)
Definition noVerdict (agent why : string) (a : VerificationAgent) : Prop :=
  name a = agent /\ verdict_of a = VInconclusive /\ confidence a = Fin 0
  /\ reasoning a = Some why /\ citations a = None.

(** What a guarded agent call settles to: the entry carries the agent's
    name; without a key, or when the guarded body throws, it is an
    Inconclusive verdict of confidence 0 whose reasoning is the reason
    of the failure (the text for a missing key; ["Error: "] and the
    message of the exception, or ["Error: Unknown error"] when what was
    thrown is no [Error]); otherwise it is what the body returns. *)
Definition settled (call : Call) (agent : string) (a : VerificationAgent)
  : Prop :=
  name a = agent
  /\ (truthy (neededKey call) = false -> noVerdict agent (skipReason call) a)
  /\ (forall message, truthy (neededKey call) = true ->
      body call = inl (ErrorObj message) ->
      noVerdict agent ("Error: " ++ message) a)
  /\ (truthy (neededKey call) = true -> body call = inl NonError ->
      noVerdict agent "Error: Unknown error" a)
  /\ (forall a', truthy (neededKey call) = true -> body call = inr a' -> a = a').

(** Has the verdict the method [toUpperCase]? *)
Definition isString (v : verdict) : bool :=
  match v with
  | Str _ => true
  | NotStr => false
  end.


(** *** Corrections *)

Definition votedFalse (agents : list VerificationAgent) : list VerificationAgent :=
  filter (fun a => verdict_of a = VFalse) agents.

Definition citationsOf (a : VerificationAgent) : list string :=
  default [] (citations a).

(** Removal of duplicates that keeps each first occurrence; [seen] are
    the strings met so far. *)
Fixpoint dedupFrom (seen : list string) (l : list string) : list string :=
  match l with
  | [] => []
  | x :: l' =>
      if bool_decide (x ∈ seen) then dedupFrom seen l'
      else x :: dedupFrom (x :: seen) l'
  end.

(** The deduplicated union of the False-voting agents' citation lists,
    in order of first occurrence. *)
Definition deduplicatedUnion (agents : list VerificationAgent) : list string :=
  dedupFrom [] (concat (map citationsOf (votedFalse agents))).

(** The citation claim of the specification. *)
Definition citationsClaim : Prop :=
  forall (w : World) (statement : string) (r : VerificationResult),
    verifyStatement w statement = inr r ->
    isFalse r = true ->
    result_citations r = Some (deduplicatedUnion (agents r)).




Definition reply {B} (body : B) : M (response B) :=
  inr (Response true "OK" (inr body)).

Definition refusal {B} (status : string) : M (response B) :=
  inr (Response false status (inl (ErrorObj "Unexpected end of JSON input"))).

(** A world in which four agents vote False: Claude without a reasoning
    text, Llama with the same source cited twice; Bright Data is not
    configured, and the gateway's consensus and the synthesis of the
    correction answer with an HTTP error. *)
Definition fourFalse : World :=
  {| apiConfig :=
       {| anthropic_apiKey := "sk-ant"; fetchAI_apiKey := "fa";
          gemini_apiKey := "gm"; brightData_apiKey := "";
          lavaGateway_apiKey := "lv"; chromaAI_apiKey := "";
          groq_apiKey := "" |};
     randomUUID := "0b3c";
     anthropic_verify := fun _ =>
       reply {| r_verdict := VFalse; r_confidence := Fin (9 # 10);
                r_reasoning := Some ""; r_citations := None |};
     fetchAI_verify := fun _ =>
       reply {| d_verdict := Some VFalse; d_confidence := None;
                d_reasoning := None |};
     gemini_verify := fun _ =>
       reply {| r_verdict := VFalse; r_confidence := Fin (8 # 10);
                r_reasoning := Some "The Earth is an oblate spheroid.";
                r_citations := None |};
     brightData_search := fun _ => refusal "Unauthorized";
     llama_verify := fun _ =>
       reply {| r_verdict := VFalse; r_confidence := Fin (7 # 10);
                r_reasoning := Some "Measurements show a round Earth.";
                r_citations :=
                  Some ["https://example.org/earth"; "https://example.org/earth"] |};
     lava_consensus := fun _ => refusal "Bad Gateway";
     anthropic_correct := fun _ _ => refusal "Service Unavailable" |}.



(** *** Classification *)

(** The remote classifier is not configured, or its call fails: the
    request throws, the response is not ok, or its body cannot be read. *)
Definition classifierUnavailable (w : Remote) (text : string)
    (context : option (list string)) : Prop :=
  truthy (anthropic_apiKey (config w)) = false \/
  match anthropic_classify w text context with
  | inl _ => True
  | inr response =>
      ok response = false \/ exists e, json response = inl e
  end.

(** The remote classifier is configured and its call succeeds with the
    parsed reply [data]. *)
Definition classifierAnswers (w : Remote) (text : string)
    (context : option (list string)) (data : ClassifyData) : Prop :=
  truthy (anthropic_apiKey (config w)) = true /\
  exists response,
    anthropic_classify w text context = inr response
    /\ ok response = true /\ json response = inr data.

(** The classification claim of the specification. *)
Definition classificationClaim : Prop :=
  forall (w : Remote) (history : list string)
         (semanticResult : SemanticAnalysisResult)
         (speakerId statement : string) (r : TranscriptionResult),
    classifyOne w history semanticResult speakerId statement = inr r ->
    (classifyStatementType statement = question -> statementType r = question)
    /\ (classifierUnavailable w statement (Some (lastN 5 history)) ->
        statementType r = classifyStatementType statement).

Definition noKeys : ApiConfig :=
  {| anthropic_apiKey := ""; fetchAI_apiKey := ""; gemini_apiKey := "";
     brightData_apiKey := ""; lavaGateway_apiKey := "";
     chromaAI_apiKey := ""; groq_apiKey := "" |}.

(** No remote service is configured. *)
Definition offline : Remote :=
  {| config := noKeys;
     chroma_semantic_analysis := fun _ _ => throw (ErrorObj "Failed to fetch");
     groq_chat_completions := fun _ _ => throw (ErrorObj "Failed to fetch");
     anthropic_classify := fun _ _ => throw (ErrorObj "Failed to fetch") |}.

(** The remote classifier answers every request with the given type. *)
Definition answering (kind : string) : Remote :=
  {| config :=
       {| anthropic_apiKey := "sk-ant"; fetchAI_apiKey := "";
          gemini_apiKey := ""; brightData_apiKey := "";
          lavaGateway_apiKey := ""; chromaAI_apiKey := "";
          groq_apiKey := "" |};
     chroma_semantic_analysis := fun _ _ => throw (ErrorObj "Failed to fetch");
     groq_chat_completions := fun _ _ => throw (ErrorObj "Failed to fetch");
     anthropic_classify := fun _ _ =>
       reply {| type := kind; k_confidence := Some (Fin (9 # 10));
                k_reasoning := Some "model answer" |} |}.


(** *** Finite verbs *)

(** The last character of [s], if any. *)
Fixpoint lastChar (s : string) : option ascii :=
  match s with
  | EmptyString => None
  | String c s' => match lastChar s' with Some d => Some d | None => Some c end
  end.




Fixpoint allChars (p : ascii -> bool) (s : string) : bool :=
  match s with
  | EmptyString => true
  | String c s' => p c && allChars p s'
  end.





(** *** The statement queue *)

(** The transitions the specification allows. *)
Definition claimedStep (a b : SpeakerQueueProcessingStatus) : bool :=
  match a, b with
  | Pending, Processing | Processing, Processed | Processing, Failed => true
  | _, _ => false
  end.

(** The transitions of the callback. *)
Definition observedStep (a b : SpeakerQueueProcessingStatus) : bool :=
  claimedStep a b ||
  match a, b with
  | Pending, Failed => true
  | _, _ => false
  end.

Definition terminal (a : SpeakerQueueProcessingStatus) : bool :=
  match a with
  | Processed | Failed => true
  | Pending | Processing => false
  end.

(** The pairs of neighbours of a list. *)
Fixpoint neighbours {A} (l : list A) : list (A * A) :=
  match l with
  | a :: (b :: _) as l' => (a, b) :: neighbours l'
  | _ => []
  end.

(** The statuses the view shows for [key] along a run. *)
Definition statuses (key : string) (states : list AppState)
  : list (option SpeakerQueueProcessingStatus) :=
  map (viewStatus key) states.

(** Every change of status along the list is allowed by [step]. *)
Definition follows (step : SpeakerQueueProcessingStatus ->
                           SpeakerQueueProcessingStatus -> bool)
    (l : list (option SpeakerQueueProcessingStatus)) : Prop :=
  forall a b, (a, b) ∈ neighbours l ->
    a = b \/ exists x y, a = Some x /\ b = Some y /\ step x y = true.

(** The monotonicity claim of the specification: only the three
    transitions occur, nothing follows a terminal status, and Processed
    is shown only when the VerificationResult exists. *)
Definition monotoneClaim : Prop :=
  forall (env : Surroundings) (queueItem : SpeakerQueueModel)
         (statementText : string) (s : AppState),
    processing_status queueItem = Pending ->
    viewStatus (id queueItem) s = Some Pending ->
    let states :=
      snd (execute (processStatement env queueItem statementText) s) in
    follows claimedStep (statuses (id queueItem) states)
    /\ (forall a b,
          (Some a, Some b) ∈ neighbours (statuses (id queueItem) states) ->
          terminal a = true -> b = a)
    /\ (forall state,
          state ∈ states ->
          viewStatus (id queueItem) state = Some Processed ->
          exists result,
            verify env statementText = inr result
            /\ result ∈ verificationResults state).

(** The status the view shows for [key] when the run has ended. *)
Definition finalStatus (env : Surroundings) (queueItem : SpeakerQueueModel)
    (statementText : string) (s : AppState)
  : option SpeakerQueueProcessingStatus :=
  mjoin (last (statuses (id queueItem)
           (snd (execute (processStatement env queueItem statementText) s)))).

(** The persistence claim of the specification, in its last and weakest
    form: two runs that differ only in the answers of the record store do
    not end in different terminal states. *)
Definition persistenceClaim : Prop :=
  forall (env env' : Surroundings) (queueItem : SpeakerQueueModel)
         (statementText : string) (s : AppState)
         (a b : SpeakerQueueProcessingStatus),
    verify env = verify env' ->
    processing_status queueItem = Pending ->
    viewStatus (id queueItem) s = Some Pending ->
    finalStatus env queueItem statementText s = Some a ->
    finalStatus env' queueItem statementText s = Some b ->
    terminal a = true -> terminal b = true ->
    a = b.

Definition entry : SpeakerQueueModel :=
  {| id := "q1"; user_session_id := "s1"; speaker_id := "user-1";
     statement_text := "The Earth is flat";
     statement_timestamp := "2025-01-01T00:00:00.000Z";
     processing_status := Pending |}.

Definition fresh : AppState :=
  {| speakerQueue := [entry];
     processingStatement := None;
     verificationResults := [];
     store := {[ "q1" := entry ]};
     interjections := [] |}.

Definition quiet : Captured :=
  {| isCurrentlySpeaking := false; lastAudioTime := 0 |}.

(** Surroundings in which the fact-check of [fourFalse] runs, the
    record store throws on the upserts selected by [broken], and the
    closure was created in silence. *)
Definition surroundings (broken : SpeakerQueueProcessingStatus -> bool)
  : Surroundings :=
  {| upsertThrows := fun item =>
       if broken (processing_status item)
       then Some (ErrorObj "Failed to fetch") else None;
     verify := verifyStatement fourFalse;
     captured := quiet;
     now := 5000 |}.

(** *** The interjection *)

(** The speaking signal [live] has been false throughout the 1000 ms up
    to [t]. *)
Definition silentFor (live : Z -> bool) (t : Z) : Prop :=
  forall u, (t - 1000 <= u <= t)%Z -> live u = false.

(** A speaker who is silent until 5050 and talks from then on. *)
Definition resumes (u : Z) : bool := (5050 <=? u)%Z.

End Spec.

(** * The rest of the services *)

(** ** api-config.ts *)

Module Config.

Import Verification.

(** [keyof ApiConfig] *)
Inductive Service : Type :=
| vapi | anthropic | gemini | fetchAI | brightData | lavaGateway
| fishAudio | elevenLabs | groq | chromaAI | composio | janitor.

#[export] Instance Service_eq_dec : EqDecision Service.
Proof. solve_decision. Defined.

(** An entry of [apiConfig] seen as [Record<string, string | undefined>]:
    the two fields [isApiConfigured] looks at. *)
Record Entry : Type := {
  apiKey : option string;
  baseUrl : option string;
}.

Definition Settings : Type := Service -> Entry.

(** Helper to check if an API is configured *)
Definition isApiConfigured (config : Settings) (service : Service) : bool :=
  match apiKey (config service) with
  | Some key => bool_decide (0 < String.length key)
  | None =>
      match baseUrl (config service) with
      | Some url => bool_decide (0 < String.length url)
      | None => false
      end
  end.

Definition required : list Service :=
  [vapi; anthropic; gemini; fetchAI; brightData; lavaGateway; fishAudio].

(** Get missing API configurations *)
Definition getMissingConfigs (config : Settings) : list Service :=
  List.filter (fun service => negb (isApiConfigured config service)) required.

(** The settings follow [interface ApiConfig]: every service has an
    [apiKey] string. *)
Definition declared (config : Settings) : Prop :=
  forall service, is_Some (apiKey (config service)).

Definition keyOf (config : Settings) (service : Service) : string :=
  default "" (apiKey (config service)).

(** The keys of the settings that the verification and semantic services
    read. *)
Definition keysOf (config : Settings) : ApiConfig :=
  {| anthropic_apiKey := keyOf config anthropic;
     fetchAI_apiKey := keyOf config fetchAI;
     gemini_apiKey := keyOf config gemini;
     brightData_apiKey := keyOf config brightData;
     lavaGateway_apiKey := keyOf config lavaGateway;
     chromaAI_apiKey := keyOf config chromaAI;
     groq_apiKey := keyOf config groq |}.

End Config.

(** ** semantic-service.ts: the transcription context *)

Module Context.

Import Verification Voice.

Record Metadata : Type := {
  timestamp : string;
  speaker_id : string;
  session_id : string;
}.

(** The remote collaborators of the context store: the store request,
    whose response is not looked at, and the query request with the
    [results] field of its body. *)
Record Remote : Type := {
  config : ApiConfig;
  chroma_context_store : string -> Metadata -> M unit;
  chroma_context_query : string -> nat -> M (response (option (list string)));
}.

(** [array.slice(-n)]: the last [n] elements; [slice(-0)] is [slice(0)],
    the whole array. *)
Definition sliceLast {A} (n : nat) (l : list A) : list A :=
  match n with
  | O => l
  | S _ => drop (length l - n) l
  end.

(** Store transcription in local context for analysis: the new value of
    [transcriptionContext]. *)
Definition storeTranscription (w : Remote) (transcriptionContext : list string)
    (transcription : string) (metadata : Metadata) : M (list string) :=
  let pushed := transcriptionContext ++ [transcription] in
  let kept :=
    if bool_decide (20 < length pushed) then sliceLast 20 pushed else pushed in
  (if truthy (chromaAI_apiKey (config w))
   then try_catch (chroma_context_store w transcription metadata)
          (fun _ => mret tt)
   else mret tt) ;;
  mret kept.

(** Query similar transcriptions for context using Chroma AI *)
Definition querySimilarTranscriptions (w : Remote)
    (transcriptionContext : list string) (query : string) (limit : nat)
  : M (list string) :=
  if negb (truthy (chromaAI_apiKey (config w)))
  then mret (sliceLast limit transcriptionContext)
  else
    try_catch
      (response ← chroma_context_query w query limit;
       if negb (ok response)
       then throw (ErrorObj ("Chroma AI query error: " ++ statusText response))
       else
         data ← json response;
         mret (default (sliceLast limit transcriptionContext) data))
      (fun _ => mret (sliceLast limit transcriptionContext)).

(** The context after storing the transcriptions one after the other. *)
Fixpoint storeAll (w : Remote) (transcriptionContext : list string)
    (stored : list (string * Metadata)) : M (list string) :=
  match stored with
  | [] => mret transcriptionContext
  | (transcription, metadata) :: stored' =>
      context' ← storeTranscription w transcriptionContext transcription metadata;
      storeAll w context' stored'
  end.

(** The [segments] of the fallback analysis: the words between runs of
    white space with the positions computed for them. *)
Record SemanticSegment : Type := {
  text : string;
  startIndex : nat;
  endIndex : nat;
}.

(** The [map] over the words, with [currentIndex] threaded through. *)
Fixpoint segmentsFrom (currentIndex : nat) (words : list string)
  : list SemanticSegment :=
  match words with
  | [] => []
  | word :: words' =>
      let startIndex := currentIndex in
      let endIndex := startIndex + String.length word in
      {| text := word; startIndex := startIndex; endIndex := endIndex |}
      :: segmentsFrom (endIndex + 1) words'
  end.

(** [transcription.split(/\s+/)] and the segments of [fallbackAnalysis]
    (each with [semanticType: "clause"] and [confidence: 0.5]). *)
Definition fallbackSegments (transcription : string) : list SemanticSegment :=
  segmentsFrom 0 (splitClass isSpace transcription).

End Context.

(** ** voice-service.ts: speech output and the Whisper transcription *)

Module Speech.

Import Verification.

Inductive Provider : Type := fishaudio | elevenlabs.

Inductive Engine : Type :=
| FishAudio
| ElevenLabs (voiceId : string).

(** What the speech functions do that can be heard or seen from outside:
    a request to a remote engine, the playing of an audio blob, an
    utterance of the browser's speech synthesis. *)
Inductive SpeechEvent : Type :=
| Requested (engine : Engine) (text : string)
| Played (blob : string)
| Uttered (text : string).

(** The outside of the speech functions; the body of a response is the
    audio blob. *)
Record World : Type := {
  fishAudio_apiKey : string;
  elevenLabs_apiKey : string;
  elevenLabs_voiceId : option string;
  fishAudio_tts : string -> M (response string);
  elevenLabs_tts : string -> string -> M (response string);
  playAudioBlob : string -> M unit;
}.

(** A speech computation: its outcome and the events it caused. *)
Definition Speaking : Type := (M unit * list SpeechEvent)%type.

(** The events of [first], then [second] with the blob if [first]
    returned one. *)
Definition andThen {A} (first : M A * list SpeechEvent)
    (second : A -> Speaking) : Speaking :=
  match first with
  | (inl e, events) => (inl e, events)
  | (inr x, events) =>
      let '(outcome, events') := second x in (outcome, events ++ events')
  end.

(** The request to a remote engine up to the audio blob. *)
Definition synthesized (engine : Engine) (text : string) (label : string)
    (fetched : M (response string)) : M string * list SpeechEvent :=
  (response ← fetched;
   if negb (ok response)
   then throw (ErrorObj (label ++ statusText response))
   else json response,
   [Requested engine text]).

(** Play audio blob through browser *)
Definition play (w : World) (blob : string) : Speaking :=
  (playAudioBlob w blob, [Played blob]).

(** Speak using FishAudio API *)
Definition speakWithFishAudio (w : World) (text : string) : Speaking :=
  andThen (synthesized FishAudio text "FishAudio API error: "
             (fishAudio_tts w text))
    (play w).

(** Speak using ElevenLabs API *)
Definition speakWithElevenLabs (w : World) (text : string) : Speaking :=
  let voiceId := or_string (elevenLabs_voiceId w) "21m00Tcm4TlvDq8ikWAM" in
  andThen (synthesized (ElevenLabs voiceId) text "ElevenLabs API error: "
             (elevenLabs_tts w voiceId text))
    (play w).

(** Fallback: Use browser SpeechSynthesis API; the promise resolves when
    the utterance ends and also when it fails. *)
Definition speakWithBrowser (text : string) : Speaking :=
  (inr tt, [Uttered text]).

(** Speak text using text-to-speech *)
Definition speak (w : World) (text : string) (provider : Provider) : Speaking :=
  let attempt :=
    match provider with
    | fishaudio =>
        if truthy (fishAudio_apiKey w) then speakWithFishAudio w text
        else speakWithBrowser text
    | elevenlabs =>
        if truthy (elevenLabs_apiKey w) then speakWithElevenLabs w text
        else speakWithBrowser text
    end in
  match attempt with
  | (inl error, events) =>
      let '(outcome, events') := speakWithBrowser text in
      (outcome, events ++ events')
  | (inr _, events) => (inr tt, events)
  end.

(** The key and the remote pipeline of the selected provider. *)
Definition keyOf (w : World) (provider : Provider) : string :=
  match provider with
  | fishaudio => fishAudio_apiKey w
  | elevenlabs => elevenLabs_apiKey w
  end.

Definition remote (w : World) (text : string) (provider : Provider) : Speaking :=
  match provider with
  | fishaudio => speakWithFishAudio w text
  | elevenlabs => speakWithElevenLabs w text
  end.

(** Is the request one to the engine of the provider? *)
Definition servedBy (provider : Provider) (event : SpeechEvent) : bool :=
  match event, provider with
  | Requested FishAudio _, fishaudio => true
  | Requested (ElevenLabs _) _, elevenlabs => true
  | Requested _ _, _ => false
  | _, _ => true
  end.

(** The Whisper endpoint: the [text] field of the body of its reply. *)
Record Whisper : Type := {
  groq_key : string;
  groq_transcriptions : string -> M (response (option string));
}.

(** Transcribe audio using Groq Whisper AI: the text handed to
    [handleTranscription] (with the speaker "user-1"), if any. *)
Definition transcribeWithGroqWhisper (w : Whisper) (audioBlob : string)
  : M (option string) :=
  if negb (truthy (groq_key w)) then mret None
  else
    try_catch
      (response ← groq_transcriptions w audioBlob;
       if negb (ok response) then mret None
       else
         data ← json response;
         let transcribedText := trim <$> data in
         match transcribedText with
         | Some text =>
             if truthy text && bool_decide (0 < String.length text)
             then mret (Some text) else mret None
         | None => mret None
         end)
      (fun _ => mret None).

End Speech.

(** ** UnifiedTranscriptionPanel.tsx *)

Module Panel.

Import Verification Voice.

Definition isDeclarativeResult (t : TranscriptionResult) : bool :=
  match statementType t with
  | declarative => true
  | _ => false
  end.

(** The verification shown with the transcription at [index]: the
    declarative statements up to and including it are counted, and the
    count, less one, is the position in the verification results
    ([verificationResults[-1]] is [undefined]). *)
Definition getVerificationForTranscription
    (transcriptions : list TranscriptionResult)
    (verificationResults : list VerificationResult) (index : nat)
  : option VerificationResult :=
  let declarativeCount :=
    length (List.filter isDeclarativeResult (take (index + 1) transcriptions)) in
  match declarativeCount with
  | O => None
  | S position => verificationResults !! position
  end.

End Panel.

(** ** The index route: incoming transcriptions and the speaking signal *)

Module Route.

Import Verification Voice App.

(** What the route keeps besides the queue: the transcriptions on
    display and the declarative statements handed to the record store. *)
Record RouteState : Type := {
  app : AppState;
  transcriptions : list TranscriptionResult;
  declarativeStatements : list string;
}.

(** The surroundings of the transcription callback: those of
    [processStatement], the session of the closure, and the answers of the
    record store to the two inserts. *)
Record Surroundings : Type := {
  processing : App.Surroundings;
  currentSession : option string;
  insertSpeakerQueue : SpeakerQueueModel -> M (list SpeakerQueueModel);
  insertDeclarativeStatement : string -> M unit;
}.

(** The queue item built from a transcription result, before the record
    store gives it an id. *)
Definition queueItemOf (session : string) (result : TranscriptionResult)
    (timestamp : string) : SpeakerQueueModel :=
  {| id := "";
     user_session_id := session;
     App.speaker_id := Voice.speaker_id result;
     statement_text := Voice.text result;
     statement_timestamp := timestamp;
     processing_status := Pending |}.

Definition inApp (f : AppState -> AppState) (s : RouteState) : RouteState :=
  {| app := f (app s);
     transcriptions := transcriptions s;
     declarativeStatements := declarativeStatements s |}.

(** The try block around the insert into the speaker queue: the state
    after it and, when [processStatement] was started, the outcome of
    that unawaited run.  The record store holds the entity it returns
    under the id it gave it. *)
Definition enqueue (env : Surroundings) (session : string)
    (result : TranscriptionResult) (timestamp : string) (s : RouteState)
  : RouteState * option (M unit) :=
  match insertSpeakerQueue env (queueItemOf session result timestamp) with
  | inl _ => (s, None)
  | inr [] => (s, None)
  | inr (queued :: _) =>
      let s1 :=
        inApp (fun a => setSpeakerQueue (fun prev => prev ++ [queued])
                          (putStore (id queued) queued a)) s in
      let '(outcome, run) :=
        processStatement (processing env) queued (Voice.text result)
          {| current := app s1; earlier := [] |} in
      (inApp (fun _ => current run) s1, Some outcome)
  end.

(** The transcription callback of the route. *)
Definition handleTranscription (env : Surroundings)
    (result : TranscriptionResult) (timestamp : string) (s : RouteState)
  : RouteState * option (M unit) :=
  let s0 :=
    {| app := app s;
       transcriptions := transcriptions s ++ [result];
       declarativeStatements := declarativeStatements s |} in
  match statementType result, currentSession env with
  | declarative, Some session =>
      let '(s1, started) := enqueue env session result timestamp s0 in
      let s2 :=
        match insertDeclarativeStatement env (Voice.text result) with
        | inl _ => s1
        | inr _ =>
            {| app := app s1;
               transcriptions := transcriptions s1;
               declarativeStatements :=
                 declarativeStatements s1 ++ [Voice.text result] |}
        end in
      (s2, started)
  | _, _ => (s0, None)
  end.

(** One call of the audio level callback at clock reading [time]; [loud]
    is the test [update.level > 0.1].  The deferred clearing of the flag
    is taken to happen before the next call. *)
Definition audioLevel (loud : bool) (time : Z) (s : Captured) : Captured :=
  if loud then {| isCurrentlySpeaking := true; lastAudioTime := time |}
  else if isCurrentlySpeaking s && (1000 <? time - lastAudioTime s)%Z
       then {| isCurrentlySpeaking := false; lastAudioTime := lastAudioTime s |}
       else s.

(** The speaking signal after a series of calls of the callback. *)
Definition listen (samples : list (bool * Z)) (s : Captured) : Captured :=
  foldl (fun s sample => audioLevel (fst sample) (snd sample) s) s samples.

End Route.

(** ** voice-service.ts: the audio level *)

Module Level.

(** [Math.min(x, y)]: [NaN] is contagious. *)
Definition min (x y : number) : number :=
  match x, y with
  | NaN, _ | _, NaN => NaN
  | PosInf, z | z, PosInf => z
  | Fin p, Fin q => if Qle_bool p q then Fin p else Fin q
  end.

(** [x / d] for a positive literal [d]. *)
Definition over (x : number) (d : Q) : number :=
  match x with
  | Fin q => Fin (q / d)
  | other => other
  end.

(** [x > y]; every comparison with [NaN] is false. *)
Definition gt (x y : number) : bool :=
  match x, y with
  | NaN, _ | _, NaN => false
  | PosInf, PosInf => false
  | PosInf, Fin _ => true
  | Fin _, PosInf => false
  | Fin p, Fin q => negb (Qle_bool p q)
  end.

(** The level computed from the bytes of the analyser by the interval
    callback of [setupAudioLevelMonitoring]: the average volume,
    normalized to 0-1.  The array has [frequencyBinCount] = 128 entries;
    the sum of 128 bytes divided by 128 and again by 128 is a multiple of
    2^-14 below 2, which a double holds exactly, so that the rationals give
    the level itself and the same comparisons with the literals [0.1]
    and [0.03] (no multiple of 2^-14 lies between the rational and the
    double nearest to it). *)
Definition normalizedLevel (dataArray : list nat) : number :=
  let average := div (sum_list dataArray) (length dataArray) in
  min (Fin 1) (over average 128).

(** The test of the audio level callback of the route: [update.level > 0.1]. *)
Definition loud (level : number) : bool := gt level (Fin (1 # 10)).

(** The test of the service: [normalizedLevel > 0.03]. *)
Definition isSpeaking (level : number) : bool := gt level (Fin (3 # 100)).

End Level.

(** ** Conditions and inputs of the properties of the services *)

Module Conditions.

Import Verification Semantic Voice App.

(** The request body of the consensus call. *)
Definition ballot (agents : list VerificationAgent)
  : list (string * verdict * number) :=
  map (fun a => (name a, verdict_of a, confidence a)) agents.

(** The gateway gives no consensus: its key is missing, the request
    throws, the response is not ok, or its body cannot be read. *)
Definition gatewayDown (w : World) (agents : list VerificationAgent) : Prop :=
  truthy (lavaGateway_apiKey (apiConfig w)) = false \/
  match lava_consensus w (ballot agents) with
  | inl _ => True
  | inr response => ok response = false \/ exists e, json response = inl e
  end.

(** [part] occurs in [s] as a run of consecutive characters. *)
Definition within (part s : string) : Prop :=
  exists pre post, s = (pre ++ part ++ post)%string.

(** No character of [s] is a sentence boundary. *)
Definition unpunctuated (s : string) : bool :=
  Spec.allChars (fun c => negb (isBoundary c)) s.

(** [pieces.join(sep)] *)
Fixpoint join (sep : string) (pieces : list string) : string :=
  match pieces with
  | [] => ""
  | piece :: rest =>
      match rest with
      | [] => piece
      | _ :: _ => (piece ++ sep ++ join sep rest)%string
      end
  end.

(** [s.slice(n)] *)
Fixpoint dropChars (n : nat) (s : string) : string :=
  match n, s with
  | O, _ => s
  | S _, EmptyString => EmptyString
  | S n', String _ s' => dropChars n' s'
  end.

(** No two white-space characters of [s] are neighbours. *)
Fixpoint singleSpaced (s : string) : bool :=
  match s with
  | String c ((String c' _) as s') =>
      negb (isSpace c && isSpace c') && singleSpaced s'
  | _ => true
  end.

(** Is the segment where its indices say? *)
Definition located (transcription : string) (seg : Context.SemanticSegment)
  : Prop :=
  String.substring (Context.startIndex seg)
    (String.length (Context.text seg)) transcription
  = Context.text seg.

(** The consensus label of a verdict. *)
Definition labelOf (v : verdict) : consensus :=
  if decide (v = VTrue) then verified_true
  else if decide (v = VFalse) then verified_false
  else inconclusive.

(** The entry carries one of the three verdicts of the interface. *)
Definition declaredVerdict (a : VerificationAgent) : Prop :=
  verdict_of a = VTrue \/ verdict_of a = VFalse \/ verdict_of a = VInconclusive.

(** The world [fourFalse] with a gateway that answers True with score
    0.9 whatever the agents voted. *)
Definition overruled : World :=
  {| apiConfig := apiConfig Spec.fourFalse;
     randomUUID := randomUUID Spec.fourFalse;
     anthropic_verify := anthropic_verify Spec.fourFalse;
     fetchAI_verify := fetchAI_verify Spec.fourFalse;
     gemini_verify := gemini_verify Spec.fourFalse;
     brightData_search := brightData_search Spec.fourFalse;
     llama_verify := llama_verify Spec.fourFalse;
     lava_consensus := fun _ => Spec.reply (VTrue, Fin (9 # 10));
     anthropic_correct := anthropic_correct Spec.fourFalse |}.

(** The world [fourFalse] without the key of the gateway. *)
Definition noGateway : World :=
  {| apiConfig :=
       {| anthropic_apiKey := "sk-ant"; fetchAI_apiKey := "fa";
          gemini_apiKey := "gm"; brightData_apiKey := "";
          lavaGateway_apiKey := ""; chromaAI_apiKey := "";
          groq_apiKey := "" |};
     randomUUID := randomUUID Spec.fourFalse;
     anthropic_verify := anthropic_verify Spec.fourFalse;
     fetchAI_verify := fetchAI_verify Spec.fourFalse;
     gemini_verify := gemini_verify Spec.fourFalse;
     brightData_search := brightData_search Spec.fourFalse;
     llama_verify := llama_verify Spec.fourFalse;
     lava_consensus := lava_consensus Spec.fourFalse;
     anthropic_correct := anthropic_correct Spec.fourFalse |}.

(** A world without any key. *)
Definition unconfigured : World :=
  {| apiConfig := Spec.noKeys;
     randomUUID := randomUUID Spec.fourFalse;
     anthropic_verify := anthropic_verify Spec.fourFalse;
     fetchAI_verify := fetchAI_verify Spec.fourFalse;
     gemini_verify := gemini_verify Spec.fourFalse;
     brightData_search := brightData_search Spec.fourFalse;
     llama_verify := llama_verify Spec.fourFalse;
     lava_consensus := lava_consensus Spec.fourFalse;
     anthropic_correct := anthropic_correct Spec.fourFalse |}.

(** A context store whose remote side cannot be reached. *)
Definition unreachable : Context.Remote :=
  {| Context.config :=
       {| anthropic_apiKey := ""; fetchAI_apiKey := ""; gemini_apiKey := "";
          brightData_apiKey := ""; lavaGateway_apiKey := "";
          chromaAI_apiKey := "ck"; groq_apiKey := "" |};
     Context.chroma_context_store := fun _ _ => throw (ErrorObj "Failed to fetch");
     Context.chroma_context_query := fun _ _ => throw (ErrorObj "Failed to fetch") |}.

Definition stamp : Context.Metadata :=
  {| Context.timestamp := "2025-01-01T00:00:00.000Z";
     Context.speaker_id := "user-1";
     Context.session_id := "s1" |}.

(** A transcription result of the given type. *)
Definition said (kind : StatementType) : TranscriptionResult :=
  {| Voice.text := "It rains"; Voice.speaker_id := "user-1";
     statementType := kind; tr_confidence := Fin (5 # 10) |}.

(** A verification result with the given id. *)
Definition checked (key : string) : VerificationResult :=
  {| statementId := key; isFalse := false; consensus_of := inconclusive;
     correctInformation := None; result_citations := None; agents := [];
     lavaGatewayConsensus :=
       {| lc_verdict := VInconclusive; consensusScore := NaN |} |}.

(** The number of declarative statements among the first [index]
    transcriptions. *)
Definition declarativesBefore (transcriptions : list TranscriptionResult)
    (index : nat) : nat :=
  length (List.filter Panel.isDeclarativeResult (take index transcriptions)).

(** Settings with every key set, and a world that runs on them. *)
Definition configured : Config.Settings :=
  fun _ => {| Config.apiKey := Some "key"; Config.baseUrl := Some "https://api" |}.

Definition ready : World :=
  {| apiConfig := Config.keysOf configured;
     randomUUID := randomUUID Spec.fourFalse;
     anthropic_verify := anthropic_verify Spec.fourFalse;
     fetchAI_verify := fetchAI_verify Spec.fourFalse;
     gemini_verify := gemini_verify Spec.fourFalse;
     brightData_search := brightData_search Spec.fourFalse;
     llama_verify := llama_verify Spec.fourFalse;
     lava_consensus := lava_consensus Spec.fourFalse;
     anthropic_correct := anthropic_correct Spec.fourFalse |}.

(** The handler of a failed agent call. *)
Definition errorEntry (agent : string) (error : thrown) : M VerificationAgent :=
  mret (failed agent ("Error: " ++ message_of error)).

(** The run of the callback from the state [s]: its outcome and the
    state it leaves. *)
Definition outcomeOf (env : Surroundings) (queueItem : SpeakerQueueModel)
    (statementText : string) (s : AppState) : M unit :=
  fst (processStatement env queueItem statementText
         {| current := s; earlier := [] |}).

Definition finalState (env : Surroundings) (queueItem : SpeakerQueueModel)
    (statementText : string) (s : AppState) : AppState :=
  current (snd (processStatement env queueItem statementText
                  {| current := s; earlier := [] |})).

End Conditions.

(** * Properties *)

Import Verification Semantic Voice App Spec.

(** Running the binds and returns of a promise. *)
Ltac run_M :=
  unfold mret, mbind, M_ret, M_bind, throw, try_catch in *; cbn in *.

(** ** The local consensus rule *)

Section Consensus.

Lemma count_le (v : verdict) (agents : list VerificationAgent) :
  count v agents <= length agents.
Proof. unfold count. apply length_filter. Qed.

(** Dividing the largest count gives the largest fraction. *)
Lemma div_max (a b n : nat) :
  n <> 0 -> JS.max (div a n) (div b n) = div (Nat.max a b) n.
Proof.
  intros Hn. destruct n as [|n]; [done|]. cbn [div JS.max].
  unfold Qle_bool. cbn [Qnum Qden].
  destruct (Z.leb_spec (Z.of_nat a * Z.pos (Pos.of_nat (S n)))
                       (Z.of_nat b * Z.pos (Pos.of_nat (S n)))) as [H|H].
  - rewrite Nat.max_r; [done|].
    apply Z.mul_le_mono_pos_r in H; lia.
  - rewrite Nat.max_l; [done|].
    apply Z.mul_lt_mono_pos_r in H; lia.
Qed.

Lemma div_max3 (a b c n : nat) :
  a <= n -> b <= n -> c <= n ->
  JS.max (JS.max (div a n) (div b n)) (div c n) = div (max3 a b c) n.
Proof.
  intros Ha Hb Hc. destruct (decide (n = 0)) as [->|Hn].
  - assert (a = 0) as -> by lia. assert (b = 0) as -> by lia.
    assert (c = 0) as -> by lia. done.
  - unfold max3. by rewrite !div_max.
Qed.

(** The threshold test on a fraction is the test [3 N <= 5 k] on the
    counts. *)
Lemma ge_threshold (k n : nat) :
  n <> 0 -> ge (div k n) consensusThreshold = true <-> 3 * n <= 5 * k.
Proof.
  intros Hn. destruct n as [|n]; [done|].
  cbn [div ge consensusThreshold]. rewrite Qle_bool_iff.
  unfold Qle. cbn [Qnum Qden]. lia.
Qed.

(** C1. For every list of agent verdicts the local consensus fallback
    returns what the local rule of the specification prescribes: False
    with score f when f >= 0.6, otherwise True with score t when
    t >= 0.6, otherwise Inconclusive with the largest of the three
    fractions as score; f >= 0.6 and t >= 0.6 are the tests 3N <= 5 count
    on the counts; and the five verdicts True, True, Inconclusive,
    Inconclusive, Inconclusive give Inconclusive with score 3/5. *)
Theorem C1_local_consensus (agents : list VerificationAgent) :
  calculateLocalConsensus agents = localRule agents
  /\ (agents <> [] ->
      (3 * length agents <= 5 * count VFalse agents ->
       calculateLocalConsensus agents
       = {| lc_verdict := VFalse; consensusScore := fraction VFalse agents |})
      /\ (~ 3 * length agents <= 5 * count VFalse agents ->
          3 * length agents <= 5 * count VTrue agents ->
          calculateLocalConsensus agents
          = {| lc_verdict := VTrue; consensusScore := fraction VTrue agents |})
      /\ (~ 3 * length agents <= 5 * count VFalse agents ->
          ~ 3 * length agents <= 5 * count VTrue agents ->
          lc_verdict (calculateLocalConsensus agents) = VInconclusive))
  /\ (map verdict_of agents
      = [VTrue; VTrue; VInconclusive; VInconclusive; VInconclusive] ->
      calculateLocalConsensus agents
      = {| lc_verdict := VInconclusive; consensusScore := Fin (3 # 5) |}).
Proof.
  assert (calculateLocalConsensus agents = localRule agents) as Hrule.
  { unfold calculateLocalConsensus, localRule, fraction, consensusThreshold.
    rewrite div_max3 by apply count_le. done. }
  split; [exact Hrule|]. split.
  - intros Hne.
    assert (length agents <> 0) as Hn by (by destruct agents).
    pose proof (ge_threshold (count VFalse agents) (length agents) Hn) as HF.
    pose proof (ge_threshold (count VTrue agents) (length agents) Hn) as HT.
    unfold calculateLocalConsensus, fraction. repeat split.
    + intros H. apply HF in H. by rewrite H.
    + intros H1 H2. apply HT in H2.
      destruct (ge (div (count VFalse agents) _) _) eqn:E;
        [exfalso; apply H1, HF; done|].
      by rewrite H2.
    + intros H1 H2.
      destruct (ge (div (count VFalse agents) _) _) eqn:E;
        [exfalso; apply H1, HF; done|].
      destruct (ge (div (count VTrue agents) _) _) eqn:E';
        [exfalso; apply H2, HT; done|].
      done.
  - intros Hv.
    destruct agents as [|[? v1 ? ? ?] [|[? v2 ? ? ?] [|[? v3 ? ? ?]
      [|[? v4 ? ? ?] [|[? v5 ? ? ?] [|? ?]]]]]]; try discriminate Hv.
    cbn in Hv. injection Hv as -> -> -> -> ->. reflexivity.
Qed.

Lemma C1_local_consensus_witness :
  calculateLocalConsensus
    (map vote [VTrue; VTrue; VInconclusive; VInconclusive; VInconclusive])
  = {| lc_verdict := VInconclusive; consensusScore := Fin (3 # 5) |}
  /\ calculateLocalConsensus
       (map vote [VFalse; VFalse; VFalse; VTrue; VInconclusive])
     = {| lc_verdict := VFalse;
          consensusScore :=
            fraction VFalse (map vote [VFalse; VFalse; VFalse; VTrue; VInconclusive]) |}.
Proof.
  split.
  - apply (proj2 (proj2 (C1_local_consensus
      (map vote [VTrue; VTrue; VInconclusive; VInconclusive; VInconclusive])))).
    reflexivity.
  - apply (proj1 (proj1 (proj2 (C1_local_consensus
      (map vote [VFalse; VFalse; VFalse; VTrue; VInconclusive]))) ltac:(discriminate))).
    vm_compute. lia.
Defined.

End Consensus.

(** ** The orchestrator *)

Section Orchestrator.

Variable w : World.
Variable statement : string.

Local Ltac attempt_name fetched :=
  destruct fetched as [?|[[] ? [?|?]]];
  unfold mret, mbind, M_ret, M_bind, throw; cbn; intros; simplify_eq; done.

Lemma claudeAttempt_name a :
  claudeAttempt w statement = inr a -> name a = "Claude (Anthropic)".
Proof. unfold claudeAttempt. attempt_name (anthropic_verify w statement). Qed.

Lemma fetchAIAttempt_name a :
  fetchAIAttempt w statement = inr a -> name a = "Fetch.ai".
Proof. unfold fetchAIAttempt. attempt_name (fetchAI_verify w statement). Qed.

Lemma geminiAttempt_name a :
  geminiAttempt w statement = inr a -> name a = "Gemini (Google)".
Proof. unfold geminiAttempt. attempt_name (gemini_verify w statement). Qed.

Lemma brightDataAttempt_name a :
  brightDataAttempt w statement = inr a -> name a = "Bright Data".
Proof. unfold brightDataAttempt. attempt_name (brightData_search w statement). Qed.

Lemma llamaAttempt_name a :
  llamaAttempt w statement = inr a -> name a = "Llama (Lava Portal)".
Proof. unfold llamaAttempt. attempt_name (llama_verify w statement). Qed.

Local Ltac settle key attempt named :=
  unfold settled, noVerdict; cbn [neededKey skipReason body];
  destruct (truthy key) eqn:Hkey; cbn [negb];
  [ destruct attempt as [[message|]|a] eqn:Hattempt; cbn [try_catch];
    eexists; (split; [reflexivity|]);
    (split; [first [done | by apply named]|]);
    (split; [done|]);
    (split; [first [by intros ? _ [= <-] | intros; congruence]|]);
    (split; [first [by intros _ _ | intros; congruence]|]);
    intros; congruence
  | eexists; (split; [reflexivity|]);
    (split; [done|]);
    (split; [intros _; done|]);
    repeat split; intros; congruence ].

Lemma verifyWithClaude_settles :
  exists a, verifyWithClaude w statement = inr a /\
    settled {| neededKey := anthropic_apiKey (apiConfig w);
               skipReason := "API key not configured";
               body := claudeAttempt w statement |}
      "Claude (Anthropic)" a.
Proof.
  unfold verifyWithClaude.
  settle (anthropic_apiKey (apiConfig w)) (claudeAttempt w statement) claudeAttempt_name.
Qed.

Lemma verifyWithFetchAI_settles :
  exists a, verifyWithFetchAI w statement = inr a /\
    settled {| neededKey := fetchAI_apiKey (apiConfig w);
               skipReason := "API key not configured";
               body := fetchAIAttempt w statement |}
      "Fetch.ai" a.
Proof.
  unfold verifyWithFetchAI.
  settle (fetchAI_apiKey (apiConfig w)) (fetchAIAttempt w statement) fetchAIAttempt_name.
Qed.

Lemma verifyWithGemini_settles :
  exists a, verifyWithGemini w statement = inr a /\
    settled {| neededKey := gemini_apiKey (apiConfig w);
               skipReason := "API key not configured";
               body := geminiAttempt w statement |}
      "Gemini (Google)" a.
Proof.
  unfold verifyWithGemini.
  settle (gemini_apiKey (apiConfig w)) (geminiAttempt w statement) geminiAttempt_name.
Qed.

Lemma verifyWithBrightData_settles :
  exists a, verifyWithBrightData w statement = inr a /\
    settled {| neededKey := brightData_apiKey (apiConfig w);
               skipReason := "API key not configured";
               body := brightDataAttempt w statement |}
      "Bright Data" a.
Proof.
  unfold verifyWithBrightData.
  settle (brightData_apiKey (apiConfig w)) (brightDataAttempt w statement) brightDataAttempt_name.
Qed.

Lemma verifyWithLlama_settles :
  exists a, verifyWithLlama w statement = inr a /\
    settled {| neededKey := lavaGateway_apiKey (apiConfig w);
               skipReason := "Lava Gateway API key not configured";
               body := llamaAttempt w statement |}
      "Llama (Lava Portal)" a.
Proof.
  unfold verifyWithLlama.
  settle (lavaGateway_apiKey (apiConfig w)) (llamaAttempt w statement) llamaAttempt_name.
Qed.

Lemma getLavaGatewayConsensus_settles (agents : list VerificationAgent) :
  exists c, getLavaGatewayConsensus w agents = inr c.
Proof.
  unfold getLavaGatewayConsensus.
  destruct (truthy (lavaGateway_apiKey (apiConfig w))); cbn [negb];
    [|by eexists].
  destruct (lava_consensus w _) as [?|[[] ? [?|?]]]; run_M; by eexists.
Qed.

Lemma generateCorrectInformation_settles (agents : list VerificationAgent) :
  exists c, generateCorrectInformation w statement agents = inr c.
Proof.
  unfold generateCorrectInformation.
  destruct (falseReasonings agents); [by eexists|].
  destruct (synthesize w statement _); by eexists.
Qed.

(** Logging a verdict throws exactly when the verdict is no string. *)
Lemma logVerdict_isString (v : verdict) :
  logVerdict v = if isString v then inr () else inl typeError.
Proof. by destruct v. Qed.

Lemma for_of_logVerdict (entries : list VerificationAgent) :
  for_of entries (fun agent => logVerdict (verdict_of agent))
  = if forallb (fun a => isString (verdict_of a)) entries
    then inr () else inl typeError.
Proof.
  induction entries as [|a entries IH]; [done|].
  cbn [for_of forallb]. rewrite IH, logVerdict_isString.
  by destruct (isString (verdict_of a)), (forallb _ entries).
Qed.


(** The steps of a verification: the five entries, the consensus over
    them, the two log lines, and the result assembled from entries and
    consensus. *)
Lemma verifyStatement_steps :
  exists a1 a2 a3 a4 a5 c k,
    verifyWithClaude w statement = inr a1
    /\ verifyWithFetchAI w statement = inr a2
    /\ verifyWithGemini w statement = inr a3
    /\ verifyWithBrightData w statement = inr a4
    /\ verifyWithLlama w statement = inr a5
    /\ getLavaGatewayConsensus w [a1; a2; a3; a4; a5] = inr c
    /\ generateCorrectInformation w statement [a1; a2; a3; a4; a5] = inr k
    /\ verifyStatement w statement
       = if forallb (fun a => isString (verdict_of a)) [a1; a2; a3; a4; a5]
            && isString (lc_verdict c)
         then inr {| statementId := randomUUID w;
                     isFalse := bool_decide (lc_verdict c = VFalse);
                     consensus_of := Conditions.labelOf (lc_verdict c);
                     correctInformation :=
                       if bool_decide (lc_verdict c = VFalse)
                       then Some (c_correctInformation k) else None;
                     result_citations :=
                       if bool_decide (lc_verdict c = VFalse)
                       then Some (c_citations k) else None;
                     agents := [a1; a2; a3; a4; a5];
                     lavaGatewayConsensus := c |}
         else inl typeError.
Proof.
  destruct verifyWithClaude_settles as (a1 & H1 & _).
  destruct verifyWithFetchAI_settles as (a2 & H2 & _).
  destruct verifyWithGemini_settles as (a3 & H3 & _).
  destruct verifyWithBrightData_settles as (a4 & H4 & _).
  destruct verifyWithLlama_settles as (a5 & H5 & _).
  destruct (getLavaGatewayConsensus_settles [a1; a2; a3; a4; a5]) as (c & Hc).
  destruct (generateCorrectInformation_settles [a1; a2; a3; a4; a5])
    as (k & Hk).
  exists a1, a2, a3, a4, a5, c, k. repeat (split; [assumption|]).
  unfold verifyStatement. cbn [Promise_all].
  rewrite H1, H2, H3, H4, H5.
  unfold mret, mbind, M_ret, M_bind. cbn beta iota.
  rewrite for_of_logVerdict.
  destruct (forallb _ _); [|done]. cbn beta iota.
  rewrite Hc, logVerdict_isString. cbn beta iota.
  destruct (isString (lc_verdict c)); [|done]. cbn [andb].
  unfold Conditions.labelOf.
  destruct (bool_decide (lc_verdict c = VFalse)); [rewrite Hk|]; done.
Qed.

(** What a returned result is made of. *)
Lemma verifyStatement_inv r :
  verifyStatement w statement = inr r ->
  exists a1 a2 a3 a4 a5 c,
    verifyWithClaude w statement = inr a1
    /\ verifyWithFetchAI w statement = inr a2
    /\ verifyWithGemini w statement = inr a3
    /\ verifyWithBrightData w statement = inr a4
    /\ verifyWithLlama w statement = inr a5
    /\ getLavaGatewayConsensus w [a1; a2; a3; a4; a5] = inr c
    /\ agents r = [a1; a2; a3; a4; a5]
    /\ lavaGatewayConsensus r = c
    /\ statementId r = randomUUID w
    /\ isFalse r = bool_decide (lc_verdict c = VFalse)
    /\ consensus_of r = Conditions.labelOf (lc_verdict c)
    /\ (isFalse r = false ->
        correctInformation r = None /\ result_citations r = None)
    /\ (isFalse r = true ->
        exists k,
          generateCorrectInformation w statement (agents r) = inr k
          /\ correctInformation r = Some (c_correctInformation k)
          /\ result_citations r = Some (c_citations k)).
Proof.
  destruct verifyStatement_steps
    as (a1 & a2 & a3 & a4 & a5 & c & k & H1 & H2 & H3 & H4 & H5 & Hc & Hk
        & ->).
  destruct (_ && _); [|done]. intros [= <-].
  exists a1, a2, a3, a4, a5, c. repeat (split; [done|]). cbn.
  destruct (bool_decide (lc_verdict c = VFalse)); split; try done.
  intros _. by exists k.
Qed.


End Orchestrator.



(** ** The correction and its citations *)

Section Corrections.

(** A False verdict attaches what [generateCorrectInformation] returns
    for the complete agent list. *)
Lemma verifyStatement_correction w statement r :
  verifyStatement w statement = inr r ->
  isFalse r = true ->
  exists c,
    generateCorrectInformation w statement (agents r) = inr c
    /\ correctInformation r = Some (c_correctInformation c)
    /\ result_citations r = Some (c_citations c).
Proof.
  intros Hr Hfalse.
  destruct (verifyStatement_inv _ _ _ Hr)
    as (a1 & a2 & a3 & a4 & a5 & c & _ & _ & _ & _ & _ & _ & _ & _ & _ & _
        & _ & _ & Hsome).
  exact (Hsome Hfalse).
Qed.

Lemma allCitations_concat (agents : list VerificationAgent) :
  allCitations agents = concat (map citationsOf (votedFalse agents)).
Proof.
  unfold allCitations, votedFalse.
  induction (filter _ agents) as [|a l IH]; [done|].
  cbn. by rewrite <- IH.
Qed.

Lemma sublist_concat {A B} (f : A -> list B) (a : A) (l : list A) :
  a ∈ l -> sublist (f a) (concat (map f l)).
Proof.
  induction 1 as [a l|a b l _ IH]; cbn.
  - apply sublist_inserts_r. reflexivity.
  - by apply sublist_inserts_l.
Qed.



(** In the world [fourFalse] the final verdict is False and the source
    that Llama cites twice is attached twice; the deduplicated union of
    the specification would list it once. *)
Lemma C3_counterexample :
  (exists r,
     verifyStatement fourFalse "The Earth is flat" = inr r
     /\ isFalse r = true
     /\ result_citations r
        = Some ["https://example.org/earth"; "https://example.org/earth"]
     /\ deduplicatedUnion (agents r) = ["https://example.org/earth"])
  /\ ~ citationsClaim.
Proof.
  split.
  - eexists. split; [vm_compute; reflexivity|]. by vm_compute.
  - intros claim.
    remember (verifyStatement fourFalse "The Earth is flat") as m eqn:E.
    vm_compute in E.
    destruct m as [|r]; [discriminate E|].
    specialize (claim fourFalse "The Earth is flat" r (eq_sym E)).
    injection E as ->. specialize (claim eq_refl).
    vm_compute in claim. discriminate claim.
Qed.

(** C3 (amended). When the final verdict is False and some False-voting
    agent gave a non-empty reasoning, the citation list attached to the
    correction is the concatenation, in dispatch order, of the citation
    lists of all False-voting agents: every citation of every
    False-voting agent appears, in the order of its list, and a citation
    listed several times appears as many times.  When no False-voting
    agent gave a non-empty reasoning the list is empty. *)
Theorem C3_citations_concatenated w statement r :
  verifyStatement w statement = inr r ->
  isFalse r = true ->
  exists cs,
    result_citations r = Some cs
    /\ (falseReasonings (agents r) = [] -> cs = [])
    /\ (falseReasonings (agents r) <> [] ->
        cs = concat (map citationsOf (votedFalse (agents r)))
        /\ length cs = sum_list (map (fun a => length (citationsOf a))
                                    (votedFalse (agents r)))
        /\ forall a, a ∈ agents r -> verdict_of a = VFalse ->
             sublist (citationsOf a) cs).
Proof.
  intros Hr Hfalse.
  destruct (verifyStatement_correction _ _ _ Hr Hfalse) as (c & Hc & _ & Hcs).
  exists (c_citations c). split; [done|].
  unfold generateCorrectInformation in Hc.
  destruct (falseReasonings (agents r)) as [|first rest].
  - injection Hc as <-. done.
  - split; [done|]. intros _.
    assert (c_citations c = concat (map citationsOf (votedFalse (agents r))))
      as ->.
    { rewrite <- allCitations_concat.
      destruct (synthesize _ _ _); by injection Hc as <-. }
    split; [done|]. split.
    + induction (votedFalse (agents r)) as [|a l IH]; [done|].
      cbn. rewrite length_app, IH. done.
    + intros a Ha Hv. apply sublist_concat.
      unfold votedFalse. by apply list_elem_of_filter.
Qed.

Lemma C3_citations_concatenated_witness :
  exists r cs,
    verifyStatement fourFalse "The Earth is flat" = inr r
    /\ result_citations r = Some cs
    /\ cs = concat (map citationsOf (votedFalse (agents r)))
    /\ length cs = 2.
Proof.
  remember (verifyStatement fourFalse "The Earth is flat") as m eqn:E.
  vm_compute in E.
  destruct m as [|r]; [discriminate E|].
  destruct (C3_citations_concatenated fourFalse "The Earth is flat" r)
    as (cs & Hcs & _ & Hsome).
  - by symmetry.
  - by injection E as ->.
  - exists r, cs. split; [done|]. split; [done|].
    injection E as ->. cbn in Hcs. injection Hcs as <-.
    destruct Hsome as (H1 & _ & _); [by vm_compute|].
    split; [exact H1|reflexivity].
Defined.




End Corrections.

(** ** Classification *)

Section Classification.

Variable w : Remote.
Variable history : list string.
Variable semanticResult : SemanticAnalysisResult.
Variables speakerId statement : string.

(** The remote classification always settles, and to "declarative" with
    confidence 0.5 when the remote classifier is unavailable. *)
Lemma classifyStatementWithClaude_settles (context : option (list string)) :
  exists c,
    classifyStatementWithClaude w statement context = inr c
    /\ (classifierUnavailable w statement context ->
        isDeclarative c = true /\ cl_confidence c = Fin (5 # 10)).
Proof.
  unfold classifyStatementWithClaude, classifierUnavailable.
  destruct (truthy (anthropic_apiKey (config w))); cbn [negb];
    [|by eexists].
  destruct (anthropic_classify w statement context)
    as [?|[[] ? [?|data]]]; run_M;
    (eexists; split; [reflexivity|]); cbn; try done.
  intros [|[|[e ?]]]; done.
Qed.

(** Without a key for the remote classifier, "What time is it?", a
    question by the local rules, is filed as declarative. *)
Lemma C5_counterexample :
  classifyStatementType "What time is it?" = question
  /\ (exists r,
        classifyOne offline [] (fallbackAnalysis "What time is it?") "user-1"
          "What time is it?" = inr r
        /\ statementType r = declarative)
  /\ ~ classificationClaim.
Proof.
  split; [reflexivity|]. split; [by eexists|].
  intros claim.
  destruct (claim offline [] (fallbackAnalysis "What time is it?") "user-1"
              "What time is it?" _ eq_refl) as [Hquestion _].
  specialize (Hquestion eq_refl). discriminate Hquestion.
Qed.

(** The remote classifier either is unavailable or answers. *)
Lemma classifier_cases (context : option (list string)) :
  classifierUnavailable w statement context
  \/ exists data, classifierAnswers w statement context data.
Proof.
  unfold classifierUnavailable, classifierAnswers.
  destruct (truthy (anthropic_apiKey (config w))); [|by left; left].
  destruct (anthropic_classify w statement context)
    as [?|[[] ? [e|data]]]; cbn.
  - left. by right.
  - left. right. right. by exists e.
  - right. exists data. split; [done|]. by eexists.
  - left. right. by left.
  - left. right. by left.
Qed.

(** What the remote step returns when the classifier answers. *)
Lemma classifyStatementWithClaude_answers
    (context : option (list string)) (data : ClassifyData) :
  classifierAnswers w statement context data ->
  classifyStatementWithClaude w statement context
  = inr {| isDeclarative := String.eqb (type data) "declarative";
           cl_confidence := or_number (k_confidence data) (Fin (8 # 10));
           cl_reasoning := or_string (k_reasoning data) "" |}.
Proof.
  intros (Hkey & response & Hcall & Hok & Hjson).
  unfold classifyStatementWithClaude. rewrite Hkey, Hcall. run_M.
  by rewrite Hok, Hjson.
Qed.

(** C5 (amended). The final kind is Declarative whenever the remote
    classifier reports a declarative statement, and also whenever its
    call fails or is unconfigured: the classifier then answers
    "declarative" with the fixed confidence 0.5, whatever the local rules
    say.  The local rules decide the final kind only when the remote call
    succeeds and reports another type; so a text they classify as a
    Question, such as "What time is it?", is a Question in the result
    when the remote classifier succeeds with a type other than
    declarative, and Declarative otherwise. *)
Theorem C5_classification :
  exists c r,
    classifyStatementWithClaude w statement (Some (lastN 5 history)) = inr c
    /\ classifyOne w history semanticResult speakerId statement = inr r
    /\ statementType r
       = (if isDeclarative c then declarative
          else classifyStatementType statement)
    /\ (classifierUnavailable w statement (Some (lastN 5 history)) ->
        isDeclarative c = true /\ cl_confidence c = Fin (5 # 10)
        /\ statementType r = declarative
        /\ tr_confidence r
           = JS.max (sa_confidence semanticResult) (Fin (5 # 10)))
    /\ (isDeclarative c = false ->
        statementType r = classifyStatementType statement)
    /\ classifyStatementType "What time is it?" = question
    /\ (classifierUnavailable w statement (Some (lastN 5 history))
        \/ exists data,
             classifierAnswers w statement (Some (lastN 5 history)) data)
    /\ (forall data,
          classifierAnswers w statement (Some (lastN 5 history)) data ->
          (isDeclarative c = true <-> type data = "declarative")
          /\ (type data = "declarative" -> statementType r = declarative)
          /\ (type data <> "declarative" ->
              statementType r = classifyStatementType statement)
          /\ (type data <> "declarative" ->
              classifyStatementType statement = question ->
              statementType r = question))
    /\ (classifyStatementType statement = question ->
        (statementType r = question <->
         exists data,
           classifierAnswers w statement (Some (lastN 5 history)) data
           /\ type data <> "declarative")
        /\ (statementType r = declarative <->
            classifierUnavailable w statement (Some (lastN 5 history))
            \/ exists data,
                 classifierAnswers w statement (Some (lastN 5 history)) data
                 /\ type data = "declarative")).
Proof.
  destruct (classifyStatementWithClaude_settles (Some (lastN 5 history)))
    as (c & Hc & Hdown).
  unfold classifyOne. rewrite Hc. run_M.
  exists c. eexists. split; [done|]. split; [reflexivity|]. cbn.
  split; [done|].
  assert (forall data,
            classifierAnswers w statement (Some (lastN 5 history)) data ->
            isDeclarative c = String.eqb (type data) "declarative")
    as Hanswers.
  { intros data Hdata.
    rewrite (classifyStatementWithClaude_answers _ _ Hdata) in Hc.
    by injection Hc as <-. }
  split.
  { intros Hun. destruct (Hdown Hun) as [Hd Hconf]. by rewrite Hd, Hconf. }
  split; [by intros ->|]. split; [reflexivity|].
  split; [apply classifier_cases|].
  split.
  { intros data Hdata. rewrite (Hanswers data Hdata).
    destruct (String.eqb_spec (type data) "declarative") as [Heq|Hne];
      repeat split; intros; congruence. }
  intros Hquestion. rewrite Hquestion. split.
  - split.
    + intros Hr.
      destruct (classifier_cases (Some (lastN 5 history))) as [Hun|[data Hdata]].
      { destruct (Hdown Hun) as [Hd _]. by rewrite Hd in Hr. }
      exists data. split; [done|]. intros Heq.
      rewrite (Hanswers data Hdata), Heq in Hr. done.
    + intros (data & Hdata & Hne). rewrite (Hanswers data Hdata).
      by destruct (String.eqb_spec (type data) "declarative").
  - split.
    + intros Hr.
      destruct (classifier_cases (Some (lastN 5 history))) as [Hun|[data Hdata]];
        [by left|right].
      exists data. split; [done|].
      rewrite (Hanswers data Hdata) in Hr.
      by destruct (String.eqb_spec (type data) "declarative").
    + intros [Hun|(data & Hdata & Heq)].
      * destruct (Hdown Hun) as [Hd _]. by rewrite Hd.
      * by rewrite (Hanswers data Hdata), Heq.
Qed.

End Classification.

Lemma C5_classification_witness :
  (exists r,
     classifyOne offline [] (fallbackAnalysis "What time is it?") "user-1"
       "What time is it?" = inr r
     /\ statementType r = declarative)
  /\ (exists r,
        classifyOne (answering "question") []
          (fallbackAnalysis "What time is it?") "user-1" "What time is it?"
        = inr r
        /\ statementType r = question).
Proof.
  split.
  - destruct (C5_classification offline [] (fallbackAnalysis "What time is it?")
                "user-1" "What time is it?")
      as (c & r & _ & Hr & _ & Hdown & _).
    exists r. split; [exact Hr|].
    apply (proj1 (proj2 (proj2 (Hdown (or_introl eq_refl))))).
  - destruct (C5_classification (answering "question") []
                (fallbackAnalysis "What time is it?") "user-1" "What time is it?")
      as (c & r & Hc & Hr & _ & _ & Hlocal & Hq & _).
    exists r. split; [exact Hr|].
    rewrite Hlocal; [exact Hq|].
    vm_compute in Hc. by injection Hc as <-.
Defined.

(** ** Segmentation *)

Section Segmenter.









End Segmenter.

(** ** Split points *)

Section SplitPoints.






Lemma lastChar_cons (c : ascii) (s : string) : is_Some (lastChar (String c s)).
Proof. cbn. destruct (lastChar s); by eexists. Qed.







(** A split is made by the first conjunction of the list that occurs in
    the sentence and cuts it into more than one valid part; the
    statements pushed are exactly the valid parts, trimmed. *)
Lemma findSplit_Some (conjs : list string) (remainingText : string)
    (pushed : list string) :
  findSplit conjs remainingText = Some pushed ->
  exists before cj after,
    conjs = before ++ cj :: after
    /\ (forall cj', cj' ∈ before ->
          includes cj' (toLowerCase remainingText) = true ->
          length (List.filter validPart (splitRegExp cj' remainingText)) <= 1)
    /\ includes cj (toLowerCase remainingText) = true
    /\ pushed = map trim (List.filter validPart (splitRegExp cj remainingText))
    /\ 1 < length (List.filter validPart (splitRegExp cj remainingText)).
Proof.
  induction conjs as [|cj conjs IH]; [done|]. cbn [findSplit].
  destruct (includes cj (toLowerCase remainingText)) eqn:Hin.
  - case_bool_decide as Hlen.
    + intros [= <-]. exists [], cj, conjs. split; [done|].
      split; [|done]. intros cj' Hcj'. by apply elem_of_nil in Hcj'.
    + intros H. destruct (IH H) as (before & cj' & after & -> & Hfirst & ?).
      exists (cj :: before), cj', after. split; [done|]. split; [|done].
      intros cj'' Hcj''. apply elem_of_cons in Hcj'' as [->|Hcj''].
      * intros _. lia.
      * by apply Hfirst.
  - intros H. destruct (IH H) as (before & cj' & after & -> & Hfirst & ?).
    exists (cj :: before), cj', after. split; [done|]. split; [|done].
    intros cj'' Hcj''. apply elem_of_cons in Hcj'' as [->|Hcj''].
    + intros Hin'. congruence.
    + by apply Hfirst.
Qed.






End SplitPoints.

(** ** The statement queue *)

Section Queue.

Variable env : Surroundings.
Variable queueItem : SpeakerQueueModel.
Variable statementText : string.

(** Replacing the entry in the view shows the status of the new item,
    if the view holds the entry at all. *)
Lemma viewStatus_replace (key : string) (newItem : SpeakerQueueModel)
    (s : AppState) :
  id newItem = key ->
  viewStatus key (setSpeakerQueue (replaceById key newItem) s)
  = (fun _ => processing_status newItem) <$> viewStatus key s.
Proof.
  intros Hid. unfold viewStatus, setSpeakerQueue, replaceById. cbn.
  induction (speakerQueue s) as [|item l IH]; [done|]. cbn.
  destruct (String.eqb (id item) key) eqn:Hitem.
  - by rewrite Hid, String.eqb_refl.
  - by rewrite Hitem.
Qed.

(** It leaves the other entries of the view as they are. *)
Lemma viewStatus_replace_other (key key' : string)
    (newItem : SpeakerQueueModel) (s : AppState) :
  id newItem = key -> key' <> key ->
  viewStatus key' (setSpeakerQueue (replaceById key newItem) s)
  = viewStatus key' s.
Proof.
  intros Hid Hne. unfold viewStatus, setSpeakerQueue, replaceById. cbn.
  induction (speakerQueue s) as [|item l IH]; [done|]. cbn.
  destruct (String.eqb_spec (id item) key) as [Hitem|Hitem].
  - rewrite Hid, Hitem.
    destruct (String.eqb_spec key key') as [Heq|_]; [congruence|]. exact IH.
  - destruct (String.eqb (id item) key'); [done|exact IH].
Qed.

(** The other updates leave the view of the queue alone. *)
Lemma viewStatus_setProcessingStatement key p s :
  viewStatus key (setProcessingStatement p s) = viewStatus key s.
Proof. reflexivity. Qed.

Lemma viewStatus_setVerificationResults key f s :
  viewStatus key (setVerificationResults f s) = viewStatus key s.
Proof. reflexivity. Qed.

Lemma viewStatus_putStore key k item s :
  viewStatus key (putStore k item s) = viewStatus key s.
Proof. reflexivity. Qed.

Lemma viewStatus_spawn key task s :
  viewStatus key (spawn task s) = viewStatus key s.
Proof. reflexivity. Qed.

(** The store holds what was last put under the key; the updates of the
    React state leave it alone. *)
Lemma storedStatus_putStore key item s :
  storedStatus key (putStore key item s) = Some (processing_status item).
Proof. unfold storedStatus. cbn. by rewrite lookup_insert_eq. Qed.

Lemma storedStatus_setSpeakerQueue key f s :
  storedStatus key (setSpeakerQueue f s) = storedStatus key s.
Proof. reflexivity. Qed.

Lemma storedStatus_setProcessingStatement key p s :
  storedStatus key (setProcessingStatement p s) = storedStatus key s.
Proof. reflexivity. Qed.

Lemma storedStatus_setVerificationResults key f s :
  storedStatus key (setVerificationResults f s) = storedStatus key s.
Proof. reflexivity. Qed.

Lemma storedStatus_spawn key task s :
  storedStatus key (spawn task s) = storedStatus key s.
Proof. reflexivity. Qed.

Create Rewrite HintDb queue.

Hint Rewrite viewStatus_setProcessingStatement
  viewStatus_setVerificationResults viewStatus_putStore viewStatus_spawn
  storedStatus_putStore storedStatus_setSpeakerQueue
  storedStatus_setProcessingStatement storedStatus_setVerificationResults
  storedStatus_spawn : queue.
Hint Rewrite viewStatus_replace using reflexivity : queue.

(** Splits a run of the callback into its cases: which upserts throw,
    whether the verification throws, whether an interjection starts. *)
Local Ltac cases_of_run :=
  unfold finalStatus, processStatement, setSpeakerQueueById, execute,
    try_catch_prog, await, update, mbind, mret, Prog_bind, Prog_ret, throw;
  cbn -[viewStatus storedStatus];
  repeat (match goal with
    | |- context [match upsertThrows env ?i with _ => _ end] =>
        destruct (upsertThrows env i) eqn:?
    | |- context [match verify env ?t with _ => _ end] =>
        destruct (verify env t) eqn:?
    | |- context [match correctInformation ?x with _ => _ end] =>
        destruct (correctInformation x)
    | |- context [if ?b then _ else _] => destruct b
    end; cbn -[viewStatus storedStatus]).

(** Evaluates the statuses along the explicit states of one case. *)
Local Ltac observe Hv :=
  unfold statuses; cbn [map last mjoin option_join];
  autorewrite with queue; rewrite ?Hv;
  cbn [fmap option_fmap option_map with_status processing_status].

Local Ltac check_steps :=
  let Hin := fresh "Hin" in
  intros ? ? Hin; cbn [neighbours] in Hin;
  repeat (apply elem_of_cons in Hin as [Hin|Hin]);
  try (by apply elem_of_nil in Hin);
  injection Hin as -> ->;
  first [ by left | right; eexists _, _; by repeat split ].

(** When the upsert of the Processing status throws and the upsert of
    the Failed status succeeds, the view takes the entry from Pending to
    Failed without showing Processing. *)
Lemma C8_counterexample :
  statuses (id entry)
    (snd (execute (processStatement
       (surroundings (fun st => bool_decide (st = Processing)))
       entry "The Earth is flat") fresh))
  = [Some Pending; Some Pending; Some Failed; Some Failed]
  /\ ~ monotoneClaim.
Proof.
  assert (statuses (id entry)
            (snd (execute (processStatement
               (surroundings (fun st => bool_decide (st = Processing)))
               entry "The Earth is flat") fresh))
          = [Some Pending; Some Pending; Some Failed; Some Failed]) as Hrun
    by (vm_compute; reflexivity).
  split; [exact Hrun|].
  intros claim.
  destruct (claim (surroundings (fun st => bool_decide (st = Processing)))
              entry "The Earth is flat" fresh eq_refl eq_refl)
    as [Hsteps _].
  rewrite Hrun in Hsteps.
  destruct (Hsteps (Some Pending) (Some Failed))
    as [Hsame|(x & y & [= <-] & [= <-] & Hstep)].
  - cbn. apply elem_of_cons. right. apply elem_of_cons. by left.
  - discriminate Hsame.
  - discriminate Hstep.
Qed.

(** C8 (amended). Over a run of the callback the status of the entry
    only moves forward: from Pending to Processing and from Processing
    to Processed or to Failed, or from Pending directly to Failed when
    the upsert of the Processing status throws; it never moves
    backward, and no transition leaves Processed or Failed.  The step
    from Pending to Failed occurs only when the upsert of the Processing
    status throws, and the entry then never shows Processing; when that
    upsert succeeds the run takes only the three steps of the
    specification.  The same holds for the status held by the record
    store.  The entry shows Processed only in states in which its
    VerificationResult exists, and the run leaves the status of every
    other entry as it is. *)
Theorem C8_status_progression (s : AppState) :
  processing_status queueItem = Pending ->
  viewStatus (id queueItem) s = Some Pending ->
  let states :=
    snd (execute (processStatement env queueItem statementText) s) in
  follows observedStep (statuses (id queueItem) states)
  /\ (forall a b,
        (Some a, Some b) ∈ neighbours (statuses (id queueItem) states) ->
        terminal a = true -> b = a)
  /\ (forall state,
        state ∈ states ->
        viewStatus (id queueItem) state = Some Processed ->
        exists result,
          verify env statementText = inr result
          /\ result ∈ verificationResults state)
  /\ (storedStatus (id queueItem) s = Some Pending ->
      follows observedStep (map (storedStatus (id queueItem)) states))
  /\ (forall key state,
        key <> id queueItem -> state ∈ states ->
        viewStatus key state = viewStatus key s)
  /\ (upsertThrows env (with_status queueItem Processing) = None ->
      follows claimedStep (statuses (id queueItem) states))
  /\ (upsertThrows env (with_status queueItem Processing) = None ->
      storedStatus (id queueItem) s = Some Pending ->
      follows claimedStep (map (storedStatus (id queueItem)) states))
  /\ ((Some Pending, Some Failed) ∈ neighbours (statuses (id queueItem) states) ->
      is_Some (upsertThrows env (with_status queueItem Processing)))
  /\ (is_Some (upsertThrows env (with_status queueItem Processing)) ->
      Some Processing ∉ statuses (id queueItem) states).
Proof.
  intros Hp Hv states.
  assert (follows observedStep (statuses (id queueItem) states)) as Hsteps.
  { subst states. cases_of_run; observe Hv; check_steps. }
  split; [exact Hsteps|]. split; [|split; [|split; [|split; [|split; [|split; [|split]]]]]].
  - intros a b Hin Ha.
    destruct (Hsteps _ _ Hin) as [[= ->]|(x & y & [= <-] & [= <-] & Hstep)];
      [done|].
    by destruct a, b.
  - subst states. cases_of_run; intros state Hin;
      repeat (apply elem_of_cons in Hin as [->|Hin]);
      try (by apply elem_of_nil in Hin);
      autorewrite with queue; rewrite ?Hv; cbn; try discriminate;
      intros _; eexists; (split; [reflexivity|]);
      apply elem_of_app; right; by left.
  - intros Hs. subst states.
    cases_of_run; cbn [map]; autorewrite with queue; rewrite ?Hs;
      cbn [with_status processing_status]; check_steps.
  - intros key state Hkey. subst states.
    cases_of_run; intros Hin;
      repeat (apply elem_of_cons in Hin as [->|Hin]);
      try (by apply elem_of_nil in Hin);
      repeat (autorewrite with queue;
              rewrite ?viewStatus_replace_other by done);
      reflexivity.
  - subst states. cases_of_run; observe Hv; intros Hnone;
      try discriminate Hnone; check_steps.
  - subst states.
    cases_of_run; intros Hnone; try discriminate Hnone; intros Hs;
      cbn [map]; autorewrite with queue; rewrite ?Hs;
      cbn [with_status processing_status]; check_steps.
  - subst states. cases_of_run; observe Hv; intros Hin;
      try (by eexists); exfalso; cbn [neighbours] in Hin;
      repeat (apply elem_of_cons in Hin as [Hin|Hin]);
      try (by apply elem_of_nil in Hin); discriminate Hin.
  - subst states. cases_of_run; observe Hv; intros Hsome;
      try (by destruct Hsome); intros Hin;
      repeat (apply elem_of_cons in Hin as [Hin|Hin]);
      try (by apply elem_of_nil in Hin); discriminate Hin.
Qed.

(** With the same successful fact-check, the entry ends Processed when
    the record store answers every upsert, and Failed when the upsert of
    the Processed status throws. *)
Lemma C9_counterexample :
  finalStatus (surroundings (fun _ => false)) entry "The Earth is flat" fresh
  = Some Processed
  /\ finalStatus (surroundings (fun st => bool_decide (st = Processed))) entry
       "The Earth is flat" fresh
     = Some Failed
  /\ ~ persistenceClaim.
Proof.
  split; [vm_compute; reflexivity|]. split; [vm_compute; reflexivity|].
  intros claim.
  specialize (claim (surroundings (fun _ => false))
                (surroundings (fun st => bool_decide (st = Processed)))
                entry "The Earth is flat" fresh Processed Failed
                eq_refl eq_refl eq_refl).
  discriminate claim; vm_compute; reflexivity.
Qed.

(** C9 (amended). A throwing persistence upsert is handled like any
    other failure of the callback: the run ends with the entry Processed
    exactly when the upsert of Processing, the verification and the
    upsert of Processed all succeed; if one of them throws and the
    upsert of the Failed status succeeds, the entry ends Failed, in the
    view and in the store, so a persistence failure alone turns a
    Processed outcome into Failed; the in-memory transition that was to
    follow a throwing upsert does not take place, and the transitions
    made before it are kept; if the upsert of Failed throws as well, the
    error leaves the callback and the view keeps the status it had. *)
Theorem C9_persistence_failure (s : AppState) :
  processing_status queueItem = Pending ->
  viewStatus (id queueItem) s = Some Pending ->
  let run := execute (processStatement env queueItem statementText) s in
  let final := finalStatus env queueItem statementText s in
  let processing := upsertThrows env (with_status queueItem Processing) in
  let processed :=
    upsertThrows env (with_status (with_status queueItem Processing) Processed) in
  let failed := upsertThrows env (with_status queueItem Failed) in
  (processing = None ->
   (exists result, verify env statementText = inr result) ->
   processed = None ->
   fst run = inr tt /\ final = Some Processed)
  /\ (is_Some processing
      \/ (exists e, verify env statementText = inl e)
      \/ is_Some processed ->
      failed = None ->
      fst run = inr tt /\ final = Some Failed
      /\ (storedStatus (id queueItem) <$> last (snd run)) = Some (Some Failed))
  /\ (is_Some processing ->
      (Some Processing ∉ statuses (id queueItem) (snd run))
      /\ (verificationResults <$> last (snd run))
         = Some (verificationResults s))
  /\ (forall e, failed = Some e ->
      (is_Some processing -> fst run = inl e /\ final = Some Pending)
      /\ (processing = None ->
          (exists e', verify env statementText = inl e')
          \/ is_Some processed ->
          fst run = inl e /\ final = Some Processing)).
Proof.
  intros Hp Hv run final processing processed failed.
  subst run final processing processed failed.
  repeat split.
  all: cases_of_run; observe Hv.
  all: repeat match goal with
       | |- _ -> _ => intro
       | H : is_Some None |- _ => by destruct H
       | H : ex _ |- _ => destruct H
       | H : _ \/ _ |- _ => destruct H
       end; try congruence; try done.
  all: try (by autorewrite with queue).
  all: intros Hin; cbn [map] in Hin; autorewrite with queue in Hin;
       rewrite ?Hv in Hin; cbn in Hin;
       repeat (apply elem_of_cons in Hin as [Hin|Hin]);
       try (by apply elem_of_nil in Hin); discriminate Hin.
Qed.

End Queue.

Lemma C8_status_progression_witness :
  follows observedStep
    (statuses "q1"
       (snd (execute (processStatement (surroundings (fun _ => false)) entry
                        "The Earth is flat") fresh))).
Proof.
  exact (proj1 (C8_status_progression (surroundings (fun _ => false)) entry
                  "The Earth is flat" fresh eq_refl eq_refl)).
Defined.

Lemma C9_persistence_failure_witness :
  finalStatus (surroundings (fun st => bool_decide (st = Processed))) entry
    "The Earth is flat" fresh = Some Failed
  /\ finalStatus (surroundings (fun _ => false)) entry
       "The Earth is flat" fresh = Some Processed.
Proof.
  split.
  - destruct (C9_persistence_failure
                (surroundings (fun st => bool_decide (st = Processed))) entry
                "The Earth is flat" fresh eq_refl eq_refl)
      as (_ & Hfailed & _).
    apply Hfailed; [|reflexivity].
    right. right. by eexists.
  - destruct (C9_persistence_failure (surroundings (fun _ => false)) entry
                "The Earth is flat" fresh eq_refl eq_refl)
      as (Hprocessed & _).
    apply Hprocessed; [reflexivity| |reflexivity].
    eexists. vm_compute. reflexivity.
Defined.

(** ** The interjection *)

Section Interjection.

Variable cap : Captured.
Variable t0 : Z.

(** The promise resolves between 100 ms and 10000 ms after its
    creation. *)
Lemma poll_bounds (k : Z) (runs : nat) :
  (1 <= k)%Z -> (k + Z.of_nat runs = 100)%Z ->
  (t0 + 100 <= poll cap t0 k runs <= t0 + 10000)%Z.
Proof.
  revert k. induction runs as [|runs IH]; intros k Hk Hsum; cbn [poll].
  - lia.
  - destruct (checkBreak cap (t0 + 100 * k)); [lia|].
    apply IH; lia.
Qed.

(** It resolves before the ceiling only at a run of the interval
    callback that finds the condition on the closure's constants true. *)
Lemma poll_early (k : Z) (runs : nat) :
  poll cap t0 k runs <> (t0 + 10000)%Z ->
  checkBreak cap (poll cap t0 k runs) = true
  /\ exists n, (k <= n)%Z /\ poll cap t0 k runs = (t0 + 100 * n)%Z.
Proof.
  revert k. induction runs as [|runs IH]; intros k; cbn [poll]; [done|].
  destruct (checkBreak cap (t0 + 100 * k)) eqn:Hbreak.
  - intros _. split; [done|]. exists k. lia.
  - intros Hne. destruct (IH _ Hne) as (? & n & ? & ?).
    split; [done|]. exists n. lia.
Qed.

(** A closure created while [isCurrentlySpeaking] was true waits for the
    ceiling, whatever the speaker does afterwards. *)
Lemma poll_speaking (k : Z) (runs : nat) :
  isCurrentlySpeaking cap = true -> poll cap t0 k runs = (t0 + 10000)%Z.
Proof.
  intros Hspeaking. revert k.
  induction runs as [|runs IH]; intros k; cbn [poll]; [done|].
  unfold checkBreak. rewrite Hspeaking. cbn. apply IH.
Qed.

(** A closure created in a silence that is more than 900 ms old at the
    start resolves at the first run of the interval callback, whatever
    the speaker does afterwards. *)
Lemma waitForBreak_silent :
  isCurrentlySpeaking cap = false ->
  (lastAudioTime cap + 900 < t0)%Z ->
  waitForBreak cap t0 = (t0 + 100)%Z.
Proof.
  intros Hsilent Hlast. unfold waitForBreak. cbn [poll].
  unfold checkBreak. rewrite Hsilent. cbn [negb andb].
  destruct (Z.ltb_spec 1000 (t0 + 100 * 1 - lastAudioTime cap)); lia.
Qed.

End Interjection.

(** C10. The interjection is started without being awaited, polls every
    100 ms, stops at the 10000 ms ceiling and speaks the correction after
    the fixed lead-in; but the condition it polls reads the constants of
    the closure, not the live speaking signal.  In the run below the
    closure was created in silence and the speaker resumes at 5050 and
    keeps talking: the correction is spoken at 5100, 100 ms after the
    start at 5000, while the live signal is true. *)
Theorem C10_interjection_reads_stale_signal :
  fst (execute (processStatement (surroundings (fun _ => false))
                  entry "The Earth is flat") fresh) = inr tt
  /\ (interjections <$>
     last (snd (execute (processStatement (surroundings (fun _ => false))
                           entry "The Earth is flat") fresh)))
  = Some [ {| startedAt := 5000; speakAt := 5100;
              message :=
                "Actually, that's not quite right. Correction: Fetch.ai agent verification" |} ]
  /\ waitForBreak quiet 5000 = 5100%Z
  /\ resumes 5100 = true
  /\ ~ silentFor resumes 5100
  /\ (5100 < 5000 + 10000)%Z.
Proof.
  split; [vm_compute; reflexivity|].
  split; [vm_compute; reflexivity|]. split; [reflexivity|].
  split; [reflexivity|]. split; [|lia].
  intros Hsilent. specialize (Hsilent 5100%Z). cbn in Hsilent.
  discriminate Hsilent. lia.
Qed.

(** * Further properties of the services *)

Import Config Panel Conditions.

(** ** verification-service.ts: the consensus and the result *)

Section LocalRule.

(** The three counts add up to [N] when every entry carries one of the
    three verdicts of the interface. *)
Lemma count_total (agents : list VerificationAgent) :
  Forall declaredVerdict agents ->
  count VFalse agents + count VTrue agents + count VInconclusive agents
  = length agents.
Proof.
  unfold count. induction 1 as [|a agents Ha _ IH]; [done|].
  rewrite !filter_cons. cbn [length]. rewrite <- IH.
  destruct Ha as [Ha | [Ha | Ha]]; rewrite Ha;
    repeat case_decide; try done; cbn [length]; lia.
Qed.

(** Two different verdicts are counted on different entries. *)
Lemma count_apart (v v' : verdict) (agents : list VerificationAgent) :
  v <> v' -> count v agents + count v' agents <= length agents.
Proof.
  intros Hne. unfold count.
  induction agents as [|a agents IH]; [done|].
  rewrite !filter_cons. cbn [length].
  repeat case_decide; cbn [length]; [congruence|lia..].
Qed.

Lemma count_Permutation (v : verdict) (agents agents' : list VerificationAgent) :
  agents ≡ₚ agents' -> count v agents = count v agents'.
Proof. intros Hperm. unfold count. by rewrite Hperm. Qed.

(** X1. The local consensus depends on the votes only, not on the order
    in which the agents are listed. *)
Theorem calculateLocalConsensus_order (agents agents' : list VerificationAgent) :
  agents ≡ₚ agents' ->
  calculateLocalConsensus agents = calculateLocalConsensus agents'.
Proof.
  intros Hperm. unfold calculateLocalConsensus.
  rewrite !(count_Permutation _ _ _ Hperm).
  by rewrite (Permutation_length Hperm).
Qed.

Lemma calculateLocalConsensus_order_witness :
  calculateLocalConsensus (map vote [VTrue; VFalse; VFalse; VInconclusive; VFalse])
  = calculateLocalConsensus (map vote [VFalse; VTrue; VFalse; VInconclusive; VFalse]).
Proof. apply calculateLocalConsensus_order. cbn. apply perm_swap. Defined.

(** X2. On a non-empty list the score of the local consensus is a
    fraction [k/N] with [k <= N], at least 3/5 when the verdict is True
    or False, and at least 1/3 when every entry carries one of the three
    verdicts of the interface (entries with another verdict are counted
    in [N] only); the two thresholds are never met together, so that the
    order of the two tests does not matter. *)
Theorem calculateLocalConsensus_score (agents : list VerificationAgent) :
  agents <> [] ->
  exists k : nat,
    consensusScore (calculateLocalConsensus agents) = div k (length agents)
    /\ k <= length agents
    /\ (Forall declaredVerdict agents -> length agents <= 3 * k)
    /\ (lc_verdict (calculateLocalConsensus agents) <> VInconclusive ->
        3 * length agents <= 5 * k)
    /\ ~ (ge (div (count VFalse agents) (length agents)) consensusThreshold = true
          /\ ge (div (count VTrue agents) (length agents)) consensusThreshold = true).
Proof.
  intros Hne.
  assert (length agents <> 0) as Hn by (by destruct agents).
  pose proof (count_total agents) as Htotal.
  pose proof (count_le VFalse agents) as Hf.
  pose proof (count_le VTrue agents) as Ht.
  pose proof (count_le VInconclusive agents) as Hi.
  pose proof (count_apart VFalse VTrue agents ltac:(done)) as Hapart.
  unfold calculateLocalConsensus.
  destruct (ge (div (count VFalse agents) _) _) eqn:Hfalse.
  - apply ge_threshold in Hfalse; [|done].
    exists (count VFalse agents). cbn.
    split; [done|]. split; [done|]. split; [lia|]. split; [done|].
    intros [_ Htrue]. apply ge_threshold in Htrue; lia.
  - destruct (ge (div (count VTrue agents) _) _) eqn:Htrue.
    + apply ge_threshold in Htrue; [|done].
      exists (count VTrue agents). cbn.
      split; [done|]. split; [done|]. split; [lia|]. split; [done|].
      by intros [? _].
    + eexists. cbn. split; [done|]. unfold max3.
      split; [lia|]. split; [intros Hdeclared; specialize (Htotal Hdeclared); lia|].
      split; [done|]. by intros [? _].
Qed.

Lemma calculateLocalConsensus_score_witness :
  exists k : nat,
    consensusScore
      (calculateLocalConsensus (map vote [VTrue; VFalse; VInconclusive]))
    = div k 3
    /\ 3 <= 3 * k /\ k <= 3.
Proof.
  destruct (calculateLocalConsensus_score
              (map vote [VTrue; VFalse; VInconclusive]))
    as (k & Hk & Hhigh & Hlow & _); [done|].
  exists k. split; [done|]. split; [|done]. apply Hlow.
  cbn [map]. repeat apply Forall_cons_2; try apply Forall_nil_2;
    unfold declaredVerdict; cbn; auto.
Defined.

End LocalRule.

Section Result.

Variable w : World.
Variable statement : string.

(** The entry of Bright Data never carries the verdict False. *)
Lemma verifyWithBrightData_verdict a :
  verifyWithBrightData w statement = inr a -> verdict_of a <> VFalse.
Proof.
  unfold verifyWithBrightData, brightDataAttempt.
  destruct (truthy _); cbn [negb]; [|by intros [= <-]].
  destruct (brightData_search w statement) as [?|[[] ? [?|data]]]; run_M;
    intros [= <-]; cbn; try done.
  by destruct (hasResults data).
Qed.

(** Only the entry of Llama carries citations. *)
Lemma verifyWithClaude_citations a :
  verifyWithClaude w statement = inr a -> citations a = None.
Proof.
  unfold verifyWithClaude, claudeAttempt.
  destruct (truthy _); cbn [negb]; [|by intros [= <-]].
  destruct (anthropic_verify w statement) as [?|[[] ? [?|?]]]; run_M;
    by intros [= <-].
Qed.

Lemma verifyWithFetchAI_citations a :
  verifyWithFetchAI w statement = inr a -> citations a = None.
Proof.
  unfold verifyWithFetchAI, fetchAIAttempt.
  destruct (truthy _); cbn [negb]; [|by intros [= <-]].
  destruct (fetchAI_verify w statement) as [?|[[] ? [?|?]]]; run_M;
    by intros [= <-].
Qed.

Lemma verifyWithGemini_citations a :
  verifyWithGemini w statement = inr a -> citations a = None.
Proof.
  unfold verifyWithGemini, geminiAttempt.
  destruct (truthy _); cbn [negb]; [|by intros [= <-]].
  destruct (gemini_verify w statement) as [?|[[] ? [?|?]]]; run_M;
    by intros [= <-].
Qed.

Lemma verifyWithBrightData_citations a :
  verifyWithBrightData w statement = inr a -> citations a = None.
Proof.
  unfold verifyWithBrightData, brightDataAttempt.
  destruct (truthy _); cbn [negb]; [|by intros [= <-]].
  destruct (brightData_search w statement) as [?|[[] ? [?|?]]]; run_M;
    by intros [= <-].
Qed.

(** Without its key the gateway is not asked: the consensus is the local
    one; so it is when the gateway gives no consensus. *)
Lemma getLavaGatewayConsensus_down (voters : list VerificationAgent) :
  gatewayDown w voters ->
  getLavaGatewayConsensus w voters = inr (calculateLocalConsensus voters).
Proof.
  unfold gatewayDown, getLavaGatewayConsensus, ballot.
  destruct (truthy _); cbn [negb]; [|done].
  intros [?|Hdown]; [done|].
  destruct (lava_consensus w _) as [?|[[] ? [?|?]]]; run_M; try done.
  destruct Hdown as [?|[? ?]]; done.
Qed.

Lemma getLavaGatewayConsensus_up (voters : list VerificationAgent) response data :
  truthy (lavaGateway_apiKey (apiConfig w)) = true ->
  lava_consensus w (ballot voters) = inr response ->
  ok response = true ->
  json response = inr data ->
  getLavaGatewayConsensus w voters
  = inr {| lc_verdict := fst data; consensusScore := snd data |}.
Proof.
  unfold getLavaGatewayConsensus, ballot. intros -> -> Hok Hdata. cbn [negb].
  run_M. by rewrite Hok, Hdata.
Qed.

(** The local consensus of five entries. *)
Lemma calculateLocalConsensus_five (voters : list VerificationAgent) :
  length voters = 5 ->
  lc_verdict (calculateLocalConsensus voters)
  = if bool_decide (3 <= count VFalse voters) then VFalse
    else if bool_decide (3 <= count VTrue voters) then VTrue
    else VInconclusive.
Proof.
  intros Hlen. unfold calculateLocalConsensus. rewrite Hlen.
  pose proof (ge_threshold (count VFalse voters) 5) as Hf.
  pose proof (ge_threshold (count VTrue voters) 5) as Ht.
  destruct (ge (div (count VFalse voters) 5) _).
  - rewrite bool_decide_eq_true_2; [done|]. destruct Hf as [Hf _]; [done|].
    specialize (Hf eq_refl). lia.
  - rewrite bool_decide_eq_false_2.
    2:{ intros ?. destruct Hf as [_ Hf]; [done|]. discriminate Hf. lia. }
    destruct (ge (div (count VTrue voters) 5) _).
    + rewrite bool_decide_eq_true_2; [done|]. destruct Ht as [Ht _]; [done|].
      specialize (Ht eq_refl). lia.
    + rewrite bool_decide_eq_false_2; [done|].
      intros ?. destruct Ht as [_ Ht]; [done|]. discriminate Ht. lia.
Qed.

Lemma count_cons (v : verdict) (a : VerificationAgent)
    (voters : list VerificationAgent) :
  count v (a :: voters)
  = (if bool_decide (verdict_of a = v) then 1 else 0) + count v voters.
Proof.
  unfold count. rewrite filter_cons.
  case_decide; case_bool_decide; done.
Qed.

(** X3. When the gateway gives no consensus (no key, a failed request, a
    response that is not ok or cannot be read), the verdict of a result
    is that of three of its five entries: the statement is reported
    false exactly when at least three entries vote False, true when
    fewer than three vote False and at least three True, and
    inconclusive otherwise. *)
Theorem verifyStatement_local_majority r :
  verifyStatement w statement = inr r ->
  gatewayDown w (agents r) ->
  length (agents r) = 5
  /\ lavaGatewayConsensus r = calculateLocalConsensus (agents r)
  /\ (isFalse r = true <-> 3 <= count VFalse (agents r))
  /\ (consensus_of r = verified_false <-> 3 <= count VFalse (agents r))
  /\ (consensus_of r = verified_true <->
      count VFalse (agents r) < 3 /\ 3 <= count VTrue (agents r))
  /\ (consensus_of r = inconclusive <->
      count VFalse (agents r) < 3 /\ count VTrue (agents r) < 3).
Proof.
  intros Hr.
  destruct (verifyStatement_inv _ _ _ Hr)
    as (a1 & a2 & a3 & a4 & a5 & c & _ & _ & _ & _ & _ & Hc
        & Hagents & Hlava & _ & Hfalse & Hlabel & _).
  rewrite Hagents. intros Hdown. split; [done|].
  rewrite (getLavaGatewayConsensus_down _ Hdown) in Hc.
  injection Hc as <-. split; [done|].
  rewrite Hfalse, Hlabel, bool_decide_eq_true.
  rewrite calculateLocalConsensus_five by done.
  generalize (count VFalse [a1; a2; a3; a4; a5]) as f.
  generalize (count VTrue [a1; a2; a3; a4; a5]) as t. intros t f.
  repeat case_bool_decide; vm_compute labelOf;
    (repeat split; intros; destruct_and?; try done; lia).
Qed.

(** X4. The verdict of a gateway that answers is taken as it is,
    whatever the agents voted: it alone decides whether the statement is
    reported false. *)
Theorem verifyStatement_gateway_verdict r response data :
  verifyStatement w statement = inr r ->
  truthy (lavaGateway_apiKey (apiConfig w)) = true ->
  lava_consensus w (ballot (agents r)) = inr response ->
  ok response = true ->
  json response = inr data ->
  lavaGatewayConsensus r
  = {| lc_verdict := fst data; consensusScore := snd data |}
  /\ consensus_of r = labelOf (fst data)
  /\ isFalse r = bool_decide (fst data = VFalse).
Proof.
  intros Hrun Hkey Hreply Hok Hdata.
  destruct (verifyStatement_inv _ _ _ Hrun)
    as (a1 & a2 & a3 & a4 & a5 & c & _ & _ & _ & _ & _ & Hc
        & Hagents & Hlava & _ & Hfalse & Hlabel & _).
  rewrite Hagents in Hreply.
  rewrite (getLavaGatewayConsensus_up _ _ _ Hkey Hreply Hok Hdata) in Hc.
  injection Hc as <-. done.
Qed.

(** X5. A result is coherent: its id is the generated one, its label is
    that of the consensus verdict, and it is marked false exactly when
    the label is [verified_false], that is when the consensus verdict is
    the string ["false"].  A result that is not marked false carries
    neither a correction nor citations, and a result that is marked
    false carries the citation list that [generateCorrectInformation]
    gave. *)
Theorem verifyStatement_coherent r :
  verifyStatement w statement = inr r ->
  statementId r = randomUUID w
  /\ consensus_of r = labelOf (lc_verdict (lavaGatewayConsensus r))
  /\ (isFalse r = true <-> consensus_of r = verified_false)
  /\ (isFalse r = true <-> lc_verdict (lavaGatewayConsensus r) = VFalse)
  /\ (isFalse r = false ->
      correctInformation r = None /\ result_citations r = None)
  /\ (is_Some (correctInformation r) -> isFalse r = true)
  /\ (is_Some (result_citations r) <-> isFalse r = true)
  /\ (isFalse r = true ->
      exists k,
        generateCorrectInformation w statement (agents r) = inr k
        /\ result_citations r = Some (c_citations k)).
Proof.
  intros Hr.
  destruct (verifyStatement_inv _ _ _ Hr)
    as (a1 & a2 & a3 & a4 & a5 & c & _ & _ & _ & _ & _ & Hc
        & Hagents & Hlava & Hid & Hfalse & Hlabel & Hnone & Hsome).
  split; [done|]. split; [by rewrite Hlava|].
  split.
  { rewrite Hfalse, Hlabel, bool_decide_eq_true. unfold labelOf.
    repeat case_decide; split; intros; try done;
      unfold VTrue, VFalse in *; congruence. }
  split; [by rewrite Hfalse, Hlava, bool_decide_eq_true|].
  split; [done|].
  destruct (isFalse r).
  - destruct (Hsome eq_refl) as (k & Hk & Hinfo & Hcs).
    split; [done|]. split; [by rewrite Hcs|]. intros _. by exists k.
  - destruct (Hnone eq_refl) as [-> ->].
    split; [by intros [? ?]|]. split; [|done].
    split; [by intros [? ?]|done].
Qed.

(** The entry of an agent without a key. *)
Lemma verifyWithLlama_skipped a :
  truthy (lavaGateway_apiKey (apiConfig w)) = false ->
  verifyWithLlama w statement = inr a ->
  a = failed "Llama (Lava Portal)" "Lava Gateway API key not configured".
Proof. unfold verifyWithLlama. intros ->. cbn. by intros [= <-]. Qed.

Lemma verifyWithClaude_skipped a :
  truthy (anthropic_apiKey (apiConfig w)) = false ->
  verifyWithClaude w statement = inr a -> verdict_of a = VInconclusive.
Proof. unfold verifyWithClaude. intros ->. cbn. by intros [= <-]. Qed.

Lemma verifyWithFetchAI_skipped a :
  truthy (fetchAI_apiKey (apiConfig w)) = false ->
  verifyWithFetchAI w statement = inr a -> verdict_of a = VInconclusive.
Proof. unfold verifyWithFetchAI. intros ->. cbn. by intros [= <-]. Qed.

Lemma verifyWithGemini_skipped a :
  truthy (gemini_apiKey (apiConfig w)) = false ->
  verifyWithGemini w statement = inr a -> verdict_of a = VInconclusive.
Proof. unfold verifyWithGemini. intros ->. cbn. by intros [= <-]. Qed.

(** A False vote of Llama comes with a citation list. *)
Lemma verifyWithLlama_citations a :
  verifyWithLlama w statement = inr a ->
  verdict_of a = VFalse -> is_Some (citations a).
Proof.
  unfold verifyWithLlama, llamaAttempt.
  destruct (truthy _); cbn [negb]; [|by intros [= <-]].
  destruct (llama_verify w statement) as [?|[[] ? [?|?]]]; run_M;
    intros [= <-]; cbn; try done.
Qed.

(** X6. Bright Data never votes False.  Without the key of the gateway
    Llama is not asked and the consensus is the local one, so that a
    statement is reported false exactly when Claude, Fetch.ai and Gemini
    all vote False. *)
Theorem verifyStatement_without_gateway r :
  truthy (lavaGateway_apiKey (apiConfig w)) = false ->
  verifyStatement w statement = inr r ->
  exists claude fetch gemini web llama,
    agents r = [claude; fetch; gemini; web; llama]
    /\ verdict_of web <> VFalse
    /\ llama = failed "Llama (Lava Portal)" "Lava Gateway API key not configured"
    /\ lavaGatewayConsensus r = calculateLocalConsensus (agents r)
    /\ (isFalse r = true <->
        verdict_of claude = VFalse /\ verdict_of fetch = VFalse
        /\ verdict_of gemini = VFalse).
Proof.
  intros Hkey Hr.
  destruct (verifyStatement_inv _ _ _ Hr)
    as (a1 & a2 & a3 & a4 & a5 & c & _ & _ & _ & H4 & H5 & Hc
        & Hagents & Hlava & _ & Hfalse & _).
  exists a1, a2, a3, a4, a5. split; [done|].
  pose proof (verifyWithBrightData_verdict _ H4) as Hweb.
  apply (verifyWithLlama_skipped _ Hkey) in H5 as ->.
  split; [done|]. split; [done|].
  rewrite getLavaGatewayConsensus_down in Hc by (by left).
  injection Hc as <-. split; [by rewrite Hlava, Hagents|].
  rewrite Hfalse, bool_decide_eq_true, calculateLocalConsensus_five by done.
  generalize (count VTrue
                [a1; a2; a3; a4;
                 failed "Llama (Lava Portal)" "Lava Gateway API key not configured"]).
  intros t. rewrite !count_cons. cbn [verdict_of failed].
  change (count VFalse []) with 0.
  rewrite (bool_decide_eq_false_2 (verdict_of a4 = VFalse)) by done.
  rewrite (bool_decide_eq_false_2 (VInconclusive = VFalse)) by done.
  clear.
  destruct (bool_decide_reflect (verdict_of a1 = VFalse)),
    (bool_decide_reflect (verdict_of a2 = VFalse)),
    (bool_decide_reflect (verdict_of a3 = VFalse)); cbn [Nat.add];
    (case_bool_decide; [|case_bool_decide]);
    (split; [intros ?|intros (? & ? & ?)]); first [done | lia].
Qed.

(** X7. Only Llama brings citations: the citation list of a result is
    empty or the list of a Llama entry that votes False, and it is empty
    whenever the gateway key is missing. *)
Theorem verifyStatement_citations_from_llama r :
  verifyStatement w statement = inr r ->
  exists llama,
    agents r !! 4 = Some llama
    /\ (forall a, a ∈ agents r -> a <> llama -> citations a = None)
    /\ (forall cs, result_citations r = Some cs ->
          cs = [] \/ (verdict_of llama = VFalse /\ citations llama = Some cs))
    /\ (truthy (lavaGateway_apiKey (apiConfig w)) = false ->
        forall cs, result_citations r = Some cs -> cs = []).
Proof.
  intros Hr.
  destruct (verifyStatement_inv _ _ _ Hr)
    as (a1 & a2 & a3 & a4 & a5 & c & H1 & H2 & H3 & H4 & H5 & Hc
        & Hagents & Hlava & _ & Hfalse & _ & Hnone & Hsome).
  apply verifyWithClaude_citations in H1.
  apply verifyWithFetchAI_citations in H2.
  apply verifyWithGemini_citations in H3.
  apply verifyWithBrightData_citations in H4.
  assert (forall cs, result_citations r = Some cs ->
            cs = [] \/ (verdict_of a5 = VFalse /\ citations a5 = Some cs))
    as Hcs.
  { intros cs Hres. destruct (isFalse r).
    2:{ destruct (Hnone eq_refl) as [_ Hn]. congruence. }
    destruct (Hsome eq_refl) as (k & Hk & _ & Hkc).
    assert (cs = c_citations k) as -> by congruence.
    assert (c_citations k = [] \/ c_citations k = allCitations (agents r))
      as [?|Hall].
    { unfold generateCorrectInformation in Hk.
      destruct (falseReasonings (agents r)); [injection Hk as <-; by left|].
      destruct (synthesize _ _ _); injection Hk as <-; by right. }
    { by left. }
    rewrite Hall, Hagents. unfold allCitations.
    rewrite !filter_cons, filter_nil.
    assert (forall a l, citations a = None ->
              mbind (M := list) (fun a => default [] (citations a)) (a :: l)
              = mbind (M := list) (fun a => default [] (citations a)) l)
      as Hskip.
    { intros a l Ha. cbn. by rewrite Ha. }
    repeat (case_decide; rewrite ?Hskip by done);
      try (left; reflexivity).
    all: destruct (verifyWithLlama_citations _ H5) as [l Hl]; [done|].
    all: cbn; rewrite Hl; cbn; rewrite app_nil_r.
    all: destruct l; [by left|by right]. }
  exists a5. split; [by rewrite Hagents|]. split.
  { rewrite Hagents. intros a Ha Hne.
    repeat (apply elem_of_cons in Ha as [->|Ha]; [done|]).
    by apply elem_of_nil in Ha. }
  split; [done|].
  intros Hkey cs Hres. destruct (Hcs _ Hres) as [?|[Hv _]]; [done|].
  apply (verifyWithLlama_skipped _ Hkey) in H5. by subst.
Qed.

(** X8. Without any key no request is sent, and every statement gets
    the same result: five Inconclusive entries of confidence 0, the label
    inconclusive with the score 5/5, and no correction. *)
Theorem verifyStatement_unconfigured :
  truthy (anthropic_apiKey (apiConfig w)) = false ->
  truthy (fetchAI_apiKey (apiConfig w)) = false ->
  truthy (gemini_apiKey (apiConfig w)) = false ->
  truthy (brightData_apiKey (apiConfig w)) = false ->
  truthy (lavaGateway_apiKey (apiConfig w)) = false ->
  verifyStatement w statement
  = inr {| statementId := randomUUID w;
           isFalse := false;
           consensus_of := inconclusive;
           correctInformation := None;
           result_citations := None;
           agents :=
             [ failed "Claude (Anthropic)" "API key not configured";
               failed "Fetch.ai" "API key not configured";
               failed "Gemini (Google)" "API key not configured";
               failed "Bright Data" "API key not configured";
               failed "Llama (Lava Portal)" "Lava Gateway API key not configured" ];
           lavaGatewayConsensus :=
             {| lc_verdict := VInconclusive; consensusScore := Fin (5 # 5) |} |}.
Proof.
  intros Hclaude Hfetch Hgemini Hweb Hlava.
  unfold verifyStatement, verifyWithClaude, verifyWithFetchAI,
    verifyWithGemini, verifyWithBrightData, verifyWithLlama,
    getLavaGatewayConsensus.
  rewrite Hclaude, Hfetch, Hgemini, Hweb, Hlava. reflexivity.
Qed.

End Result.

Lemma verifyStatement_local_majority_witness :
  exists r,
    verifyStatement fourFalse "The Earth is flat" = inr r
    /\ isFalse r = true /\ 3 <= count VFalse (agents r).
Proof.
  destruct (verifyStatement fourFalse "The Earth is flat") as [e|r] eqn:Hr;
    [vm_compute in Hr; discriminate Hr|].
  exists r. split; [done|].
  destruct (verifyStatement_local_majority fourFalse "The Earth is flat" r Hr)
    as (_ & _ & Hfalse & _).
  { vm_compute in Hr. injection Hr as <-. right. cbn. by left. }
  vm_compute in Hr. injection Hr as <-.
  split; [done|]. by apply Hfalse.
Defined.

Lemma verifyStatement_gateway_verdict_witness :
  exists r,
    verifyStatement overruled "The Earth is flat" = inr r
    /\ count VFalse (agents r) = 4
    /\ consensus_of r = verified_true
    /\ isFalse r = false.
Proof.
  destruct (verifyStatement overruled "The Earth is flat") as [e|r] eqn:Hr;
    [vm_compute in Hr; discriminate Hr|].
  exists r. split; [done|].
  pose proof Hr as Hrun. vm_compute in Hrun. injection Hrun as <-.
  split; [done|].
  apply (verifyStatement_gateway_verdict overruled "The Earth is flat" _
           (Response true "OK" (inr (VTrue, Fin (9 # 10))))
           (VTrue, Fin (9 # 10)) Hr); done.
Defined.

Lemma verifyStatement_coherent_witness :
  exists r,
    verifyStatement fourFalse "The Earth is flat" = inr r
    /\ statementId r = "0b3c"
    /\ consensus_of r = verified_false
    /\ is_Some (result_citations r).
Proof.
  destruct (verifyStatement fourFalse "The Earth is flat") as [e|r] eqn:Hr;
    [vm_compute in Hr; discriminate Hr|].
  exists r. split; [done|].
  destruct (verifyStatement_coherent fourFalse "The Earth is flat" r Hr)
    as (Hid & _ & Hlabel & _ & _ & _ & Hcited & _).
  vm_compute in Hr. injection Hr as <-.
  split; [done|]. split; [by apply Hlabel|]. by apply Hcited.
Defined.

Lemma verifyStatement_without_gateway_witness :
  exists r,
    verifyStatement noGateway "The Earth is flat" = inr r
    /\ isFalse r = true
    /\ map verdict_of (agents r)
       = [VFalse; VFalse; VFalse; VInconclusive; VInconclusive].
Proof.
  destruct (verifyStatement noGateway "The Earth is flat") as [e|r] eqn:Hr;
    [vm_compute in Hr; discriminate Hr|].
  exists r. split; [done|].
  destruct (verifyStatement_without_gateway noGateway "The Earth is flat" r)
    as (a1 & a2 & a3 & a4 & a5 & Hagents & _ & _ & _ & Hfalse); [done..|].
  vm_compute in Hr. injection Hr as <-.
  injection Hagents as <- <- <- <- <-. split; [|done].
  apply Hfalse. done.
Defined.

Lemma verifyStatement_citations_from_llama_witness :
  exists r llama,
    verifyStatement fourFalse "The Earth is flat" = inr r
    /\ agents r !! 4 = Some llama
    /\ result_citations r = citations llama.
Proof.
  destruct (verifyStatement fourFalse "The Earth is flat") as [e|r] eqn:Hr;
    [vm_compute in Hr; discriminate Hr|].
  destruct (verifyStatement_citations_from_llama fourFalse "The Earth is flat" r Hr)
    as (llama & Hllama & _ & Hcs & _).
  exists r, llama. split; [done|]. split; [done|].
  vm_compute in Hr. injection Hr as <-.
  destruct (Hcs _ eq_refl) as [?|[_ Hcited]]; [done|]. by rewrite Hcited.
Defined.

Lemma verifyStatement_unconfigured_witness :
  exists r,
    verifyStatement unconfigured "The Earth is flat" = inr r
    /\ consensus_of r = inconclusive
    /\ consensusScore (lavaGatewayConsensus r) = Fin (5 # 5).
Proof.
  eexists. split; [by apply verifyStatement_unconfigured|]. done.
Defined.

(** ** semantic-service.ts: the analysis and the transcription context *)

Section Analysis.

Lemma or_string_truthy (o : option string) (d : string) :
  d <> "" -> or_string o d <> "".
Proof.
  intros Hd. destruct o as [s|]; cbn; [|done].
  destruct s; cbn; done.
Qed.

Lemma or_number_truthy (o : option number) (d : number) :
  truthy_number d = true -> truthy_number (or_number o d) = true.
Proof.
  intros Hd. destruct o as [x|]; cbn; [|done].
  by destruct (truthy_number x) eqn:Hx.
Qed.

Lemma analyzeWithChromaAI_keeps w transcription context a :
  analyzeWithChromaAI w transcription context = inr a ->
  originalText a = transcription
  /\ (transcription <> "" -> improvedText a <> "")
  /\ truthy_number (sa_confidence a) = true.
Proof.
  unfold analyzeWithChromaAI.
  destruct (chroma_semantic_analysis w _ _) as [?|[[] ? [?|?]]]; run_M;
    try done.
  intros [= <-]. cbn. split; [done|].
  split; [apply or_string_truthy|by apply or_number_truthy].
Qed.

Lemma analyzeWithGroq_keeps w transcription context a :
  analyzeWithGroq w transcription context = inr a ->
  originalText a = transcription
  /\ (transcription <> "" -> improvedText a <> "")
  /\ truthy_number (sa_confidence a) = true.
Proof.
  unfold analyzeWithGroq.
  destruct (groq_chat_completions w _ _) as [?|[[] ? [?|?]]]; run_M;
    try done.
  intros [= <-]. cbn. split; [done|].
  split; [apply or_string_truthy|by apply or_number_truthy].
Qed.

(** X9. The semantic analysis never fails and never loses the text: it
    keeps the transcription as the original text, gives a non-empty
    improved text for a non-empty transcription and a confidence that is
    neither 0 nor NaN.  Chroma AI is preferred to Groq, Groq to the basic
    parsing, and a later one is used only when the earlier ones are not
    configured or fail. *)
Theorem analyzeTranscription_total (w : Remote) (transcription : string)
    (context : option (list string)) :
  exists a,
    analyzeTranscription w transcription context = inr a
    /\ originalText a = transcription
    /\ (transcription <> "" -> improvedText a <> "")
    /\ truthy_number (sa_confidence a) = true
    /\ (truthy (chromaAI_apiKey (config w)) = true ->
        forall a', analyzeWithChromaAI w transcription context = inr a' ->
          a = a')
    /\ ((truthy (chromaAI_apiKey (config w)) = false
         \/ exists e, analyzeWithChromaAI w transcription context = inl e) ->
        truthy (groq_apiKey (config w)) = true ->
        forall a', analyzeWithGroq w transcription context = inr a' -> a = a')
    /\ ((truthy (chromaAI_apiKey (config w)) = false
         \/ exists e, analyzeWithChromaAI w transcription context = inl e) ->
        (truthy (groq_apiKey (config w)) = false
         \/ exists e, analyzeWithGroq w transcription context = inl e) ->
        a = fallbackAnalysis transcription).
Proof.
  unfold analyzeTranscription.
  pose proof (analyzeWithChromaAI_keeps w transcription context) as Hchroma.
  pose proof (analyzeWithGroq_keeps w transcription context) as Hgroq.
  destruct (truthy (chromaAI_apiKey (config w)));
    destruct (truthy (groq_apiKey (config w)));
    destruct (analyzeWithChromaAI w transcription context) as [?|c];
    destruct (analyzeWithGroq w transcription context) as [?|g];
    cbn [try_catch mret M_ret];
    eexists; (split; [reflexivity|]);
    try specialize (Hchroma _ eq_refl); try specialize (Hgroq _ eq_refl);
    cbn [fallbackAnalysis originalText improvedText sa_confidence];
    (split; [try done; tauto|]); (split; [try done; tauto|]);
    (split; [try done; tauto|]);
    (split; [intros; by simplify_eq|]);
    (split; [intros [?|[? ?]] ?; intros; by simplify_eq|]);
    intros [?|[? ?]] [?|[? ?]]; by simplify_eq.
Qed.

End Analysis.

Section TranscriptionContext.

Variable w : Context.Remote.

Lemma sliceLast_lastN {A} (n : nat) (l : list A) :
  n <> 0 -> Context.sliceLast n l = lastN n l.
Proof. by destruct n. Qed.

Lemma lastN_short {A} (n : nat) (l : list A) :
  length l <= n -> lastN n l = l.
Proof. intros Hlen. unfold lastN. by replace (length l - n) with 0 by lia. Qed.

Lemma length_lastN {A} (n : nat) (l : list A) :
  length (lastN n l) = Nat.min n (length l).
Proof. unfold lastN. rewrite length_drop. lia. Qed.

Lemma lastN_app_lastN {A} (n : nat) (l l' : list A) :
  lastN n (lastN n l ++ l') = lastN n (l ++ l').
Proof.
  destruct (decide (length l <= n)) as [Hshort|Hlong].
  - by rewrite (lastN_short n l).
  - unfold lastN. rewrite !length_app, length_drop.
    replace (length l - (length l - n) + length l' - n) with (length l') by lia.
    replace (length l + length l' - n) with ((length l - n) + length l') by lia.
    rewrite <- drop_drop. by rewrite (drop_app_le l l' (length l - n)) by lia.
Qed.

(** One call keeps the last 20 of the context and the new
    transcription, whatever the remote store does. *)
Lemma storeTranscription_keeps transcriptionContext transcription metadata :
  Context.storeTranscription w transcriptionContext transcription metadata
  = inr (lastN 20 (transcriptionContext ++ [transcription])).
Proof.
  unfold Context.storeTranscription.
  assert ((if bool_decide (20 < length (transcriptionContext ++ [transcription]))
           then Context.sliceLast 20 (transcriptionContext ++ [transcription])
           else transcriptionContext ++ [transcription])
          = lastN 20 (transcriptionContext ++ [transcription])) as ->.
  { case_bool_decide; [by apply sliceLast_lastN|].
    rewrite lastN_short; [done|lia]. }
  destruct (truthy _); [|done].
  by destruct (Context.chroma_context_store w transcription metadata) as [?|[]].
Qed.

(** X10. Storing transcriptions never fails, also when the remote store
    does, and the context afterwards holds the last 20 of what it held
    and what was stored, in order: never more than 20 entries, ending
    with the transcription stored last. *)
Theorem storeAll_window (transcriptionContext : list string)
    (stored : list (string * Context.Metadata)) :
  stored <> [] ->
  exists context',
    Context.storeAll w transcriptionContext stored = inr context'
    /\ context' = lastN 20 (transcriptionContext ++ map fst stored)
    /\ length context' <= 20
    /\ last context' = last (map fst stored).
Proof.
  intros Hne.
  assert (Context.storeAll w transcriptionContext stored
          = inr (lastN 20 (transcriptionContext ++ map fst stored))) as Hrun.
  { revert transcriptionContext.
    induction stored as [|[transcription metadata] rest IH];
      intros transcriptionContext; [done|].
    cbn [Context.storeAll map fst]. rewrite storeTranscription_keeps.
    unfold mbind, M_bind. destruct rest as [|next rest].
    - done.
    - rewrite IH by done. rewrite lastN_app_lastN.
      by rewrite <- app_assoc. }
  eexists. split; [exact Hrun|]. split; [done|].
  split; [rewrite length_lastN; lia|].
  unfold lastN.
  destruct (map fst stored) as [|x l] eqn:Hmap using rev_ind;
    [by destruct stored|].
  rewrite app_assoc, length_app. cbn [length].
  rewrite drop_app_le by (rewrite length_app; cbn; lia).
  rewrite !last_snoc. done.
Qed.

(** X11. The query of the context never fails.  Without the key, and
    whenever the remote query throws, answers with an error or cannot be
    read, it gives the local fallback: the last [limit] entries of the
    context, or all of them when fewer are held and also when [limit] is
    0; a remote answer with results is handed on as it is. *)
Theorem querySimilarTranscriptions_fallback
    (transcriptionContext : list string) (query : string) (limit : nat) :
  exists found,
    Context.querySimilarTranscriptions w transcriptionContext query limit
    = inr found
    /\ (found = Context.sliceLast limit transcriptionContext
        \/ exists response,
             truthy (chromaAI_apiKey (Context.config w)) = true
             /\ Context.chroma_context_query w query limit = inr response
             /\ ok response = true
             /\ json response = inr (Some found))
    /\ (truthy (chromaAI_apiKey (Context.config w)) = false ->
        found = Context.sliceLast limit transcriptionContext)
    /\ (forall e, Context.chroma_context_query w query limit = inl e ->
        found = Context.sliceLast limit transcriptionContext)
    /\ Context.sliceLast 0 transcriptionContext = transcriptionContext
    /\ (limit <> 0 ->
        length (Context.sliceLast limit transcriptionContext)
        = Nat.min limit (length transcriptionContext)
        /\ exists dropped,
             transcriptionContext
             = dropped ++ Context.sliceLast limit transcriptionContext).
Proof.
  unfold Context.querySimilarTranscriptions.
  assert (Context.sliceLast 0 transcriptionContext = transcriptionContext
          /\ (limit <> 0 ->
              length (Context.sliceLast limit transcriptionContext)
              = Nat.min limit (length transcriptionContext)
              /\ exists dropped,
                   transcriptionContext
                   = dropped ++ Context.sliceLast limit transcriptionContext))
    as Hslice.
  { split; [done|]. intros Hlimit. rewrite sliceLast_lastN by done.
    split; [apply length_lastN|].
    eexists. unfold lastN. symmetry. apply take_drop. }
  destruct (truthy _); cbn [negb].
  - destruct (Context.chroma_context_query w query limit)
      as [?|[[] ? [?|[results|]]]] eqn:Hquery; run_M;
      eexists; (split; [reflexivity|]);
      (split; [first [by left | right; eexists; by repeat split]|]);
      (split; [done|]); (split; [intros; by simplify_eq|]); exact Hslice.
  - eexists. split; [done|]. split; [by left|]. split; [done|].
    split; [done|]. exact Hslice.
Qed.

End TranscriptionContext.

Lemma storeAll_window_witness :
  Context.storeAll unreachable (replicate 19 "old")
    [("It rains", stamp); ("The sky is blue", stamp)]
  = inr (replicate 18 "old" ++ ["It rains"; "The sky is blue"]).
Proof.
  destruct (storeAll_window unreachable (replicate 19 "old")
              [("It rains", stamp); ("The sky is blue", stamp)])
    as (context' & -> & -> & _); done.
Defined.

(** ** semantic-service.ts: the statements of a text *)

Section Statements.

Lemma append_cons (c : ascii) (s t : string) :
  (String c s ++ t)%string = String c (s ++ t)%string.
Proof. reflexivity. Qed.

Lemma append_nil_r (s : string) : (s ++ "")%string = s.
Proof. induction s as [|c s IH]; [done|]. by rewrite append_cons, IH. Qed.

Lemma append_assoc (s t u : string) :
  ((s ++ t) ++ u)%string = (s ++ t ++ u)%string.
Proof. induction s as [|c s IH]; [done|]. by rewrite !append_cons, IH. Qed.

Lemma within_refl (s : string) : within s s.
Proof. exists "", "". by rewrite append_nil_r. Qed.

Lemma within_trans (a b c : string) : within a b -> within b c -> within a c.
Proof.
  intros (pre & post & ->) (pre' & post' & ->).
  exists (pre' ++ pre)%string, (post ++ post')%string.
  by rewrite !append_assoc.
Qed.

Lemma within_cons (c : ascii) (part s : string) :
  within part s -> within part (String c s).
Proof. intros (pre & post & ->). by exists (String c pre), post. Qed.

Lemma allChars_app (p : ascii -> bool) (s t : string) :
  allChars p (s ++ t) = allChars p s && allChars p t.
Proof.
  induction s as [|c s IH]; [done|].
  rewrite append_cons. cbn [allChars]. by rewrite IH, andb_assoc.
Qed.

Lemma allChars_within (p : ascii -> bool) (part s : string) :
  within part s -> allChars p s = true -> allChars p part = true.
Proof.
  intros (pre & post & ->). rewrite !allChars_app, !andb_true_iff. tauto.
Qed.

(** [trim] cuts white space off both ends and nothing else. *)
Lemma trimStart_suffix (s : string) : exists pre, s = (pre ++ trimStart s)%string.
Proof.
  induction s as [|c s [pre IH]]; [by exists ""|]. cbn [trimStart].
  destruct (isSpace c); [|by exists ""].
  exists (String c pre). by rewrite append_cons, <- IH.
Qed.

Lemma trimEnd_prefix (s : string) : exists post, s = (trimEnd s ++ post)%string.
Proof.
  induction s as [|c s [post IH]]; [by exists ""|]. cbn [trimEnd].
  destruct (trimEnd s) as [|d t] eqn:Ht.
  - destruct (isSpace c); [by exists (String c s)|].
    exists s. done.
  - exists post. by rewrite append_cons, <- IH.
Qed.

Lemma trim_within (s : string) : within (trim s) s.
Proof.
  unfold trim. destruct (trimStart_suffix s) as [pre Hpre].
  destruct (trimEnd_prefix (trimStart s)) as [post Hpost].
  exists pre, post. by rewrite <- Hpost.
Qed.

Lemma trimStart_head (s : string) :
  match trimStart s with
  | EmptyString => True
  | String c _ => isSpace c = false
  end.
Proof.
  induction s as [|c s IH]; [done|]. cbn [trimStart].
  by destruct (isSpace c) eqn:Hc.
Qed.

Lemma trimEnd_idempotent (s : string) : trimEnd (trimEnd s) = trimEnd s.
Proof.
  induction s as [|c s IH]; [done|]. cbn [trimEnd].
  destruct (trimEnd s) as [|d t] eqn:Ht.
  - destruct (isSpace c) eqn:Hc; [done|]. cbn. by rewrite Hc.
  - cbn [trimEnd] in IH |- *. by rewrite IH.
Qed.

Lemma trimStart_trimEnd (c : ascii) (s : string) :
  isSpace c = false ->
  trimStart (trimEnd (String c s)) = trimEnd (String c s).
Proof.
  intros Hc. cbn [trimEnd].
  destruct (trimEnd s); rewrite ?Hc; cbn [trimStart]; by rewrite Hc.
Qed.

Lemma trim_idempotent (s : string) : trim (trim s) = trim s.
Proof.
  unfold trim. pose proof (trimStart_head s) as Hhead.
  destruct (trimStart s) as [|c u]; [done|].
  by rewrite trimStart_trimEnd, trimEnd_idempotent.
Qed.

(** The pieces of a split at runs of separators: the first is a prefix,
    every one occurs in the text, and none holds a separator. *)
Lemma splitRuns_pieces (p : ascii -> bool) (s : string) :
  (exists post, s = (fst (splitRuns p s) ++ post)%string)
  /\ Forall (fun piece => within piece s) (snd (splitRuns p s))
  /\ Forall (fun piece => allChars (fun c => negb (p c)) piece = true)
       (fst (splitRuns p s) :: snd (splitRuns p s))
  /\ match s with
     | String c _ => p c = true -> fst (splitRuns p s) = ""
     | EmptyString => True
     end.
Proof.
  induction s as [|c s (Hhead & Htail & Hfree & Hsep)].
  { split; [by exists ""|]. split; [by constructor|].
    split; [by repeat constructor|done]. }
  cbn [splitRuns]. destruct (splitRuns p s) as [h t]. cbn [fst snd] in *.
  assert (Forall (fun piece => within piece (String c s)) t) as Htail'.
  { eapply Forall_impl; [exact Htail|]. intros ? ?. by apply within_cons. }
  assert (within h (String c s)) as Hh.
  { destruct Hhead as [post Hpost]. exists (String c ""), post.
    by rewrite append_cons, <- Hpost. }
  destruct (p c) eqn:Hc.
  - destruct s as [|c' s'].
    + cbn [fst snd]. split; [by exists (String c "")|].
      split; [by constructor|]. split; [by constructor|done].
    + destruct (p c') eqn:Hc'; cbn [fst snd].
      * rewrite (Hsep eq_refl). split; [by eexists|].
        split; [done|]. rewrite (Hsep eq_refl) in Hfree. done.
      * split; [by eexists|]. split; [by constructor|].
        split; [by constructor|done].
  - cbn [fst snd]. split.
    { destruct Hhead as [post Hpost]. exists post.
      by rewrite append_cons, <- Hpost. }
    split; [done|]. split; [|done].
    apply Forall_cons in Hfree as [Hh' Ht'].
    apply Forall_cons. split; [|done]. cbn [allChars]. by rewrite Hc, Hh'.
Qed.

(** The pieces of a split at a literal separator occur in the text. *)
Lemma splitLit_pieces (sep : string) (skip : nat) (s : string) :
  within (fst (splitLit sep skip s)) s
  /\ (skip = 0 -> exists post, s = (fst (splitLit sep skip s) ++ post)%string)
  /\ Forall (fun piece => within piece s) (snd (splitLit sep skip s)).
Proof.
  revert skip. induction s as [|c s IH]; intros skip.
  { split; [apply within_refl|]. split; [by exists ""|by constructor]. }
  cbn [splitLit]. destruct skip as [|k].
  - destruct (matchesAt true sep (String c s)).
    + destruct (IH (String.length sep - 1)) as (Hh & _ & Ht).
      destruct (splitLit sep (String.length sep - 1) s) as [h t].
      cbn [fst snd] in *. split; [by exists "", (String c s)|].
      split; [by exists (String c s)|]. apply Forall_cons. split.
      * by apply within_cons.
      * eapply Forall_impl; [exact Ht|]. intros ? ?. by apply within_cons.
    + destruct (IH 0) as (_ & Hh & Ht). destruct (Hh eq_refl) as [post Hpost].
      destruct (splitLit sep 0 s) as [h t]. cbn [fst snd] in *.
      assert (String c s = (String c h ++ post)%string) as Hs
        by (by rewrite append_cons, <- Hpost).
      split; [by exists "", post|]. split; [by exists post|].
      eapply Forall_impl; [exact Ht|]. intros ? ?. by apply within_cons.
  - destruct (IH k) as (Hh & _ & Ht). split; [by apply within_cons|].
    split; [done|].
    eapply Forall_impl; [exact Ht|]. intros ? ?. by apply within_cons.
Qed.

Lemma splitRegExp_within (sep s piece : string) :
  piece ∈ splitRegExp sep s -> within piece s.
Proof.
  unfold splitRegExp. pose proof (splitLit_pieces sep 0 s) as (Hh & _ & Ht).
  destruct (splitLit sep 0 s) as [h t]. cbn [fst snd] in *.
  intros [->|Hin]%elem_of_cons; [done|].
  by eapply Forall_forall in Ht.
Qed.

(** A statement made of a sentence is a trimmed, non-empty part of it. *)
Lemma splitSentence_statement (sentence statement : string) :
  statement ∈ splitSentence sentence ->
  within statement sentence /\ trim statement = statement /\ statement <> "".
Proof.
  unfold splitSentence.
  destruct (findSplit conjunctions (trim sentence)) as [pushed|] eqn:Hsplit.
  - destruct (findSplit_Some _ _ _ Hsplit)
      as (before & cj & after & _ & _ & _ & -> & _).
    intros (part & -> & Hpart)%list_elem_of_fmap.
    apply list_elem_of_In, filter_In in Hpart as [Hpart Hvalid].
    apply list_elem_of_In, splitRegExp_within in Hpart.
    split; [|split; [apply trim_idempotent|]].
    + eapply within_trans; [apply trim_within|].
      eapply within_trans; [exact Hpart|apply trim_within].
    + unfold validPart in Hvalid.
      apply andb_true_iff in Hvalid as [_ Hlen].
      apply bool_decide_eq_true in Hlen. intros Hnil.
      rewrite Hnil in Hlen. cbn in Hlen. lia.
  - case_bool_decide as Hlen; [|by intros ?%elem_of_nil].
    intros ->%list_elem_of_singleton.
    split; [apply trim_within|]. split; [apply trim_idempotent|].
    intros Hnil. rewrite Hnil in Hlen. cbn in Hlen. lia.
Qed.

Lemma sentences_sentence (currentText sentence : string) :
  sentence ∈ sentences currentText ->
  within sentence currentText /\ unpunctuated sentence = true.
Proof.
  unfold sentences, splitClass.
  pose proof (splitRuns_pieces isBoundary currentText) as (Hh & Ht & Hfree & _).
  destruct (splitRuns isBoundary currentText) as [h t]. cbn [fst snd] in *.
  intros [Hin _]%list_elem_of_In%filter_In. apply list_elem_of_In in Hin.
  split; [|by eapply Forall_forall in Hfree].
  apply elem_of_cons in Hin as [->|Hin].
  - destruct Hh as [post Hpost]. by exists "", post.
  - by eapply Forall_forall in Ht.
Qed.

Lemma isBoundary_lower (c : ascii) : isBoundary (lower c) = isBoundary c.
Proof. destruct c as [[] [] [] [] [] [] [] []]; reflexivity. Qed.

Lemma unpunctuated_toLowerCase (s : string) :
  unpunctuated (toLowerCase s) = unpunctuated s.
Proof.
  unfold unpunctuated.
  induction s as [|c s IH]; [done|]. cbn. by rewrite isBoundary_lower, IH.
Qed.

Lemma prefix_append (p s : string) :
  String.prefix p s = true -> exists post, s = (p ++ post)%string.
Proof.
  revert s. induction p as [|a p IH]; intros s; [by exists s|].
  destruct s as [|c s]; cbn; [done|].
  destruct (ascii_dec a c) as [->|]; [|done].
  intros [post ->]%IH. by exists post.
Qed.

Lemma includes_within (p s : string) : includes p s = true -> within p s.
Proof.
  induction s as [|c s IH]; cbn [includes].
  - rewrite orb_false_r. intros [post Hp]%prefix_append. by exists "", post.
  - intros [[post Hp]%prefix_append|Hin]%orb_true_iff.
    + by exists "", post.
    + by apply within_cons, IH.
Qed.

(** X12. Every statement of a text occurs in it word for word.  Unless
    the text is handed back whole, every statement is trimmed, not empty
    and free of full stops and semicolons.  No sentence holds a
    semicolon, so that the conjunction "; ", the last of the list, never
    splits one. *)
Theorem segment_statements (currentText : string) :
  (forall statement, statement ∈ segment currentText ->
     within statement currentText)
  /\ (segment currentText = [currentText]
      \/ forall statement, statement ∈ segment currentText ->
           trim statement = statement /\ statement <> ""
           /\ unpunctuated statement = true)
  /\ (forall sentence, sentence ∈ sentences currentText ->
        includes "; " (toLowerCase (trim sentence)) = false).
Proof.
  assert (forall statement,
            statement ∈ flat_map splitSentence (sentences currentText) ->
            within statement currentText
            /\ trim statement = statement /\ statement <> ""
            /\ unpunctuated statement = true) as Hstatements.
  { intros statement (sentence & Hsentence & Hin)%list_elem_of_In%in_flat_map.
    apply list_elem_of_In in Hsentence, Hin.
    apply sentences_sentence in Hsentence as [Hwithin Hfree].
    apply splitSentence_statement in Hin as (Hpart & Htrim & Hne).
    split; [by eapply within_trans|]. split; [done|]. split; [done|].
    by eapply allChars_within. }
  split; [|split].
  - unfold segment. case_bool_decide.
    + intros statement Hin. by apply Hstatements.
    + intros statement ->%list_elem_of_singleton. apply within_refl.
  - unfold segment. case_bool_decide; [right|by left].
    intros statement Hin. by apply Hstatements.
  - intros sentence [_ Hfree]%sentences_sentence.
    destruct (includes _ _) eqn:Hin; [|done].
    apply includes_within in Hin.
    apply (allChars_within (fun c => negb (isBoundary c))) in Hin; [done|].
    fold (unpunctuated (toLowerCase (trim sentence))).
    rewrite unpunctuated_toLowerCase.
    eapply allChars_within; [apply trim_within|exact Hfree].
Qed.

End Statements.

(** ** voice-service.ts: the local classification and the transcription
    handler *)

Section LocalClassification.

Lemma isSpace_lower (c : ascii) : isSpace (lower c) = isSpace c.
Proof. destruct c as [[] [] [] [] [] [] [] []]; reflexivity. Qed.

Lemma lower_idempotent (c : ascii) : lower (lower c) = lower c.
Proof. destruct c as [[] [] [] [] [] [] [] []]; reflexivity. Qed.

Lemma isDigit_lower (c : ascii) : isDigit (lower c) = isDigit c.
Proof. destruct c as [[] [] [] [] [] [] [] []]; reflexivity. Qed.

Lemma isDigit_not_space (c : ascii) : isSpace c = true -> isDigit c = false.
Proof. destruct c as [[] [] [] [] [] [] [] []]; cbv; congruence. Qed.

Lemma toLowerCase_idempotent (s : string) :
  toLowerCase (toLowerCase s) = toLowerCase s.
Proof.
  induction s as [|c s IH]; [done|]. cbn. by rewrite lower_idempotent, IH.
Qed.

Lemma trimStart_toLowerCase (s : string) :
  trimStart (toLowerCase s) = toLowerCase (trimStart s).
Proof.
  induction s as [|c s IH]; [done|]. cbn. rewrite isSpace_lower.
  by destruct (isSpace c).
Qed.

Lemma trimEnd_toLowerCase (s : string) :
  trimEnd (toLowerCase s) = toLowerCase (trimEnd s).
Proof.
  induction s as [|c s IH]; [done|]. cbn [toLowerCase trimEnd].
  rewrite IH, isSpace_lower.
  destruct (trimEnd s); cbn [toLowerCase]; [by destruct (isSpace c)|done].
Qed.

Lemma trim_toLowerCase (s : string) :
  trim (toLowerCase s) = toLowerCase (trim s).
Proof. unfold trim. by rewrite trimStart_toLowerCase, trimEnd_toLowerCase. Qed.

Lemma testDigit_toLowerCase (s : string) :
  testDigit (toLowerCase s) = testDigit s.
Proof.
  induction s as [|c s IH]; [done|]. cbn. by rewrite isDigit_lower, IH.
Qed.

Lemma testDigit_trimStart (s : string) : testDigit (trimStart s) = testDigit s.
Proof.
  induction s as [|c s IH]; [done|]. cbn [trimStart].
  destruct (isSpace c) eqn:Hc; [|done].
  cbn [testDigit]. by rewrite IH, (isDigit_not_space c Hc).
Qed.

Lemma testDigit_trimEnd (s : string) : testDigit (trimEnd s) = testDigit s.
Proof.
  induction s as [|c s IH]; [done|]. cbn [trimEnd testDigit].
  rewrite <- IH. destruct (trimEnd s) as [|d t]; [|done].
  destruct (isSpace c) eqn:Hc; cbn; [by rewrite (isDigit_not_space c Hc)|done].
Qed.

Lemma testDigit_trim (s : string) : testDigit (trim s) = testDigit s.
Proof. unfold trim. by rewrite testDigit_trimEnd, testDigit_trimStart. Qed.

Lemma lastChar_toLowerCase (s : string) :
  lastChar (toLowerCase s) = lower <$> lastChar s.
Proof.
  induction s as [|c s IH]; [done|]. cbn [toLowerCase lastChar].
  rewrite IH. by destruct (lastChar s).
Qed.

Lemma endsWith_lastChar (c : ascii) (s : string) :
  endsWith (String c "") s = true <-> lastChar s = Some c.
Proof.
  induction s as [|d s IH]; [done|]. cbn [endsWith lastChar].
  rewrite orb_true_iff, IH. destruct s as [|e s].
  - cbn. destruct (Ascii.eqb_spec d c) as [->|Hne]; [by split; [|left]|].
    split; [by intros [?|?]|]. intros [= ?]. done.
  - destruct (lastChar_cons e s) as [x Hx]. rewrite Hx.
    replace (String d (String e s) =? String c "")%string with false.
    2:{ cbn. by destruct (d =? c)%char. }
    split; [by intros [?|?]|by right].
Qed.

(** X13. The local classification looks at the text without the white
    space around it and without regard to the case of its letters; a
    text that ends in a question mark is a question whatever else it
    holds, and a text with a digit is never classified as "other". *)
Theorem classifyStatementType_normalized (text : string) :
  classifyStatementType (trim text) = classifyStatementType text
  /\ classifyStatementType (toLowerCase text) = classifyStatementType text
  /\ (lastChar (trim text) = Some "?"%char ->
      classifyStatementType text = question)
  /\ (testDigit text = true -> classifyStatementType text <> other).
Proof.
  split; [|split; [|split]].
  - unfold classifyStatementType. by rewrite trim_idempotent.
  - unfold classifyStatementType.
    by rewrite trim_toLowerCase, toLowerCase_idempotent.
  - intros Hlast. unfold classifyStatementType.
    assert (endsWith "?" (toLowerCase (trim text)) = true) as ->; [|done].
    apply endsWith_lastChar. by rewrite lastChar_toLowerCase, Hlast.
  - intros Hdigit. unfold classifyStatementType.
    rewrite testDigit_toLowerCase, testDigit_trim, Hdigit.
    rewrite !orb_true_r.
    repeat (match goal with |- context [if ?b then _ else _] => destruct b end);
      done.
Qed.

End LocalClassification.

Section Handler.

Variable w : Remote.






End Handler.


(** ** voice-service.ts: speech output and the Whisper transcription *)

(** Splits the membership in an explicit list into its cases. *)
Ltac members H :=
  repeat (apply elem_of_cons in H as [H|H]);
  try (by apply elem_of_nil in H).

Section SpeechOutput.

Variable w : Speech.World.
Variable text : string.

(** The run of a remote engine: one request with the text, then, if a
    blob came back, its playing. *)
Lemma synthesized_play engine label fetched :
  let run := Speech.andThen (Speech.synthesized engine text label fetched)
               (Speech.play w) in
  (snd run = [Speech.Requested engine text]
   /\ exists e, fst run = inl e)
  \/ exists blob,
       snd run = [Speech.Requested engine text; Speech.Played blob]
       /\ fst run = Speech.playAudioBlob w blob.
Proof.
  unfold Speech.andThen, Speech.synthesized, Speech.play.
  destruct fetched as [?|[[] ? [?|blob]]]; run_M;
    first [ left; split; [done|by eexists] | right; by exists blob ].
Qed.

Lemma remote_run (provider : Speech.Provider) :
  exists engine,
    Speech.servedBy provider (Speech.Requested engine text) = true
    /\ ((snd (Speech.remote w text provider) = [Speech.Requested engine text]
         /\ exists e, fst (Speech.remote w text provider) = inl e)
        \/ exists blob,
             snd (Speech.remote w text provider)
             = [Speech.Requested engine text; Speech.Played blob]
             /\ fst (Speech.remote w text provider)
                = Speech.playAudioBlob w blob).
Proof.
  destruct provider; cbn [Speech.remote];
    unfold Speech.speakWithFishAudio, Speech.speakWithElevenLabs;
    eexists; (split; [|apply synthesized_play]); done.
Qed.

Lemma speak_remote (provider : Speech.Provider) :
  Speech.speak w text provider
  = if truthy (Speech.keyOf w provider)
    then match Speech.remote w text provider with
         | (inl _, events) => (inr tt, events ++ [Speech.Uttered text])
         | (inr _, events) => (inr tt, events)
         end
    else (inr tt, [Speech.Uttered text]).
Proof.
  unfold Speech.speak, Speech.keyOf, Speech.remote.
  destruct provider; destruct (truthy _); try done.
Qed.

(** X15. Speaking never fails, and it ends with the text being voiced:
    by the audio of the selected engine played to its end, or else by
    the browser, which speaks exactly when the engine has no key or its
    run failed.  No request goes to the engine that was not selected,
    none at all without the key, and every request carries the text. *)
Theorem speak_voices (provider : Speech.Provider) :
  let run := Speech.speak w text provider in
  fst run = inr tt
  /\ (last (snd run) = Some (Speech.Uttered text)
      \/ exists blob,
           last (snd run) = Some (Speech.Played blob)
           /\ Speech.playAudioBlob w blob = inr tt)
  /\ (Speech.Uttered text ∈ snd run <->
      truthy (Speech.keyOf w provider) = false
      \/ exists e, fst (Speech.remote w text provider) = inl e)
  /\ (forall event, event ∈ snd run -> Speech.servedBy provider event = true)
  /\ (forall engine said, Speech.Requested engine said ∈ snd run ->
        said = text /\ truthy (Speech.keyOf w provider) = true).
Proof.
  cbv zeta. rewrite speak_remote.
  destruct (truthy (Speech.keyOf w provider)) eqn:Hkey.
  2:{ cbn. split; [done|]. split; [by left|].
      split; [split; [by left|intros _; by left]|].
      split.
      - intros event Hin. members Hin. subst. by destruct provider.
      - intros engine said Hin. members Hin. done. }
  destruct (remote_run provider) as (engine & Hserved & Hrun).
  destruct (Speech.remote w text provider) as [outcome events].
  cbn [fst snd] in Hrun.
  destruct Hrun as [[-> [e ->]]|(blob & -> & ->)].
  - cbn. split; [done|]. split; [by left|].
    split.
    { split; [intros _; right; by eexists|intros _].
      apply elem_of_cons. right. by left. }
    split.
    + intros event Hin. members Hin; subst; [done|by destruct provider].
    + intros ? ? Hin. members Hin; by simplify_eq.
  - destruct (Speech.playAudioBlob w blob) as [e|[]] eqn:Hplay; cbn.
    + split; [done|]. split; [by left|]. split.
      { split; [intros _; right; by eexists|intros _].
        do 2 (apply elem_of_cons; right). by left. }
      split.
      * intros event Hin. members Hin; subst; [done|by destruct provider..].
      * intros ? ? Hin. members Hin; by simplify_eq.
    + split; [done|]. split; [right; by exists blob|]. split.
      { split.
        - intros Hin. members Hin; done.
        - intros [?|[? ?]]; done. }
      split.
      * intros event Hin. members Hin; subst; [done|by destruct provider].
      * intros ? ? Hin. members Hin; by simplify_eq.
Qed.

End SpeechOutput.

Section WhisperTranscription.

Variable w : Speech.Whisper.
Variable audioBlob : string.

(** X16. The Whisper transcription never fails.  What it hands to the
    transcription handler is the trimmed text of a successful reply, and
    only when that is not empty; without the key, on an error status and
    on any exception nothing is handed on. *)
Theorem transcribeWithGroqWhisper_text :
  exists handed,
    Speech.transcribeWithGroqWhisper w audioBlob = inr handed
    /\ (forall text, handed = Some text ->
          text <> "" /\ trim text = text
          /\ truthy (Speech.groq_key w) = true
          /\ exists response raw,
               Speech.groq_transcriptions w audioBlob = inr response
               /\ ok response = true
               /\ json response = inr (Some raw)
               /\ text = trim raw)
    /\ (truthy (Speech.groq_key w) = false -> handed = None)
    /\ (forall e, Speech.groq_transcriptions w audioBlob = inl e ->
          handed = None)
    /\ (forall response, Speech.groq_transcriptions w audioBlob = inr response ->
          ok response = false -> handed = None)
    /\ (forall response raw,
          truthy (Speech.groq_key w) = true ->
          Speech.groq_transcriptions w audioBlob = inr response ->
          ok response = true ->
          json response = inr (Some raw) ->
          trim raw <> "" -> handed = Some (trim raw)).
Proof.
  unfold Speech.transcribeWithGroqWhisper.
  destruct (truthy (Speech.groq_key w)); cbn [negb];
    [|eexists; split; [done|]; repeat split; intros; by simplify_eq].
  destruct (Speech.groq_transcriptions w audioBlob)
    as [?|[[] ? [?|[raw|]]]]; run_M;
    try (eexists; split; [done|]; repeat split; intros; by simplify_eq).
  destruct (trim raw) as [|c rest] eqn:Htrim; cbn.
  - eexists; split; [done|]; repeat split; intros; simplify_eq/=; congruence.
  - eexists. split; [done|]. split.
    + intros ? [= <-]. split; [done|].
      split; [by rewrite <- Htrim, trim_idempotent|]. split; [done|].
      eexists _, raw. by repeat split.
    + repeat split; intros; simplify_eq/=; try done; congruence.
Qed.

End WhisperTranscription.

(** ** UnifiedTranscriptionPanel.tsx: the pairing of transcriptions and
    results *)

Section Pairing.

Variable transcriptions : list TranscriptionResult.
Variable verificationResults : list VerificationResult.

Lemma declarativesBefore_S (index : nat) (t : TranscriptionResult) :
  transcriptions !! index = Some t ->
  declarativesBefore transcriptions (S index)
  = declarativesBefore transcriptions index
    + (if isDeclarativeResult t then 1 else 0).
Proof.
  intros Ht. unfold declarativesBefore.
  rewrite (take_S_r _ _ _ Ht), List.filter_app, length_app. cbn.
  by destruct (isDeclarativeResult t).
Qed.

Lemma declarativesBefore_mono (i j : nat) :
  i <= j ->
  declarativesBefore transcriptions i <= declarativesBefore transcriptions j.
Proof.
  induction 1 as [|j Hle IH]; [done|].
  destruct (transcriptions !! j) as [t|] eqn:Ht.
  - rewrite (declarativesBefore_S _ _ Ht). lia.
  - unfold declarativesBefore in *.
    apply lookup_ge_None in Ht.
    rewrite (take_ge _ (S j)) by lia. rewrite (take_ge _ j) in IH by lia. done.
Qed.

Lemma getVerificationForTranscription_count (index : nat) :
  getVerificationForTranscription transcriptions verificationResults index
  = match declarativesBefore transcriptions (index + 1) with
    | O => None
    | S position => verificationResults !! position
    end.
Proof. reflexivity. Qed.

(** X17. The panel pairs a declarative transcription with the result
    whose position is the number of declarative transcriptions before
    it, so that different declarative transcriptions get different
    positions, in order.  A transcription that is not declarative gets
    what the transcription before it gets, and nothing when it is the
    first. *)
Theorem getVerificationForTranscription_pairing (index : nat)
    (t : TranscriptionResult) :
  transcriptions !! index = Some t ->
  (isDeclarativeResult t = true ->
   getVerificationForTranscription transcriptions verificationResults index
   = verificationResults !! declarativesBefore transcriptions index)
  /\ (isDeclarativeResult t = false ->
      getVerificationForTranscription transcriptions verificationResults index
      = match index with
        | O => None
        | S before =>
            getVerificationForTranscription transcriptions
              verificationResults before
        end)
  /\ (forall later t',
        index < later ->
        transcriptions !! later = Some t' ->
        isDeclarativeResult t = true ->
        declarativesBefore transcriptions index
        < declarativesBefore transcriptions later).
Proof.
  intros Ht. rewrite getVerificationForTranscription_count.
  replace (index + 1) with (S index) by lia.
  rewrite (declarativesBefore_S _ _ Ht).
  split; [|split].
  - intros ->. by replace (declarativesBefore transcriptions index + 1)
      with (S (declarativesBefore transcriptions index)) by lia.
  - intros ->. rewrite Nat.add_0_r. destruct index as [|before]; [done|].
    rewrite getVerificationForTranscription_count.
    by replace (before + 1) with (S before) by lia.
  - intros later t' Hlater _ Hdecl.
    pose proof (declarativesBefore_mono (S index) later Hlater) as Hmono.
    rewrite (declarativesBefore_S _ _ Ht), Hdecl in Hmono. lia.
Qed.

End Pairing.

Lemma getVerificationForTranscription_pairing_witness :
  getVerificationForTranscription
    [said question; said declarative; said opinion; said declarative]
    [checked "a"; checked "b"] 3
  = Some (checked "b")
  /\ getVerificationForTranscription
       [said question; said declarative; said opinion; said declarative]
       [checked "a"; checked "b"] 2
     = Some (checked "a").
Proof.
  split.
  - apply (proj1 (getVerificationForTranscription_pairing
             [said question; said declarative; said opinion; said declarative]
             [checked "a"; checked "b"] 3 (said declarative) eq_refl)).
    done.
  - destruct (getVerificationForTranscription_pairing
             [said question; said declarative; said opinion; said declarative]
             [checked "a"; checked "b"] 2 (said opinion) eq_refl)
      as (_ & Hsame & _).
    rewrite Hsame by done.
    apply (proj1 (getVerificationForTranscription_pairing
             [said question; said declarative; said opinion; said declarative]
             [checked "a"; checked "b"] 1 (said declarative) eq_refl)).
    done.
Defined.

(** ** The index route: what a run of the callback leaves behind *)

Section Effects.

Variable env : Surroundings.
Variable queueItem : SpeakerQueueModel.
Variable statementText : string.

Lemma map_id_replaceById (key : string) (newItem : SpeakerQueueModel)
    (prev : list SpeakerQueueModel) :
  id newItem = key -> map id (replaceById key newItem prev) = map id prev.
Proof.
  intros Hid. unfold replaceById. induction prev as [|item prev IH]; [done|].
  cbn. rewrite IH. destruct (String.eqb_spec (id item) key); congruence.
Qed.

(** Splits a run of the callback into its cases. *)
Local Ltac run_cases :=
  unfold outcomeOf, finalState, processStatement, setSpeakerQueueById,
    try_catch_prog, await, update, mbind, mret, Prog_bind, Prog_ret, throw;
  cbn -[replaceById interjection waitForBreak];
  repeat (match goal with
    | |- context [match upsertThrows env ?i with _ => _ end] =>
        destruct (upsertThrows env i) eqn:?
    | |- context [match verify env ?t with _ => _ end] =>
        destruct (verify env t) as [?|result] eqn:?
    | |- context [match correctInformation ?x with _ => _ end] =>
        destruct (correctInformation x) as [info|] eqn:?
    | |- context [if ?b then _ else _] => destruct b eqn:?
    end; cbn -[replaceById interjection waitForBreak]).

(** What a run leaves as it was: the ids of the queue, the earlier
    verification results, the entries of the record store under other
    keys. *)
Lemma processStatement_frame (s : AppState) :
  let final := finalState env queueItem statementText s in
  map id (speakerQueue final) = map id (speakerQueue s)
  /\ (exists added,
        verificationResults final = verificationResults s ++ added
        /\ length added <= 1)
  /\ (is_Some (store s !! id queueItem) ->
      is_Some (store final !! id queueItem))
  /\ (forall key, key <> id queueItem -> store final !! key = store s !! key).
Proof.
  cbv zeta. run_cases.
  all: rewrite ?map_id_replaceById by reflexivity.
  all: split; [reflexivity|].
  all: split;
    [first [ exists []; split; [by rewrite app_nil_r|cbn; lia]
           | eexists [_]; split; [reflexivity|cbn; lia] ]|].
  all: split; [intros ?; by rewrite ?lookup_insert_eq|].
  all: intros key ?; by rewrite ?lookup_insert_ne.
Qed.

(** An interjection is started only for a result that is false and has
    a non-empty correction, in a run that does not fail. *)
Lemma processStatement_interjects (s : AppState) :
  let final := finalState env queueItem statementText s in
  interjections final = interjections s
  \/ exists result info,
       verify env statementText = inr result
       /\ isFalse result = true
       /\ correctInformation result = Some info
       /\ info <> ""
       /\ interjections final = interjections s ++ [interjection env info].
Proof.
  cbv zeta. run_cases.
  all: first
         [ by left
         | right; eexists _, _;
           match goal with
           | H : _ && _ = true |- _ => apply andb_true_iff in H as [? Hinfo]
           end;
           repeat (split; [done|]);
           split; [by destruct info|reflexivity] ].
Qed.

(** X18. A run of the callback keeps the entries of the queue and their
    order, and only replaces the one it processes.  The verification
    result is recorded whenever the verification returned, also when the
    entry ends as Failed because a later upsert threw.  An interjection
    is started only for a result that is false and has a non-empty
    correction, with the lead-in before the correction, and only in a
    run that does not fail.  The run is rejected only with the error of
    the upsert of the Failed status, and the processing marker is
    cleared unless it is. *)
Theorem processStatement_effects (s : AppState) :
  let final := finalState env queueItem statementText s in
  let outcome := outcomeOf env queueItem statementText s in
  map id (speakerQueue final) = map id (speakerQueue s)
  /\ (forall result,
        upsertThrows env (with_status queueItem Processing) = None ->
        verify env statementText = inr result ->
        verificationResults final = verificationResults s ++ [result])
  /\ (is_Some (upsertThrows env (with_status queueItem Processing))
      \/ (exists e, verify env statementText = inl e) ->
      verificationResults final = verificationResults s)
  /\ (interjections final = interjections s
      \/ exists result info,
           verify env statementText = inr result
           /\ isFalse result = true
           /\ correctInformation result = Some info
           /\ info <> ""
           /\ outcome = inr tt
           /\ interjections final
              = interjections s
                ++ [ {| startedAt := now env;
                        speakAt := waitForBreak (captured env) (now env);
                        message :=
                          "Actually, that's not quite right. " ++ info |} ])
  /\ (outcome = inr tt -> processingStatement final = None)
  /\ (forall e, outcome = inl e ->
        upsertThrows env (with_status queueItem Failed) = Some e).
Proof.
  cbv zeta. run_cases.
  all: rewrite ?map_id_replaceById by reflexivity.
  all: split; [reflexivity|].
  all: split; [intros; by simplify_eq|].
  all: split; [intros [[? ?]|[? ?]]; by simplify_eq|].
  all: split;
    [first
       [ by left
       | right; eexists _, _;
         match goal with
         | H : _ && _ = true |- _ => apply andb_true_iff in H as [? Hinfo]
         end;
         repeat (split; [done|]);
         split; [by destruct info|]; split; reflexivity ]|].
  all: split; [intros; by simplify_eq|].
  all: intros; by simplify_eq.
Qed.

(** Evaluates the view and the record store in the state a run leaves. *)
Local Ltac look :=
  repeat first
    [ rewrite viewStatus_setProcessingStatement
    | rewrite viewStatus_setVerificationResults
    | rewrite viewStatus_putStore
    | rewrite viewStatus_spawn
    | rewrite viewStatus_replace by reflexivity
    | rewrite storedStatus_setSpeakerQueue
    | rewrite storedStatus_setProcessingStatement
    | rewrite storedStatus_setVerificationResults
    | rewrite storedStatus_spawn
    | rewrite storedStatus_putStore ].

(** X25. The view and the record store stay in step: if they show the
    same status for the entry before a run of the callback, they show
    the same status when the run has ended, whichever upserts throw,
    whether the verification fails and whether the run is rejected. *)
Theorem processStatement_agreement (s : AppState)
    (status : SpeakerQueueProcessingStatus) :
  viewStatus (id queueItem) s = Some status ->
  storedStatus (id queueItem) s = Some status ->
  let final := finalState env queueItem statementText s in
  is_Some (viewStatus (id queueItem) final)
  /\ viewStatus (id queueItem) final = storedStatus (id queueItem) final.
Proof.
  intros Hview Hstored. cbv zeta.
  unfold finalState, processStatement, setSpeakerQueueById,
    try_catch_prog, await, update, mbind, mret, Prog_bind, Prog_ret, throw.
  cbn -[viewStatus storedStatus interjection].
  repeat (match goal with
    | |- context [match upsertThrows env ?i with _ => _ end] =>
        destruct (upsertThrows env i) eqn:?
    | |- context [match verify env ?t with _ => _ end] =>
        destruct (verify env t) as [?|result] eqn:?
    | |- context [match correctInformation ?x with _ => _ end] =>
        destruct (correctInformation x) as [info|] eqn:?
    | |- context [if ?b then _ else _] => destruct b eqn:?
    end; cbn -[viewStatus storedStatus interjection]).
  all: look; rewrite ?Hview, ?Hstored; cbn; split; [by eexists|done].
Qed.

End Effects.

Lemma processStatement_agreement_witness :
  viewStatus "q1"
    (finalState (surroundings (fun status => bool_decide (status = Processed)))
       entry "The Earth is flat" fresh)
  = storedStatus "q1"
      (finalState (surroundings (fun status => bool_decide (status = Processed)))
         entry "The Earth is flat" fresh).
Proof.
  by destruct (processStatement_agreement
                 (surroundings (fun status => bool_decide (status = Processed)))
                 entry "The Earth is flat" fresh Pending eq_refl eq_refl)
    as [_ ?].
Defined.

Section Interjects.

Variable w : Verification.World.
Variable env : Surroundings.
Variable queueItem : SpeakerQueueModel.
Variable statementText : string.

(** X26. With the verification service behind the callback, a
    correction is spoken only for a statement whose consensus is
    verified_false: the message is the lead-in followed by the correction
    of the result, and when the gateway gave no consensus at least three
    of the five agents voted False.  Without the key of the gateway and
    one of the keys of Claude, Fetch.ai and Gemini no run ever starts an
    interjection. *)
Theorem interjection_needs_false_consensus (s : AppState) :
  verify env = verifyStatement w ->
  let final := finalState env queueItem statementText s in
  (interjections final = interjections s
   \/ exists r info,
        verifyStatement w statementText = inr r
        /\ consensus_of r = verified_false
        /\ correctInformation r = Some info
        /\ interjections final
           = interjections s
             ++ [ {| startedAt := now env;
                     speakAt := waitForBreak (captured env) (now env);
                     message := "Actually, that's not quite right. " ++ info |} ]
        /\ (gatewayDown w (agents r) -> 3 <= count VFalse (agents r)))
  /\ (truthy (lavaGateway_apiKey (apiConfig w)) = false ->
      truthy (anthropic_apiKey (apiConfig w)) = false
      \/ truthy (fetchAI_apiKey (apiConfig w)) = false
      \/ truthy (gemini_apiKey (apiConfig w)) = false ->
      interjections final = interjections s).
Proof.
  intros Hverify. cbv zeta.
  pose proof (processStatement_interjects env queueItem statementText s)
    as Hsaid.
  cbv zeta in Hsaid. rewrite Hverify in Hsaid.
  destruct Hsaid as [Hsame|(r & info & Hr & Hisfalse & Hinfo & _ & Hadded)].
  { split; [by left|done]. }
  destruct (verifyStatement_inv w statementText r Hr)
    as (a1 & a2 & a3 & a4 & a5 & c & H1 & H2 & H3 & H4 & H5 & Hc
        & Hagents & Hlava & _ & Hfalse & Hlabel & _).
  assert (gatewayDown w (agents r) ->
          3 <= count VFalse [a1; a2; a3; a4; a5]) as Hthree.
  { intros Hdown. rewrite Hagents in Hdown.
    rewrite (getLavaGatewayConsensus_down _ _ Hdown) in Hc.
    injection Hc as <-.
    rewrite Hfalse in Hisfalse. apply bool_decide_eq_true in Hisfalse.
    rewrite calculateLocalConsensus_five in Hisfalse by done.
    destruct (decide (3 <= count VFalse [a1; a2; a3; a4; a5])); [done|].
    rewrite bool_decide_eq_false_2 in Hisfalse by done.
    by destruct (bool_decide (3 <= count VTrue [a1; a2; a3; a4; a5])). }
  split.
  - right. exists r, info. split; [done|]. split.
    { rewrite Hlabel. rewrite Hfalse in Hisfalse.
      apply bool_decide_eq_true in Hisfalse. by rewrite Hisfalse. }
    split; [done|]. split; [done|].
    rewrite Hagents at 2. by apply Hthree.
  - intros Hkey Hmissing. exfalso.
    specialize (Hthree ltac:(by left)).
    pose proof (verifyWithBrightData_verdict _ _ _ H4) as Hweb.
    apply (verifyWithLlama_skipped _ _ _ Hkey) in H5 as ->.
    rewrite !count_cons in Hthree. cbn [verdict_of failed] in Hthree.
    change (count VFalse []) with 0 in Hthree.
    rewrite (bool_decide_eq_false_2 (verdict_of a4 = VFalse)) in Hthree by done.
    rewrite (bool_decide_eq_false_2 (VInconclusive = VFalse)) in Hthree by done.
    destruct Hmissing as [Hm|[Hm|Hm]];
      [ apply (verifyWithClaude_skipped _ _ _ Hm) in H1; rewrite H1 in Hthree
      | apply (verifyWithFetchAI_skipped _ _ _ Hm) in H2; rewrite H2 in Hthree
      | apply (verifyWithGemini_skipped _ _ _ Hm) in H3; rewrite H3 in Hthree ];
      rewrite (bool_decide_eq_false_2 (VInconclusive = VFalse)) in Hthree by done;
      repeat (destruct (bool_decide _) in Hthree); cbn in Hthree; lia.
Qed.

End Interjects.

Lemma interjection_needs_false_consensus_witness :
  exists r,
    verifyStatement fourFalse "The Earth is flat" = inr r
    /\ consensus_of r = verified_false
    /\ 3 <= count VFalse (agents r).
Proof.
  destruct (interjection_needs_false_consensus fourFalse
              (surroundings (fun _ => false)) entry "The Earth is flat" fresh
              eq_refl) as [[Hnone|(r & info & Hr & Hlabel & _ & _ & Hdown)] _].
  - vm_compute in Hnone. discriminate Hnone.
  - exists r. split; [done|]. split; [done|]. apply Hdown.
    pose proof Hr as Hrun. vm_compute in Hrun. injection Hrun as <-.
    right. cbn. by left.
Defined.

(** ** The index route: incoming transcriptions *)

Section Incoming.

Variable env : Route.Surroundings.
Variable result : TranscriptionResult.
Variable timestamp : string.

Lemma viewStatus_append (key : string) (queued : SpeakerQueueModel)
    (a : AppState) :
  id queued = key ->
  viewStatus key a = None ->
  viewStatus key (setSpeakerQueue (fun prev => prev ++ [queued]) a)
  = Some (processing_status queued).
Proof.
  intros Hid. unfold viewStatus. cbn [speakerQueue setSpeakerQueue].
  induction (speakerQueue a) as [|item prev IH]; cbn.
  - rewrite Hid, String.eqb_refl. done.
  - destruct (String.eqb (id item) key); [done|exact IH].
Qed.

(** X19. The transcription callback shows every result.  It queues and
    checks only declarative statements of a running session: any other
    result leaves the queue, the results and the record store as they
    are.  When the record store refuses the queue entry nothing is
    checked, but the declarative statement is still recorded; when it
    accepts, the entry is appended to the queue, held by the record
    store, and the check is started on it, which keeps the order of the
    queue and adds at most one verification result.  An entry with a
    new id is shown and stored with the status it came with when the
    check starts. *)
Theorem handleTranscription_queues (s : Route.RouteState) :
  let after := fst (Route.handleTranscription env result timestamp s) in
  let started := snd (Route.handleTranscription env result timestamp s) in
  Route.transcriptions after = Route.transcriptions s ++ [result]
  /\ (statementType result <> declarative \/ Route.currentSession env = None ->
      Route.app after = Route.app s /\ started = None
      /\ Route.declarativeStatements after = Route.declarativeStatements s)
  /\ (forall session,
        statementType result = declarative ->
        Route.currentSession env = Some session ->
        let item := Route.queueItemOf session result timestamp in
        Route.declarativeStatements after
        = Route.declarativeStatements s
          ++ match Route.insertDeclarativeStatement env (Voice.text result) with
             | inl _ => []
             | inr _ => [Voice.text result]
             end
        /\ ((exists e, Route.insertSpeakerQueue env item = inl e)
            \/ Route.insertSpeakerQueue env item = inr [] ->
            Route.app after = Route.app s /\ started = None)
        /\ (forall queued rest,
              Route.insertSpeakerQueue env item = inr (queued :: rest) ->
              let queuedState :=
                setSpeakerQueue (fun prev => prev ++ [queued])
                  (putStore (id queued) queued (Route.app s)) in
              Route.app after
              = finalState (Route.processing env) queued (Voice.text result)
                  queuedState
              /\ started
                 = Some (outcomeOf (Route.processing env) queued
                           (Voice.text result) queuedState)
              /\ map id (speakerQueue (Route.app after))
                 = map id (speakerQueue (Route.app s)) ++ [id queued]
              /\ is_Some (store (Route.app after) !! id queued)
              /\ (viewStatus (id queued) (Route.app s) = None ->
                  viewStatus (id queued) queuedState
                  = Some (processing_status queued)
                  /\ storedStatus (id queued) queuedState
                     = Some (processing_status queued))
              /\ exists added,
                   verificationResults (Route.app after)
                   = verificationResults (Route.app s) ++ added
                   /\ length added <= 1)).
Proof.
  cbv zeta. unfold Route.handleTranscription.
  destruct (statementType result) eqn:Htype;
    try (split; [done|]; split; [done|]; intros; congruence).
  destruct (Route.currentSession env) as [session|] eqn:Hsession;
    [|split; [done|]; split; [done|]; intros; congruence].
  unfold Route.enqueue.
  destruct (Route.insertSpeakerQueue env
              (Route.queueItemOf session result timestamp))
    as [e|[|queued rest]] eqn:Hinsert.
  - destruct (Route.insertDeclarativeStatement env _); cbn.
    all: split; [done|]. all: split; [by intros [?|?]|].
    all: intros session' _ [= <-]; rewrite Hinsert.
    all: split; [by rewrite ?app_nil_r|].
    all: split; [done|]. all: intros; congruence.
  - destruct (Route.insertDeclarativeStatement env _); cbn.
    all: split; [done|]. all: split; [by intros [?|?]|].
    all: intros session' _ [= <-]; rewrite Hinsert.
    all: split; [by rewrite ?app_nil_r|].
    all: split; [done|]. all: intros; congruence.
  - pose proof (processStatement_frame (Route.processing env) queued
                  (Voice.text result)
                  (setSpeakerQueue (fun prev => prev ++ [queued])
                     (putStore (id queued) queued (Route.app s))))
      as (Hids & Hadded & Hheld & _).
    unfold finalState, outcomeOf in *.
    cbn [Route.inApp Route.app Route.transcriptions
         Route.declarativeStatements].
    destruct (processStatement _ _ _ _) as [outcome run] eqn:Hrun.
    cbn [fst snd] in *.
    destruct (Route.insertDeclarativeStatement env _);
      cbn [fst snd Route.app Route.transcriptions Route.declarativeStatements].
    all: split; [done|]. all: split; [by intros [?|?]|].
    all: intros session' _ [= <-]; rewrite Hinsert.
    all: split; [by rewrite ?app_nil_r|].
    all: split; [intros [[? ?]|?]; congruence|].
    all: intros ? ? [= <- <-]; rewrite Hrun;
      cbn [fst snd Route.inApp Route.app].
    all: split; [done|]. all: split; [done|].
    all: split; [by rewrite Hids; cbn; rewrite map_app|].
    all: split; [apply Hheld; cbn; by rewrite lookup_insert_eq|].
    all: split;
      [intros Hnew; split;
       [by apply viewStatus_append|apply storedStatus_putStore]|].
    all: exact Hadded.
Qed.

End Incoming.

(** ** The index route: the speaking signal and the wait for a break *)

Section SpeakingSignal.

(** Quiet samples after the last loud one: the time of the last audio
    stays, and the flag stays up as long as none of them comes more than
    1000 ms after it. *)
Lemma listen_quiet (post : list (bool * Z)) (speaking : bool) (t : Z) :
  Forall (fun sample => fst sample = false) post ->
  Route.listen post {| isCurrentlySpeaking := speaking; lastAudioTime := t |}
  = {| isCurrentlySpeaking :=
         speaking && forallb (fun sample => (snd sample - t <=? 1000)%Z) post;
       lastAudioTime := t |}.
Proof.
  revert speaking. induction post as [|[loud time] post IH]; intros speaking Hquiet.
  { cbn. by rewrite andb_true_r. }
  apply Forall_cons in Hquiet as [Hloud Hquiet]. cbn in Hloud. subst loud.
  unfold Route.listen in *. cbn [foldl fst snd]. unfold Route.audioLevel at 2.
  cbn [isCurrentlySpeaking lastAudioTime forallb snd].
  destruct speaking; cbn [andb].
  - destruct (Z.ltb_spec 1000 (time - t)), (Z.leb_spec (time - t) 1000);
      try lia; rewrite IH by done; done.
  - rewrite IH by done. done.
Qed.

Lemma listen_app (pre post : list (bool * Z)) (s : Captured) :
  Route.listen (pre ++ post) s = Route.listen post (Route.listen pre s).
Proof. unfold Route.listen. apply foldl_app. Qed.

(** X20. The speaking signal after a series of audio levels: the time
    of the last audio is that of the last loud sample, and the flag is
    up exactly when no quiet sample since then came more than 1000 ms
    after it, whatever went before.  Without a loud sample a signal that
    is down stays as it is. *)
Theorem listen_signal (pre post : list (bool * Z)) (t : Z) (s : Captured) :
  Forall (fun sample => fst sample = false) post ->
  let heard := Route.listen (pre ++ (true, t) :: post) s in
  lastAudioTime heard = t
  /\ (isCurrentlySpeaking heard = true <->
      Forall (fun sample => (snd sample - t <= 1000)%Z) post)
  /\ (isCurrentlySpeaking s = false -> Route.listen post s = s).
Proof.
  intros Hquiet. cbv zeta. rewrite listen_app.
  change (Route.listen ((true, t) :: post) (Route.listen pre s))
    with (Route.listen post {| isCurrentlySpeaking := true; lastAudioTime := t |}).
  rewrite listen_quiet by done. cbn [isCurrentlySpeaking lastAudioTime andb].
  split; [done|]. split.
  - rewrite forallb_forall, Forall_forall.
    split; intros Hall sample Hin.
    + apply Z.leb_le, Hall. by apply list_elem_of_In.
    + apply Z.leb_le, Hall. by apply list_elem_of_In.
  - intros Hdown. destruct s as [speaking last]. cbn in Hdown. subst speaking.
    by rewrite listen_quiet.
Qed.

Lemma listen_signal_witness :
  isCurrentlySpeaking
    (Route.listen
       [(false, 0%Z); (true, 100%Z); (false, 600%Z); (false, 1100%Z)] quiet)
  = true
  /\ isCurrentlySpeaking
       (Route.listen
          [(true, 100%Z); (false, 600%Z); (false, 1101%Z); (false, 1102%Z)]
          quiet)
     <> true.
Proof.
  split.
  - apply (listen_signal [(false, 0%Z)] [(false, 600%Z); (false, 1100%Z)]
             100 quiet); [by repeat constructor|].
    repeat constructor; cbn; lia.
  - intros Hup.
    apply (listen_signal [] [(false, 600%Z); (false, 1101%Z); (false, 1102%Z)]
             100 quiet) in Hup; [|by repeat constructor].
    apply Forall_cons in Hup as [_ Hup]. apply Forall_cons in Hup as [Hlate _].
    cbn in Hlate. lia.
Defined.

End SpeakingSignal.

Section Break.

Variable cap : Captured.
Variable t0 : Z.

(** No run of the interval callback before the one that resolves the
    promise finds the condition true. *)
Lemma poll_first (k : Z) (runs : nat) (n : Z) :
  (k <= n)%Z -> (t0 + 100 * n < poll cap t0 k runs)%Z ->
  (n < k + Z.of_nat runs)%Z ->
  checkBreak cap (t0 + 100 * n) = false.
Proof.
  revert k. induction runs as [|runs IH]; intros k Hk Hlt Hn; [lia|].
  cbn [poll] in Hlt.
  destruct (checkBreak cap (t0 + 100 * k)) eqn:Hbreak; [lia|].
  destruct (decide (n = k)) as [->|Hne]; [done|].
  apply (IH (k + 1)%Z); lia.
Qed.

(** X21. The wait for a break ends at one of the hundred ticks, 100 ms
    apart, after its start: at the first one at which the closure's
    values say that nobody speaks and that the last audio is more than
    1000 ms old, and at the last one, 10000 ms after the start, when
    there is none; a closure made while the speaker spoke always waits
    the full 10000 ms. *)
Theorem waitForBreak_resolves :
  (exists n, (1 <= n <= 100)%Z /\ waitForBreak cap t0 = (t0 + 100 * n)%Z)
  /\ (waitForBreak cap t0 <> (t0 + 10000)%Z ->
      isCurrentlySpeaking cap = false
      /\ (lastAudioTime cap + 1000 < waitForBreak cap t0)%Z)
  /\ (forall n, (1 <= n)%Z -> (t0 + 100 * n < waitForBreak cap t0)%Z ->
        checkBreak cap (t0 + 100 * n) = false)
  /\ (isCurrentlySpeaking cap = true ->
      waitForBreak cap t0 = (t0 + 10000)%Z)
  /\ (isCurrentlySpeaking cap = false ->
      (lastAudioTime cap + 1000 < t0 + 100)%Z ->
      waitForBreak cap t0 = (t0 + 100)%Z).
Proof.
  unfold waitForBreak.
  pose proof (poll_bounds cap t0 1 99 ltac:(lia) ltac:(lia)) as Hbounds.
  split; [|split; [|split; [|split]]].
  - destruct (decide (poll cap t0 1 99 = (t0 + 10000)%Z)) as [->|Hearly].
    + exists 100%Z. lia.
    + destruct (poll_early cap t0 1 99 Hearly) as (_ & n & Hn & Heq).
      exists n. split; [lia|done].
  - intros Hearly. destruct (poll_early cap t0 1 99 Hearly) as (Hbreak & _).
    unfold checkBreak in Hbreak. apply andb_true_iff in Hbreak as [Hquiet Hold].
    split; [by destruct (isCurrentlySpeaking cap)|].
    apply Z.ltb_lt in Hold. lia.
  - intros n Hn Hlt. apply (poll_first 1 99); lia.
  - apply poll_speaking.
  - intros Hquiet Hold. apply waitForBreak_silent; [done|lia].
Qed.

End Break.

(** ** api-config.ts: the report of missing keys *)

Section MissingKeys.

Variable config : Settings.

Lemma isApiConfigured_key (service : Service) :
  declared config ->
  isApiConfigured config service = truthy (keyOf config service).
Proof.
  intros Hdeclared. unfold isApiConfigured, keyOf.
  destruct (Hdeclared service) as [key ->]. cbn.
  destruct key; cbn; [done|]. apply bool_decide_eq_true_2. lia.
Qed.

(** X22. For settings that follow the interface, a service counts as
    configured exactly when its key is not empty: the base URL is never
    looked at.  The report lists, in the fixed order, the required
    services without a key and no other service.  When it is empty, every
    verification run on these settings asks all five agents, and the
    key of the gateway is set: no call is skipped for a missing key. *)
Theorem getMissingConfigs_report :
  declared config ->
  (forall service,
     isApiConfigured config service = truthy (keyOf config service))
  /\ (forall service,
        service ∈ getMissingConfigs config <->
        service ∈ required /\ keyOf config service = "")
  /\ sublist (getMissingConfigs config) required
  /\ (getMissingConfigs config = [] ->
      forall (w : Verification.World) (statement : string),
        apiConfig w = keysOf config ->
        verifyWithClaude w statement
        = try_catch (claudeAttempt w statement) (errorEntry "Claude (Anthropic)")
        /\ verifyWithFetchAI w statement
           = try_catch (fetchAIAttempt w statement) (errorEntry "Fetch.ai")
        /\ verifyWithGemini w statement
           = try_catch (geminiAttempt w statement) (errorEntry "Gemini (Google)")
        /\ verifyWithBrightData w statement
           = try_catch (brightDataAttempt w statement) (errorEntry "Bright Data")
        /\ verifyWithLlama w statement
           = try_catch (llamaAttempt w statement)
               (errorEntry "Llama (Lava Portal)")
        /\ truthy (lavaGateway_apiKey (apiConfig w)) = true).
Proof.
  intros Hdeclared.
  assert (forall service,
            service ∈ getMissingConfigs config <->
            service ∈ required /\ keyOf config service = "") as Hmissing.
  { intros service. unfold getMissingConfigs.
    rewrite list_elem_of_In, filter_In, <- list_elem_of_In.
    rewrite isApiConfigured_key by done.
    destruct (keyOf config service); cbn; split; intros [? ?]; done. }
  split; [intros; by apply isApiConfigured_key|]. split; [done|]. split.
  { unfold getMissingConfigs. clear Hmissing.
    induction required as [|service services IH]; [done|]. cbn [List.filter].
    destruct (negb _); [apply sublist_skip|apply sublist_cons]; exact IH. }
  intros Hnone w statement Hconfig.
  assert (forall service, service ∈ required ->
            truthy (keyOf config service) = true) as Hset.
  { intros service Hin. destruct (keyOf config service) eqn:Hkey; [|done].
    assert (service ∈ getMissingConfigs config) as Hlisted
      by (by apply Hmissing).
    rewrite Hnone in Hlisted. by apply elem_of_nil in Hlisted. }
  unfold verifyWithClaude, verifyWithFetchAI, verifyWithGemini,
    verifyWithBrightData, verifyWithLlama.
  rewrite Hconfig. cbn [keysOf anthropic_apiKey fetchAI_apiKey gemini_apiKey
                        brightData_apiKey lavaGateway_apiKey].
  rewrite !Hset by (unfold required; by repeat constructor).
  done.
Qed.

End MissingKeys.

Lemma getMissingConfigs_report_witness :
  getMissingConfigs configured = []
  /\ verifyWithClaude ready "The Earth is flat"
     = try_catch (claudeAttempt ready "The Earth is flat")
         (errorEntry "Claude (Anthropic)").
Proof.
  split; [done|].
  destruct (getMissingConfigs_report configured) as (_ & _ & _ & Hasked).
  { intros service. by eexists. }
  by destruct (Hasked eq_refl ready "The Earth is flat" eq_refl) as (? & _).
Defined.

(** ** semantic-service.ts: the split at a conjunction and the word
    segments *)

Section ConjunctionSplit.

Variable sep : string.
Hypothesis sep_nonempty : sep <> "".
Hypothesis sep_lower : toLowerCase sep = sep.

Lemma toLowerCase_app (s t : string) :
  toLowerCase (s ++ t) = (toLowerCase s ++ toLowerCase t)%string.
Proof.
  induction s as [|c s IH]; [done|].
  rewrite append_cons. cbn [toLowerCase]. by rewrite IH, append_cons.
Qed.

Lemma dropChars_toLowerCase (n : nat) (s : string) :
  dropChars n (toLowerCase s) = toLowerCase (dropChars n s).
Proof.
  revert s. induction n as [|n IH]; intros s; [done|].
  destruct s as [|c s]; [done|]. cbn. apply IH.
Qed.

Lemma prefix_dropChars (p s : string) :
  String.prefix p s = true -> s = (p ++ dropChars (String.length p) s)%string.
Proof.
  revert s. induction p as [|a p IH]; intros s; [done|].
  destruct s as [|c s]; cbn; [done|].
  destruct (ascii_dec a c) as [->|]; [|done].
  intros Hp. rewrite append_cons. f_equal. by apply IH.
Qed.

Lemma join_cons (piece : string) (rest : list string) :
  join sep (piece :: rest)
  = (piece ++ match rest with
              | [] => ""
              | _ :: _ => sep ++ join sep rest
              end)%string.
Proof. destruct rest; [by rewrite append_nil_r|done]. Qed.

(** Joining the pieces with the separator gives the text back, up to
    the case of the letters of the separators. *)
Lemma splitLit_join (skip : nat) (s : string) :
  toLowerCase (join sep (fst (splitLit sep skip s) :: snd (splitLit sep skip s)))
  = toLowerCase (dropChars skip s).
Proof.
  revert skip. induction s as [|c s IH]; intros skip; [by destruct skip|].
  cbn [splitLit]. destruct skip as [|k]; [|apply IH]. cbn [dropChars].
  destruct (matchesAt true sep (String c s)) eqn:Hmatch.
  - specialize (IH (String.length sep - 1)).
    destruct (splitLit sep (String.length sep - 1) s) as [h t].
    cbn [fst snd] in *. rewrite join_cons.
    change ("" ++ sep ++ join sep (h :: t))%string
      with (sep ++ join sep (h :: t))%string.
    rewrite toLowerCase_app, sep_lower, IH.
    unfold matchesAt in Hmatch. apply prefix_dropChars in Hmatch.
    etransitivity; [|symmetry; exact Hmatch]. f_equal.
    rewrite dropChars_toLowerCase. f_equal.
    destruct sep as [|a rest]; [done|]. cbn. by rewrite Nat.sub_0_r.
  - specialize (IH 0).
    destruct (splitLit sep 0 s) as [h t]. cbn [fst snd dropChars] in *.
    rewrite join_cons in IH |- *. rewrite append_cons. cbn [toLowerCase].
    by rewrite IH.
Qed.

Lemma splitLit_absent (s : string) :
  includes sep (toLowerCase s) = false -> splitLit sep 0 s = (s, []).
Proof.
  induction s as [|c s IH]; [done|]. cbn [toLowerCase includes splitLit].
  intros [Hhere Hlater]%orb_false_iff.
  unfold matchesAt. cbn [toLowerCase]. rewrite Hhere, (IH Hlater). done.
Qed.

Lemma splitLit_present (s : string) :
  includes sep (toLowerCase s) = true -> snd (splitLit sep 0 s) <> [].
Proof.
  induction s as [|c s IH].
  - cbn. rewrite orb_false_r. by destruct sep.
  - cbn [toLowerCase includes splitLit].
    unfold matchesAt. cbn [toLowerCase].
    destruct (String.prefix sep (String (lower c) (toLowerCase s))).
    + intros _. by destruct (splitLit sep (String.length sep - 1) s).
    + cbn [orb]. intros Hlater%IH. by destruct (splitLit sep 0 s).
Qed.

(** X23. The split at a conjunction loses nothing: joining the parts
    with the conjunction gives the sentence back, up to the case of the
    letters of the conjunctions; each part occurs in the sentence; and
    there is more than one part exactly when the conjunction occurs in
    the sentence, in any case. *)
Theorem splitRegExp_join (s : string) :
  toLowerCase (join sep (splitRegExp sep s)) = toLowerCase s
  /\ (forall part, part ∈ splitRegExp sep s -> within part s)
  /\ (includes sep (toLowerCase s) = false -> splitRegExp sep s = [s])
  /\ (includes sep (toLowerCase s) = true -> 2 <= length (splitRegExp sep s)).
Proof.
  split; [|split; [|split]].
  - pose proof (splitLit_join 0 s) as Hjoin. unfold splitRegExp.
    by destruct (splitLit sep 0 s).
  - intros part. apply splitRegExp_within.
  - intros Habsent. unfold splitRegExp. by rewrite splitLit_absent.
  - intros Hpresent%splitLit_present. unfold splitRegExp.
    destruct (splitLit sep 0 s) as [h [|x t]]; [done|]. cbn. lia.
Qed.

End ConjunctionSplit.

Lemma splitRegExp_join_witness :
  toLowerCase
    (join " and " (splitRegExp " and " "The sky is blue AND water is wet"))
  = "the sky is blue and water is wet"
  /\ splitRegExp " and " "The sky is blue AND water is wet"
     = ["The sky is blue"; "water is wet"].
Proof.
  split; [|done].
  by destruct (splitRegExp_join " and " ltac:(done) eq_refl
                 "The sky is blue AND water is wet") as [-> _].
Defined.

Section WordSegments.

Lemma segmentsFrom_texts (currentIndex : nat) (words : list string) :
  map Context.text (Context.segmentsFrom currentIndex words) = words.
Proof.
  revert currentIndex. induction words as [|word words IH]; intros i; [done|].
  cbn. by rewrite IH.
Qed.

(** The indices of the segments are consecutive: each word takes its
    length, and one more position lies between two words. *)
Lemma segmentsFrom_consecutive (currentIndex : nat) (words : list string) :
  Forall (fun seg =>
            Context.endIndex seg
            = Context.startIndex seg + String.length (Context.text seg))
    (Context.segmentsFrom currentIndex words)
  /\ (forall i a b,
        Context.segmentsFrom currentIndex words !! i = Some a ->
        Context.segmentsFrom currentIndex words !! S i = Some b ->
        Context.startIndex b = Context.endIndex a + 1)
  /\ (forall a, head (Context.segmentsFrom currentIndex words) = Some a ->
        Context.startIndex a = currentIndex).
Proof.
  revert currentIndex. induction words as [|word words IH]; intros i.
  { split; [constructor|]. split; intros; done. }
  destruct (IH (i + String.length word + 1)) as (Hlen & Hnext & Hfirst).
  cbn [Context.segmentsFrom]. split; [by constructor|]. split.
  - intros [|k] a b Ha Hb.
    + cbn in Ha. injection Ha as <-. cbn.
      apply Hfirst. cbn in Hb. by destruct (Context.segmentsFrom _ words).
    + cbn in Ha, Hb. by apply (Hnext k).
  - intros a [= <-]. done.
Qed.

(** The segments lie within a text split at runs of white space. *)
Lemma splitRuns_segments_bound (s : string) (i : nat) :
  Forall (fun seg => Context.endIndex seg <= i + String.length s)
    (Context.segmentsFrom i
       (fst (splitRuns isSpace s) :: snd (splitRuns isSpace s))).
Proof.
  revert i. induction s as [|c s IH]; intros i.
  { cbn. repeat constructor; cbn; lia. }
  cbn [splitRuns String.length].
  pose proof (IH i) as Hsame. pose proof (IH (i + 1)) as Hnext.
  destruct (splitRuns isSpace s) as [h t]. cbn [fst snd] in *.
  assert (forall j,
            Forall (fun seg => Context.endIndex seg <= j + String.length s)
              (Context.segmentsFrom j (h :: t)) ->
            Forall (fun seg => Context.endIndex seg <= j + S (String.length s))
              (Context.segmentsFrom j (h :: t))) as Hweaken.
  { intros j Hj. eapply Forall_impl; [exact Hj|]. intros ? ?. cbn in *. lia. }
  destruct (isSpace c).
  - assert (Forall (fun seg => Context.endIndex seg <= i + S (String.length s))
              (Context.segmentsFrom i ("" :: h :: t))) as Hcut.
    { cbn [Context.segmentsFrom String.length]. apply Forall_cons. split.
      - cbn. lia.
      - replace (i + 0 + 1) with (i + 1) by lia.
        eapply Forall_impl; [exact Hnext|]. intros ? ?. cbn in *. lia. }
    destruct s as [|c' s']; [|destruct (isSpace c')]; cbn [fst snd];
      [done|by apply Hweaken|done].
  - cbn [fst snd Context.segmentsFrom String.length] in *.
    apply Forall_cons in Hnext as [Hhead Htail]. cbn in Hhead.
    apply Forall_cons. split; [cbn; lia|].
    replace (i + S (String.length h) + 1) with (i + 1 + String.length h + 1)
      by lia.
    eapply Forall_impl; [exact Htail|]. intros ? ?. cbn in *. lia.
Qed.

Lemma substring_cons_0 (c : ascii) (s : string) (m : nat) :
  String.substring 0 (S m) (String c s) = String c (String.substring 0 m s).
Proof. reflexivity. Qed.

Lemma substring_cons_S (c : ascii) (s : string) (n m : nat) :
  String.substring (S n) m (String c s) = String.substring n m s.
Proof. reflexivity. Qed.

Lemma substring_0_0 (s : string) : String.substring 0 0 s = "".
Proof. by destruct s. Qed.

Lemma substring_n_0 (n : nat) (s : string) : String.substring n 0 s = "".
Proof.
  revert s. induction n as [|n IH]; intros s; [apply substring_0_0|].
  destruct s as [|c s]; [done|]. apply IH.
Qed.

(** In a text without neighbouring white-space characters every segment
    is where its indices say. *)
Lemma splitRuns_segments_exact (s : string) (i : nat) :
  singleSpaced s = true ->
  Forall (fun seg =>
            i <= Context.startIndex seg
            /\ String.substring (Context.startIndex seg - i)
                 (String.length (Context.text seg)) s
               = Context.text seg)
    (Context.segmentsFrom i
       (fst (splitRuns isSpace s) :: snd (splitRuns isSpace s))).
Proof.
  revert i. induction s as [|c s IH]; intros i Hsingle.
  { cbn [splitRuns fst snd Context.segmentsFrom]. repeat constructor.
    apply substring_n_0. }
  assert (singleSpaced s = true) as Hrest.
  { cbn in Hsingle. destruct s; [done|].
    by apply andb_true_iff in Hsingle as [_ ?]. }
  pose proof (IH (i + 1) Hrest) as Hnext.
  cbn [splitRuns].
  destruct (splitRuns isSpace s) as [h t]. cbn [fst snd] in *.
  assert (forall l,
            Forall (fun seg =>
                      i + 1 <= Context.startIndex seg
                      /\ String.substring (Context.startIndex seg - (i + 1))
                           (String.length (Context.text seg)) s
                         = Context.text seg) l ->
            Forall (fun seg =>
                      i <= Context.startIndex seg
                      /\ String.substring (Context.startIndex seg - i)
                           (String.length (Context.text seg)) (String c s)
                         = Context.text seg) l) as Hshift.
  { intros l Hl. eapply Forall_impl; [exact Hl|]. cbn beta.
    intros seg [Hle Hsub]. split; [lia|].
    replace (Context.startIndex seg - i)
      with (S (Context.startIndex seg - (i + 1))) by lia.
    by rewrite substring_cons_S. }
  destruct (isSpace c) eqn:Hc.
  - assert (Forall (fun seg =>
                      i <= Context.startIndex seg
                      /\ String.substring (Context.startIndex seg - i)
                           (String.length (Context.text seg)) (String c s)
                         = Context.text seg)
              (Context.segmentsFrom i ("" :: h :: t))) as Hcut.
    { cbn [Context.segmentsFrom String.length]. apply Forall_cons. split.
      - cbn [Context.startIndex Context.text String.length].
        split; [lia|]. apply substring_n_0.
      - replace (i + 0 + 1) with (i + 1) by lia. by apply Hshift. }
    destruct s as [|c' s']; [done|].
    cbn in Hsingle. rewrite Hc in Hsingle.
    destruct (isSpace c') eqn:Hc'; [done|]. done.
  - cbn [fst snd Context.segmentsFrom] in *.
    apply Forall_cons in Hnext as [[_ Hhead] Htail].
    cbn [Context.startIndex Context.text] in Hhead.
    rewrite Nat.sub_diag in Hhead.
    apply Forall_cons. split.
    + cbn [Context.startIndex Context.text String.length].
      split; [lia|]. rewrite Nat.sub_diag, substring_cons_0. by rewrite Hhead.
    + cbn [String.length].
      replace (i + S (String.length h) + 1) with (i + 1 + String.length h + 1)
        by lia.
      by apply Hshift.
Qed.

(** X24. The word segments of the fallback analysis carry the words of
    the transcription in order, with consecutive indices that start at 0
    and stay within the transcription.  When no two white-space
    characters are neighbours each word stands in the transcription
    exactly where its indices say. *)
Theorem fallbackSegments_indices (transcription : string) :
  let segments := Context.fallbackSegments transcription in
  map Context.text segments = splitClass isSpace transcription
  /\ (forall first, head segments = Some first -> Context.startIndex first = 0)
  /\ (forall seg, seg ∈ segments ->
        Context.endIndex seg
        = Context.startIndex seg + String.length (Context.text seg)
        /\ Context.endIndex seg <= String.length transcription)
  /\ (forall i a b, segments !! i = Some a -> segments !! S i = Some b ->
        Context.startIndex b = Context.endIndex a + 1)
  /\ (singleSpaced transcription = true ->
      forall seg, seg ∈ segments -> located transcription seg).
Proof.
  cbv zeta. unfold Context.fallbackSegments.
  destruct (segmentsFrom_consecutive 0 (splitClass isSpace transcription))
    as (Hlen & Hnext & Hfirst).
  split; [apply segmentsFrom_texts|]. split; [done|]. split; [|split; [done|]].
  - intros seg Hin. split; [by eapply Forall_forall in Hlen|].
    pose proof (splitRuns_segments_bound transcription 0) as Hbound.
    unfold splitClass in Hin.
    destruct (splitRuns isSpace transcription) as [h t].
    by eapply Forall_forall in Hbound.
  - intros Hsingle seg Hin.
    pose proof (splitRuns_segments_exact transcription 0 Hsingle) as Hexact.
    unfold splitClass in Hin.
    destruct (splitRuns isSpace transcription) as [h t].
    eapply Forall_forall in Hexact as [_ Hsub]; [|exact Hin].
    unfold located. by rewrite Nat.sub_0_r in Hsub.
Qed.

End WordSegments.

(** After a longer run of white space the indices fall short of the
    place of the word. *)
Lemma fallbackSegments_indices_witness :
  (forall seg, seg ∈ Context.fallbackSegments "It rains today" ->
     located "It rains today" seg)
  /\ map Context.startIndex (Context.fallbackSegments "It  rains") = [0; 3]
  /\ String.substring 3 5 "It  rains" = " rain".
Proof.
  split; [|done].
  destruct (fallbackSegments_indices "It rains today") as (_ & _ & _ & _ & Hexact).
  by apply Hexact.
Defined.

(** ** voice-service.ts: the audio level and the test of the route *)

Section AudioLevel.

Variable dataArray : list nat.
Hypothesis bins : length dataArray = 128.

Lemma normalizedLevel_bins :
  Level.normalizedLevel dataArray
  = if Qle_bool 1 ((Z.of_nat (sum_list dataArray) # 128) / 128)
    then Fin 1
    else Fin ((Z.of_nat (sum_list dataArray) # 128) / 128).
Proof. unfold Level.normalizedLevel. rewrite bins. reflexivity. Qed.

Lemma level_scaled (n : nat) (a : Z) (b : positive) :
  ((Z.of_nat n # 128) / 128 <= a # b)%Q <-> (Z.of_nat n * Z.pos b <= a * 16384)%Z.
Proof.
  unfold Qle, Qdiv, Qmult, Qinv. cbn [Qnum Qden]. lia.
Qed.

Lemma scaled_level (n : nat) (a : Z) (b : positive) :
  (a # b <= (Z.of_nat n # 128) / 128)%Q <-> (a * 16384 <= Z.of_nat n * Z.pos b)%Z.
Proof.
  unfold Qle, Qdiv, Qmult, Qinv. cbn [Qnum Qden]. lia.
Qed.

(** X27. For the 128 bytes of the analyser the level is a number
    between 0 and 1, and it is 1 exactly when the bytes add up to 16384
    or more (an average of 128).  The route takes a level as speech
    exactly when the bytes add up to 1639 or more (an average above
    12.8), the service when they add up to 492 or more; so what the
    route takes as speech the service does as well. *)
Theorem normalizedLevel_thresholds :
  (exists q, Level.normalizedLevel dataArray = Fin q
             /\ (0 <= q)%Q /\ (q <= 1)%Q
             /\ (Qeq_bool q 1 = true <->
                 (16384 <= Z.of_nat (sum_list dataArray))%Z))
  /\ (Level.loud (Level.normalizedLevel dataArray) = true <->
      (1639 <= Z.of_nat (sum_list dataArray))%Z)
  /\ (Level.isSpeaking (Level.normalizedLevel dataArray) = true <->
      (492 <= Z.of_nat (sum_list dataArray))%Z)
  /\ (Level.loud (Level.normalizedLevel dataArray) = true ->
      Level.isSpeaking (Level.normalizedLevel dataArray) = true).
Proof.
  rewrite normalizedLevel_bins.
  pose proof (level_scaled (sum_list dataArray)) as Hle.
  pose proof (scaled_level (sum_list dataArray)) as Hge.
  destruct (Qle_bool 1 _) eqn:Hone.
  - apply Qle_bool_iff, (Hge 1%Z 1%positive) in Hone.
    split; [|split; [|split]].
    + exists 1%Q. split; [done|]. split; [done|]. split; [done|].
      split; [lia|done].
    + cbn. split; [lia|done].
    + cbn. split; [lia|done].
    + done.
  - assert (~ (1 <= (Z.of_nat (sum_list dataArray) # 128) / 128)%Q) as Hless.
    { rewrite <- Qle_bool_iff. by rewrite Hone. }
    rewrite (Hge 1%Z 1%positive) in Hless.
    unfold Level.loud, Level.isSpeaking, Level.gt.
    rewrite !negb_true_iff, <- !not_true_iff_false, !Qle_bool_iff.
    rewrite (Hle 1%Z 10%positive), (Hle 3%Z 100%positive).
    split; [|split; [|split]]; [|lia..].
    eexists. split; [done|]. split; [apply (Hge 0%Z 1%positive); lia|].
    split; [apply (Hle 1%Z 1%positive); lia|].
    rewrite Qeq_bool_iff. split; [|lia].
    intros Heq. exfalso. apply Hless. apply (Hge 1%Z 1%positive).
    rewrite Heq. apply Qle_refl.
Qed.

End AudioLevel.

Lemma normalizedLevel_thresholds_witness :
  Level.loud (Level.normalizedLevel (replicate 128 13)) = true
  /\ Level.loud (Level.normalizedLevel (replicate 128 12)) <> true.
Proof.
  split.
  - destruct (normalizedLevel_thresholds (replicate 128 13) eq_refl)
      as (_ & Hloud & _).
    apply Hloud, Z.leb_le. reflexivity.
  - destruct (normalizedLevel_thresholds (replicate 128 12) eq_refl)
      as (_ & Hloud & _).
    intros Hsum%Hloud%Z.leb_le. discriminate Hsum.
Defined.
